(** * topbeat: the sampling and delta-computation engine of [main.go]

    A shallow embedding of the Go program: the [Topbeat] receiver is a record
    that every method takes and returns, the operating-system queries of
    [sigar.go] and the regular-expression library are interfaces (type
    classes), logging, channel sends and external calls are recorded in a
    trace, and [float64] is IEEE 754 binary64 as specified by the standard
    library's [SpecFloat] (precision 53, maximal exponent 1024), so that
    NaN, infinities and rounding are those of the machine. *)

From Stdlib Require Import ZArith QArith Qround Lia Lqa Bool List Permutation.
From Stdlib Require Import Ascii String.
From Stdlib Require Import Floats.SpecFloat.
From stdpp Require Import base gmap strings list.

Local Open Scope Z_scope.

(** ** Machine integers *)

Module GoInt.

(** [uint64]: arithmetic wraps modulo 2^64. *)
Definition wrap64 (z : Z) : Z := z mod 2 ^ 64.
Definition add64 (a b : Z) : Z := wrap64 (a + b).
Definition sub64 (a b : Z) : Z := wrap64 (a - b).
Definition mul64 (a b : Z) : Z := wrap64 (a * b).

(** [int64]: two's complement. *)
Definition min_int64 : Z := - 2 ^ 63.
Definition max_int64 : Z := 2 ^ 63 - 1.
Definition wrap_int64 (z : Z) : Z := (z + 2 ^ 63) mod 2 ^ 64 - 2 ^ 63.

(** Go's [/] on signed integers truncates toward zero. *)
Definition quot (a b : Z) : Z := Z.quot a b.

End GoInt.

(** ** float64 *)

Module F64.

Definition float64 : Type := spec_float.

Definition prec : Z := 53.
Definition emax : Z := 1024.

Definition mul (x y : float64) : float64 := SFmul prec emax x y.
Definition div (x y : float64) : float64 := SFdiv prec emax x y.
Definition add (x y : float64) : float64 := SFadd prec emax x y.
Definition sub (x y : float64) : float64 := SFsub prec emax x y.
Definition neg (x : float64) : float64 := SFopp x.

(** Go's comparison operators; every comparison with NaN is false. *)
Definition ltb (x y : float64) : bool := SFltb x y.
Definition leb (x y : float64) : bool := SFleb x y.
Definition geb (x y : float64) : bool := SFleb y x.
Definition eqb (x y : float64) : bool := SFeqb x y.
Definition neqb (x y : float64) : bool := negb (SFeqb x y).

(** The conversion [float64(n)] of an integer: round to nearest, ties to
    even. *)
Definition of_Z (n : Z) : float64 := binary_normalize prec emax n 0 false.

(** The decimal constant [n/d], correctly rounded: both operands are
    exact, so the division rounds the exact quotient once. *)
Definition lit (n d : Z) : float64 := div (of_Z n) (of_Z d).

Definition zero : float64 := S754_zero false.
Definition one : float64 := of_Z 1.
Definition half : float64 := lit 1 2.
Definition nan : float64 := S754_nan.
Definition pinf : float64 := S754_infinity false.

Definition is_nan (x : float64) : bool :=
  match x with S754_nan => true | _ => false end.
Definition is_inf (x : float64) : bool :=
  match x with S754_infinity _ => true | _ => false end.
Definition is_finite (x : float64) : bool :=
  match x with S754_zero _ | S754_finite _ _ _ => true | _ => false end.

(** The rational a finite float denotes (0 for NaN and the infinities). *)
Definition pow2 (e : Z) : Q :=
  match e with
  | Z0 => 1
  | Zpos p => inject_Z (2 ^ Zpos p)
  | Zneg p => / inject_Z (2 ^ Zpos p)
  end.

Definition to_Q (x : float64) : Q :=
  match x with
  | S754_finite s m e =>
      ((if s then inject_Z (Zneg m) else inject_Z (Zpos m)) * pow2 e)%Q
  | _ => 0%Q
  end.

(** *** The functions of Go's [math] package that [Round] calls

    They belong to the Go runtime library, not to this repository; the
    definitions below follow the library's portable implementation. *)

(** The integer part of [f >= 1] as [math.Modf] computes it: the
    fractional bits of the mantissa are cleared ([x &^= 1<<(52-e) - 1]);
    a float whose exponent leaves no fractional bit, an infinity or a NaN
    is returned as it is. *)
Definition clear_fraction (f : float64) : float64 :=
  match f with
  | S754_finite s m e =>
      if 0 <=? e then f
      else S754_finite s (Z.to_pos (Z.shiftl (Z.shiftr (Zpos m) (- e)) (- e))) e
  | _ => f
  end.

Definition modf_nonneg (f : float64) : float64 * float64 :=
  if ltb f one then
    if eqb f zero then (f, f) else (zero, f)
  else
    let int := clear_fraction f in (int, sub f int).

(** [math.Modf]: [if f < 1 { if f < 0 { int, frac = Modf(-f); return -int,
    -frac }; if f == 0 { return f, f }; return 0, f }; ...]. *)
Definition Modf (f : float64) : float64 * float64 :=
  if ltb f zero then
    let '(int, frac) := modf_nonneg (neg f) in (neg int, neg frac)
  else modf_nonneg f.

(** [math.Floor]. *)
Definition Floor (x : float64) : float64 :=
  if eqb x zero || is_nan x || is_inf x then x
  else if ltb x zero then
    let '(d, fract) := Modf (neg x) in
    let d := if neqb fract zero then add d one else d in
    neg d
  else fst (Modf x).

(** [math.Ceil(x) = -Floor(-x)]. *)
Definition Ceil (x : float64) : float64 := neg (Floor (neg x)).

Definition Frexp (f : float64) : float64 * Z := SFfrexp prec emax f.
Definition Ldexp (f : float64) (e : Z) : float64 := SFldexp prec emax f e.

(** One turn of the square-and-multiply loop of [math.Pow]:
    [if i&1 == 1 { a1 *= x1; ae += xe }; x1 *= x1; xe <<= 1;
     if x1 < .5 { x1 += x1; xe-- }], for [i] running through the bits of
    the exponent. *)
Definition pow_square (x1 : float64) (xe : Z) : float64 * Z :=
  let x1 := mul x1 x1 in
  let xe := Z.shiftl xe 1 in
  if ltb x1 half then (add x1 x1, xe - 1) else (x1, xe).

Fixpoint pow_loop (i : positive) (a1 : float64) (ae : Z)
    (x1 : float64) (xe : Z) : float64 * Z :=
  match i with
  | xH => (mul a1 x1, ae + xe)
  | xO i' =>
      let '(x1', xe') := pow_square x1 xe in pow_loop i' a1 ae x1' xe'
  | xI i' =>
      let '(x1', xe') := pow_square x1 xe in
      pow_loop i' (mul a1 x1) (ae + xe) x1' xe'
  end.

(** [math.Pow(10, float64(places))] for an integer [places] (of magnitude
    below 2^53, so that the conversion is exact): the cases [y == 0] and
    [y == 1] return at once, the others run the loop on
    [Frexp(10) = (0.625, 4)] and end with [Ldexp], after inverting when
    the exponent is negative. *)
Definition Pow10 (places : Z) : float64 :=
  match places with
  | Z0 => one
  | Zpos xH => of_Z 10
  | Zpos i =>
      let '(x1, xe) := Frexp (of_Z 10) in
      let '(a1, ae) := pow_loop i one 0 x1 xe in
      Ldexp a1 ae
  | Zneg i =>
      let '(x1, xe) := Frexp (of_Z 10) in
      let '(a1, ae) := pow_loop i one 0 x1 xe in
      Ldexp (div one a1) (- ae)
  end.

End F64.

Abbreviation float64 := F64.float64.

(** ** func Round (main.go, lines 333-345) *)

Definition Round (val roundOn : float64) (places : Z) : float64 :=
  let pow := F64.Pow10 places in
  let digit := F64.mul pow val in
  let '(_, div) := F64.Modf digit in
  let round := if F64.geb div roundOn then F64.Ceil digit else F64.Floor digit in
  F64.div round pow.

(** ** Data model

    The struct types are declared in [sigar.go] and [config.go], outside the
    files at hand; the records below carry the fields [main.go] reads or
    writes. *)

Definition error : Type := string.

(** Modelled from the spec: "eight cumulative, monotonically non-decreasing
    unsigned counters (user, nice, system, idle, iowait, irq, softirq, steal
    time)"; [sum] returns [uint64], which fixes the width. *)
Module CpuTimes.
Record t : Type := mk {
  User : Z;
  UserPercent : float64;
  Nice : Z;
  System : Z;
  Idle : Z;
  IOWait : Z;
  Irq : Z;
  SoftIrq : Z;
  Steal : Z
  }.
Definition with_UserPercent (p : float64) (c : t) : t :=
  mk (User c) p (Nice c) (System c) (Idle c) (IOWait c) (Irq c) (SoftIrq c) (Steal c).
End CpuTimes.

(** Modelled from the spec: "memory totals (total/used/free/actual-used/
    actual-free, bytes) and swap totals of the same shape". *)
Module MemStat.
Record t : Type := mk {
  Total : Z;
  Used : Z;
  Free : Z;
  ActualFree : Z;
  ActualUsed : Z;
  UsedPercent : float64
  }.
Definition with_UsedPercent (p : float64) (m : t) : t :=
  mk (Total m) (Used m) (Free m) (ActualFree m) (ActualUsed m) p.
End MemStat.

Module SystemLoad.
Record t : Type := mk { Load1 : float64; Load5 : float64; Load15 : float64 }.
End SystemLoad.

(** Modelled from the spec: "resident memory size (bytes)". *)
Module ProcMemStat.
Record t : Type := mk { Size : Z; Rss : Z; RssPercent : float64; Share : Z }.
Definition with_RssPercent (p : float64) (m : t) : t :=
  mk (Size m) (Rss m) p (Share m).
End ProcMemStat.

(** Modelled from the spec: "cumulative CPU time (user, system, already
    expressed in millisecond-equivalent units)", unsigned 64-bit counters
    like those of the system. *)
Module ProcCpuTime.
Record t : Type := mk { User : Z; UserPercent : float64; System : Z; Total : Z }.
Definition with_UserPercent (p : float64) (c : t) : t :=
  mk (User c) p (System c) (Total c).
End ProcCpuTime.

(** [time.Time] as nanoseconds since the epoch, [time.Duration] as [int64]
    nanoseconds. [Time.Sub] saturates at the bounds of [Duration]. *)
Definition Time : Type := Z.
Definition Duration : Type := Z.

Definition time_Sub (t u : Time) : Duration :=
  Z.max GoInt.min_int64 (Z.min GoInt.max_int64 (t - u)).
Definition Nanoseconds (d : Duration) : Z := d.
Definition time_Second : Duration := 1000000000.

(** Modelled from the spec: "process identifier ..., parent identifier,
    name, state, cumulative CPU time ..., resident memory size (bytes), and
    a capture timestamp". *)
Module Process.
Record t : Type := mk {
  Pid : Z;
  Ppid : Z;
  Name : string;
  State : string;
  Mem : ProcMemStat.t;
  Cpu : ProcCpuTime.t;
  ctime : Time
  }.
Definition with_Mem (m : ProcMemStat.t) (p : t) : t :=
  mk (Pid p) (Ppid p) (Name p) (State p) m (Cpu p) (ctime p).
Definition with_Cpu (c : ProcCpuTime.t) (p : t) : t :=
  mk (Pid p) (Ppid p) (Name p) (State p) (Mem p) c (ctime p).
End Process.

(** [type TopConfig struct { Period *int64; Procs *[]string }]. *)
Module TopConfig.
Record t : Type := mk { Period : option Z; Procs : option (list string) }.
End TopConfig.

(** The events of [common.MapStr]; the key ["type"] is the constructor. *)
Inductive Event : Type :=
  | ProcEvent (timestamp : Time) (pid ppid : Z) (name state : string)
      (mem : ProcMemStat.t) (cpu : ProcCpuTime.t)
  | SystemEvent (timestamp : Time) (load : SystemLoad.t) (cpu : CpuTimes.t)
      (mem swap : MemStat.t).

Definition is_proc_event (ev : Event) : bool :=
  match ev with ProcEvent _ _ _ _ _ _ _ => true | SystemEvent _ _ _ _ _ => false end.

Definition Chan : Type := nat.

(** [type ProcsMap map[int]*Process] and [type Topbeat struct]. *)
Abbreviation ProcsMap := (gmap Z Process.t).

Record Topbeat : Type := mkTopbeat {
  isAlive : bool;
  period : Duration;
  procs : list string;
  procsMap : ProcsMap;
  lastCpuTimes : option CpuTimes.t;
  events : Chan
}.

Definition set_isAlive (b : bool) (t : Topbeat) : Topbeat :=
  mkTopbeat b (period t) (procs t) (procsMap t) (lastCpuTimes t) (events t).
Definition set_period (d : Duration) (t : Topbeat) : Topbeat :=
  mkTopbeat (isAlive t) d (procs t) (procsMap t) (lastCpuTimes t) (events t).
Definition set_procs (l : list string) (t : Topbeat) : Topbeat :=
  mkTopbeat (isAlive t) (period t) l (procsMap t) (lastCpuTimes t) (events t).
Definition set_procsMap (m : ProcsMap) (t : Topbeat) : Topbeat :=
  mkTopbeat (isAlive t) (period t) (procs t) m (lastCpuTimes t) (events t).
Definition set_lastCpuTimes (c : option CpuTimes.t) (t : Topbeat) : Topbeat :=
  mkTopbeat (isAlive t) (period t) (procs t) (procsMap t) c (events t).
Definition set_events (ch : Chan) (t : Topbeat) : Topbeat :=
  mkTopbeat (isAlive t) (period t) (procs t) (procsMap t) (lastCpuTimes t) ch.

(** [topbeat := &Topbeat{}]: every field at its zero value. *)
Definition Topbeat_zero : Topbeat := mkTopbeat false 0 [] ∅ None 0%nat.

(** ** External interfaces *)

(** The regular-expression library: compiling a pattern fails or yields a
    matcher. *)
Class RegexpLib : Type := {
  Regexp : Type;
  regexp_Compile : string -> Regexp + error;
  Regexp_MatchString : Regexp -> string -> bool
}.

(** [regexp.MatchString], as the library defines it:
    [re, err := Compile(pattern); if err != nil { return false, err };
     return re.MatchString(s), nil]. *)
Definition regexp_MatchString `{RegexpLib} (pattern s : string) : bool * option error :=
  match regexp_Compile pattern with
  | inr err => (false, Some err)
  | inl re => (Regexp_MatchString re s, None)
  end.

(** The operating system behind [sigar.go] and package [time]: every query
    takes the state of the world and returns its answer with the next
    state. [Pids] returns its slice and its error side by side, because
    [initProcStats] goes on with the slice after an error. *)
Class Sigar : Type := {
  World : Type;
  Pids : World -> (list Z * option error) * World;
  GetProcess : Z -> World -> (Process.t + error) * World;
  GetMemory : World -> (MemStat.t + error) * World;
  GetSwap : World -> (MemStat.t + error) * World;
  GetCpuTimes : World -> (CpuTimes.t + error) * World;
  GetSystemLoad : World -> (SystemLoad.t + error) * World;
  time_Now : World -> Time * World;
  time_Sleep : Duration -> World -> World
}.

(** ** Effects: a trace of what the program did, oldest first *)

Inductive LogArg : Type :=
  | ArgErr (e : error)
  | ArgInt (n : Z)
  | ArgInts (l : list Z)
  | ArgStrings (l : list string)
  | ArgDuration (d : Duration).

Inductive SysCall : Type :=
  | CallPids
  | CallGetProcess (pid : Z)
  | CallGetMemory
  | CallGetSwap
  | CallGetCpuTimes
  | CallGetSystemLoad
  | CallNow
  | CallSleep (d : Duration).

Inductive Effect : Type :=
  | Warn (format : string) (args : list LogArg)
  | Debug (selector format : string) (args : list LogArg)
  | Send (ch : Chan) (ev : Event)
  | Call (c : SysCall).

Definition is_warn (e : Effect) : bool :=
  match e with Warn _ _ => true | _ => false end.

Definition is_proc_send (e : Effect) : bool :=
  match e with Send _ ev => is_proc_event ev | _ => false end.

Definition is_enumeration (e : Effect) : bool :=
  match e with Call CallPids | Call (CallGetProcess _) => true | _ => false end.

(** ** A state monad over the world and the trace *)

Section Program.

Context `{re : RegexpLib} `{os : Sigar}.

Record Sys : Type := mkSys { world : World; trace : list Effect }.

Definition M (A : Type) : Type := Sys -> A * Sys.

Definition ret {A : Type} (a : A) : M A := fun s => (a, s).

Definition bind {A B : Type} (m : M A) (k : A -> M B) : M B :=
  fun s => let '(a, s') := m s in k a s'.

#[local] Instance M_ret : MRet M := @ret.
#[local] Instance M_bind : MBind M := fun A B k m => bind m k.

Definition emit (e : Effect) : M unit :=
  fun s => (tt, mkSys (world s) (trace s ++ [e])).

(** An external call: the call is recorded, the world answers. *)
Definition syscall {A : Type} (c : SysCall) (f : World -> A * World) : M A :=
  fun s => let '(a, w) := f (world s) in (a, mkSys w (trace s ++ [Call c])).

Definition logp_Warn (format : string) (args : list LogArg) : M unit :=
  emit (Warn format args).
Definition logp_Debug (selector format : string) (args : list LogArg) : M unit :=
  emit (Debug selector format args).
Definition send (ch : Chan) (ev : Event) : M unit := emit (Send ch ev).

(** A [for ... range] loop whose body updates the receiver. *)
Fixpoint for_range {A : Type} (l : list A) (body : A -> Topbeat -> M Topbeat)
    (t : Topbeat) : M Topbeat :=
  match l with
  | [] => ret t
  | x :: l' => t' ← body x t; for_range l' body t'
  end.

(** ** func (t *Topbeat) MatchProcess (lines 35-44) *)

Fixpoint MatchProcess_range (regs : list string) (name : string) : bool :=
  match regs with
  | [] => false
  | reg :: regs' =>
      let '(matched, _) := regexp_MatchString reg name in
      if matched then true else MatchProcess_range regs' name
  end.

Definition MatchProcess (t : Topbeat) (name : string) : bool :=
  MatchProcess_range (procs t) name.

(** ** func (t *CpuTimes) sum (lines 346-349) *)

Definition sum (t : CpuTimes.t) : Z :=
  GoInt.add64 (GoInt.add64 (GoInt.add64 (GoInt.add64 (GoInt.add64 (GoInt.add64
    (GoInt.add64 (CpuTimes.User t) (CpuTimes.Nice t)) (CpuTimes.System t))
    (CpuTimes.Idle t)) (CpuTimes.IOWait t)) (CpuTimes.Irq t))
    (CpuTimes.SoftIrq t)) (CpuTimes.Steal t).

(** ** func (t *Topbeat) getUsedMemPercent (lines 46-54) *)

Definition getUsedMemPercent (t : Topbeat) (m : MemStat.t) : float64 :=
  if MemStat.Total m =? 0 then F64.zero
  else
    let perc := F64.div (F64.of_Z (GoInt.mul64 100 (MemStat.Used m)))
                        (F64.of_Z (MemStat.Total m)) in
    Round perc F64.half 2.

(** ** func (t *Topbeat) getRssPercent (lines 56-68) *)

Definition getRssPercent (t : Topbeat) (m : ProcMemStat.t) : M float64 :=
  r ← syscall CallGetMemory GetMemory;
  match r with
  | inr err =>
      logp_Warn "Getting memory details: %v" [ArgErr err];;
      ret F64.zero
  | inl mem_stat =>
      let total_phymem := MemStat.Total mem_stat in
      let perc := F64.mul (F64.div (F64.of_Z (ProcMemStat.Rss m))
                                   (F64.of_Z total_phymem)) (F64.of_Z 100) in
      ret (Round perc F64.half 2)
  end.

(** ** func (t *Topbeat) getCpuPercentage (lines 70-85) *)

Definition getCpuPercentage (t : Topbeat) (t2 : CpuTimes.t) : float64 * Topbeat :=
  let t1 := lastCpuTimes t in
  let perc :=
    match t1 with
    | Some t1 =>
        let all_delta := GoInt.sub64 (sum t2) (sum t1) in
        let user_delta := GoInt.sub64 (CpuTimes.User t2) (CpuTimes.User t1) in
        F64.div (F64.of_Z (GoInt.mul64 100 user_delta)) (F64.of_Z all_delta)
    | None => F64.zero
    end in
  (Round perc F64.half 2, set_lastCpuTimes (Some t2) t).

(** ** func (t *Topbeat) getProcCpuPercentage (lines 87-101) *)

Definition getProcCpuPercentage (t : Topbeat) (proc : Process.t) : float64 * Topbeat :=
  match procsMap t !! Process.Pid proc with
  | Some oproc =>
      let delta_proc :=
        GoInt.add64
          (GoInt.sub64 (ProcCpuTime.User (Process.Cpu proc))
                       (ProcCpuTime.User (Process.Cpu oproc)))
          (GoInt.sub64 (ProcCpuTime.System (Process.Cpu proc))
                       (ProcCpuTime.System (Process.Cpu oproc))) in
      let delta_time :=
        GoInt.quot (Nanoseconds (time_Sub (Process.ctime proc) (Process.ctime oproc)))
                   1000000 in
      let perc := F64.mul (F64.div (F64.of_Z delta_proc) (F64.of_Z delta_time))
                          (F64.of_Z 100) in
      (Round perc F64.half 2,
       set_procsMap (<[Process.Pid proc := proc]> (procsMap t)) t)
  | None => (F64.zero, t)
  end.

(** ** func (t *Topbeat) Init (lines 103-121) *)

Definition Init (t : Topbeat) (config : TopConfig.t) (ch : Chan)
    : M (option error * Topbeat) :=
  let t :=
    match TopConfig.Period config with
    | Some p => set_period (GoInt.wrap_int64 (p * time_Second)) t
    | None => set_period (GoInt.wrap_int64 (1 * time_Second)) t
    end in
  let t :=
    match TopConfig.Procs config with
    | Some l => set_procs l t
    | None => set_procs [".*"%string] t
    end in
  logp_Debug "topbeat" "Init toppbeat" [];;
  logp_Debug "topbeat" "Follow processes %q\n" [ArgStrings (procs t)];;
  logp_Debug "topbeat" "Period %v\n" [ArgDuration (period t)];;
  ret (None, set_events ch t).

(** ** func (t *Topbeat) initProcStats (lines 123-146) *)

Definition initProcStats_body (pid : Z) (t : Topbeat) : M Topbeat :=
  r ← syscall (CallGetProcess pid) (GetProcess pid);
  match r with
  | inr err =>
      logp_Debug "topbeat" "Skip process %d: %v" [ArgInt pid; ArgErr err];;
      ret t
  | inl process =>
      ret (set_procsMap (<[Process.Pid process := process]> (procsMap t)) t)
  end.

Definition initProcStats (t : Topbeat) : M Topbeat :=
  let t := set_procsMap ∅ t in
  if (length (procs t) =? 0)%nat then ret t
  else
    r ← syscall CallPids Pids;
    let '(pids, err) := r in
    match err with
     | Some e => logp_Warn "Getting the list of pids: %v" [ArgErr e]
     | None => ret tt
     end;;
    logp_Debug "topbeat" "Pids: %v\n" [ArgInts pids];;
    for_range pids initProcStats_body t.

(** ** func (t *Topbeat) exportProcStats (lines 148-188)

    [process] is a pointer: the assignments to [process.Cpu.UserPercent]
    and [process.Mem.RssPercent] also change the object that
    [getProcCpuPercentage] has just put in the map, and line 172 stores
    the same pointer again. With values instead of pointers, the record
    stored at line 172 is the one with both percentages filled in, which
    is what the map holds in Go when the iteration ends; nothing reads
    the map in between. *)

Definition exportProcStats_body (pid : Z) (t : Topbeat) : M Topbeat :=
  r ← syscall (CallGetProcess pid) (GetProcess pid);
  match r with
  | inr err =>
      logp_Debug "topbeat" "Skip process %d: %v" [ArgInt pid; ArgErr err];;
      ret t
  | inl process =>
      if MatchProcess t (Process.Name process) then
        let '(user_p, t) := getProcCpuPercentage t process in
        let process :=
          Process.with_Cpu
            (ProcCpuTime.with_UserPercent user_p (Process.Cpu process)) process in
        rss_p ← getRssPercent t (Process.Mem process);
        let process :=
          Process.with_Mem
            (ProcMemStat.with_RssPercent rss_p (Process.Mem process)) process in
        let t := set_procsMap (<[Process.Pid process := process]> (procsMap t)) t in
        now ← syscall CallNow time_Now;
        send (events t)
          (ProcEvent now (Process.Pid process) (Process.Ppid process)
             (Process.Name process) (Process.State process)
             (Process.Mem process) (Process.Cpu process));;
        ret t
      else ret t
  end.

Definition exportProcStats (t : Topbeat) : M (option error * Topbeat) :=
  if (length (procs t) =? 0)%nat then ret (None, t)
  else
    r ← syscall CallPids Pids;
    let '(pids, err) := r in
    match err with
    | Some e =>
        logp_Warn "Getting the list of pids: %v" [ArgErr e];;
        ret (Some e, t)
    | None =>
        t ← for_range pids exportProcStats_body t;
        ret (None, t)
    end.

(** ** func (t *Topbeat) exportSystemStats (lines 190-232)

    [cpu_stat] is the pointer that [getCpuPercentage] stores in
    [t.lastCpuTimes]; the assignment to [cpu_stat.UserPercent] is
    therefore visible through the receiver as well. *)

Definition exportSystemStats (t : Topbeat) : M (option error * Topbeat) :=
  r ← syscall CallGetSystemLoad GetSystemLoad;
  match r with
  | inr err =>
      logp_Warn "Getting load statistics: %v" [ArgErr err];;
      ret (Some err, t)
  | inl load_stat =>
  r ← syscall CallGetCpuTimes GetCpuTimes;
  match r with
  | inr err =>
      logp_Warn "Getting cpu times: %v" [ArgErr err];;
      ret (Some err, t)
  | inl cpu_stat =>
  let '(user_p, t) := getCpuPercentage t cpu_stat in
  let cpu_stat := CpuTimes.with_UserPercent user_p cpu_stat in
  let t := set_lastCpuTimes (Some cpu_stat) t in
  r ← syscall CallGetMemory GetMemory;
  match r with
  | inr err =>
      logp_Warn "Getting memory details: %v" [ArgErr err];;
      ret (Some err, t)
  | inl mem_stat =>
  let mem_stat := MemStat.with_UsedPercent (getUsedMemPercent t mem_stat) mem_stat in
  r ← syscall CallGetSwap GetSwap;
  match r with
  | inr err =>
      logp_Warn "Getting swap details: %v" [ArgErr err];;
      ret (Some err, t)
  | inl swap_stat =>
  let swap_stat := MemStat.with_UsedPercent (getUsedMemPercent t swap_stat) swap_stat in
  now ← syscall CallNow time_Now;
  send (events t) (SystemEvent now load_stat cpu_stat mem_stat swap_stat);;
  ret (None, t)
  end end end end.

(** ** func (t *Topbeat) procCpuPercent (lines 234-248)

    [runtime.NumCPU()] is a constant of the machine the program runs on; it
    is the parameter [numCPU]. *)

Definition procCpuPercent (numCPU : Z) (t : Topbeat) (proc : Process.t)
    : float64 * Topbeat :=
  match procsMap t !! Process.Pid proc with
  | Some oproc =>
      let delta_proc :=
        GoInt.add64
          (GoInt.sub64 (ProcCpuTime.User (Process.Cpu proc))
                       (ProcCpuTime.User (Process.Cpu oproc)))
          (GoInt.sub64 (ProcCpuTime.System (Process.Cpu proc))
                       (ProcCpuTime.System (Process.Cpu oproc))) in
      let delta_time :=
        GoInt.quot (Nanoseconds (time_Sub (Process.ctime proc) (Process.ctime oproc)))
                   1000000 in
      let perc :=
        F64.mul (F64.mul (F64.div (F64.of_Z delta_proc) (F64.of_Z delta_time))
                         (F64.of_Z 100))
                (F64.of_Z numCPU) in
      (Round perc F64.half 2,
       set_procsMap (<[Process.Pid proc := proc]> (procsMap t)) t)
  | None => (F64.zero, t)
  end.

(** ** func (t *Topbeat) Run (lines 250-263) and Stop (lines 265-268)

    [Stop] is called from the signal handler while the loop runs; the loop
    reads [t.isAlive] once per iteration. [Run_loop n] is the loop when
    the flag is seen cleared after [n] iterations. *)

Definition Stop (t : Topbeat) : Topbeat := set_isAlive false t.

Definition tick (t : Topbeat) : M Topbeat :=
  syscall (CallSleep (period t)) (fun w => (tt, time_Sleep (period t) w));;
  r ← exportSystemStats t;
  r ← exportProcStats (snd r);
  ret (snd r).

Fixpoint Run_loop (n : nat) (t : Topbeat) : M Topbeat :=
  match n with
  | O => ret t
  | S n' => t' ← tick t; Run_loop n' t'
  end.

Definition Run (n : nat) (t : Topbeat) : M (option error * Topbeat) :=
  let t := set_isAlive true t in
  t ← initProcStats t;
  t ← Run_loop n t;
  ret (None, Stop t).

End Program.

(** ** A regular-expression engine for closed examples

    Go's [regexp] package is not part of the repository. [RE2] implements
    the fragment of its syntax made of literal letters, digits, ['-'], ['_']
    and [' '], the wildcard ['.'] (any character but a newline), the anchors
    ['^'] and ['$'] (beginning and end of the text), grouping, alternation
    and one greedy postfix operator ['*'], ['+'] or ['?'] per atom. A pattern that
    is malformed in this fragment is malformed for Go as well; a pattern
    that uses other syntax is outside the model and is rejected. The general
    theorems below quantify over every [RegexpLib]. *)

Module RE2.

Inductive re : Type :=
  | Fail
  | Eps
  | Chr (c : ascii)
  | AnyNotNL
  | Bol
  | Eol
  | Cat (a b : re)
  | Alt (a b : re)
  | Star (a : re).

Definition is_literal (c : ascii) : bool :=
  let n := nat_of_ascii c in
  ((48 <=? n) && (n <=? 57) || (65 <=? n) && (n <=? 90)
   || (97 <=? n) && (n <=? 122) || (n =? 45) || (n =? 95) || (n =? 32))%nat.

Definition is_repetition (c : ascii) : bool :=
  (Ascii.eqb c "*" || Ascii.eqb c "+" || Ascii.eqb c "?")%char.

Definition apply_repetition (c : ascii) (r : re) : re :=
  if Ascii.eqb c "*"%char then Star r
  else if Ascii.eqb c "+"%char then Cat r (Star r)
  else Alt r Eps.

Definition starts_with_repetition (s : list ascii) : bool :=
  match s with c :: _ => is_repetition c | [] => false end.

Fixpoint parse_alt (fuel : nat) (s : list ascii) : option (re * list ascii) :=
  match fuel with
  | O => None
  | S fuel =>
      match parse_cat fuel s with
      | Some (r, c :: s') =>
          if Ascii.eqb c "|"%char then
            match parse_alt fuel s' with
            | Some (r', s'') => Some (Alt r r', s'')
            | None => None
            end
          else Some (r, c :: s')
      | other => other
      end
  end
with parse_cat (fuel : nat) (s : list ascii) : option (re * list ascii) :=
  match fuel with
  | O => None
  | S fuel =>
      match s with
      | [] => Some (Eps, [])
      | c :: _ =>
          if (Ascii.eqb c "|" || Ascii.eqb c ")")%char then Some (Eps, s)
          else
            match parse_rep fuel s with
            | Some (r, s') =>
                match parse_cat fuel s' with
                | Some (r', s'') => Some (Cat r r', s'')
                | None => None
                end
            | None => None
            end
      end
  end
with parse_rep (fuel : nat) (s : list ascii) : option (re * list ascii) :=
  match fuel with
  | O => None
  | S fuel =>
      match parse_atom fuel s with
      | Some (r, c :: s') =>
          if is_repetition c then
            if starts_with_repetition s' then None
            else Some (apply_repetition c r, s')
          else Some (r, c :: s')
      | other => other
      end
  end
with parse_atom (fuel : nat) (s : list ascii) : option (re * list ascii) :=
  match fuel with
  | O => None
  | S fuel =>
      match s with
      | [] => None
      | c :: s' =>
          if Ascii.eqb c "("%char then
            match parse_alt fuel s' with
            | Some (r, c' :: s'') =>
                if Ascii.eqb c' ")"%char then Some (r, s'') else None
            | _ => None
            end
          else if Ascii.eqb c "."%char then Some (AnyNotNL, s')
          else if Ascii.eqb c "^"%char then Some (Bol, s')
          else if Ascii.eqb c "$"%char then Some (Eol, s')
          else if is_literal c then Some (Chr c, s')
          else None
      end
  end.

Definition Compile (pattern : string) : re + error :=
  let s := list_ascii_of_string pattern in
  match parse_alt (4 * length s + 4) s with
  | Some (r, []) => inl r
  | _ => inr ("error parsing regexp: " ++ pattern)%string
  end.

(** Matching by derivatives; [bol] and [eol] say whether the current
    position is the beginning and the end of the text. *)
Fixpoint nullable (bol eol : bool) (r : re) : bool :=
  match r with
  | Fail | Chr _ | AnyNotNL => false
  | Eps | Star _ => true
  | Bol => bol
  | Eol => eol
  | Cat a b => nullable bol eol a && nullable bol eol b
  | Alt a b => nullable bol eol a || nullable bol eol b
  end.

Fixpoint deriv (bol : bool) (c : ascii) (r : re) : re :=
  match r with
  | Fail | Eps | Bol | Eol => Fail
  | Chr d => if Ascii.eqb c d then Eps else Fail
  | AnyNotNL => if Ascii.eqb c "010"%char then Fail else Eps
  | Alt a b => Alt (deriv bol c a) (deriv bol c b)
  | Cat a b =>
      if nullable bol false a
      then Alt (Cat (deriv bol c a) b) (deriv bol c b)
      else Cat (deriv bol c a) b
  | Star a => Cat (deriv bol c a) (Star a)
  end.

Definition at_end (s : list ascii) : bool :=
  match s with [] => true | _ => false end.

(** Does [r] match a prefix of [s]? *)
Fixpoint match_prefix (bol : bool) (r : re) (s : list ascii) : bool :=
  nullable bol (at_end s) r
  || match s with
     | [] => false
     | c :: s' => match_prefix false (deriv bol c r) s'
     end.

(** Unanchored search: does [r] match at some position of [s]? *)
Fixpoint search (bol : bool) (r : re) (s : list ascii) : bool :=
  match_prefix bol r s
  || match s with
     | [] => false
     | _ :: s' => search false r s'
     end.

Definition MatchString (r : re) (s : string) : bool :=
  search true r (list_ascii_of_string s).

#[export] Instance lib : RegexpLib :=
  {| Regexp := re; regexp_Compile := Compile; Regexp_MatchString := MatchString |}.

End RE2.

(** ** An operating system for closed examples

    The world is a clock, a process table and the answers of the memory and
    CPU queries; [GetProcess] stamps the snapshot with the clock. *)

Module TableOS.

Record world : Type := mk {
  clock : Time;
  table : list Process.t;
  memory : MemStat.t + error;
  cpu : CpuTimes.t + error
  }.

Definition lookup (pid : Z) (w : world) : Process.t + error :=
  match List.find (fun p => Process.Pid p =? pid) (table w) with
  | Some p =>
      inl (Process.mk (Process.Pid p) (Process.Ppid p) (Process.Name p)
             (Process.State p) (Process.Mem p) (Process.Cpu p) (clock w))
  | None => inr "no such process"%string
  end.

#[export] Instance os : Sigar :=
  {| World := world;
     Pids := fun w => ((List.map Process.Pid (table w), None), w);
     GetProcess := fun pid w => (lookup pid w, w);
     GetMemory := fun w => (memory w, w);
     GetSwap := fun w => (memory w, w);
     GetCpuTimes := fun w => (cpu w, w);
     GetSystemLoad := fun w =>
       (inl (SystemLoad.mk F64.zero F64.zero F64.zero), w);
     time_Now := fun w => (clock w, w);
     time_Sleep := fun d w => mk (clock w + d) (table w) (memory w) (cpu w) |}.

End TableOS.

(** ** Inputs of the closed examples *)

Module Examples.

Definition proc (pid : Z) (name : string) (user system rss : Z) (ctime : Time)
    : Process.t :=
  Process.mk pid 1 name "S"
    (ProcMemStat.mk 0 rss F64.zero 0)
    (ProcCpuTime.mk user F64.zero system (user + system)) ctime.

Definition cpu (user idle : Z) : CpuTimes.t :=
  CpuTimes.mk user F64.zero 0 0 idle 0 0 0 0.

Definition mem (total : Z) : MemStat.t := MemStat.mk total 0 total total 0 F64.zero.

Definition tracker (patterns : list string) (m : ProcsMap) (last : option CpuTimes.t)
    : Topbeat :=
  mkTopbeat true time_Second patterns m last 0%nat.

Definition sys0 (clock : Time) (table : list Process.t) (total : Z)
    : @Sys TableOS.os :=
  @mkSys TableOS.os (TableOS.mk clock table (inl (mem total)) (inl (cpu 0 0))) [].

End Examples.

(** The snapshot as [exportProcStats] leaves it in the map: both
    percentages filled in. *)
Definition filled (user_p rss_p : float64) (process : Process.t) : Process.t :=
  let process :=
    Process.with_Cpu (ProcCpuTime.with_UserPercent user_p (Process.Cpu process)) process in
  Process.with_Mem (ProcMemStat.with_RssPercent rss_p (Process.Mem process)) process.

(** An effect that neither enumerates processes nor sends a proc event. *)
Definition quiet (e : Effect) : Prop :=
  is_proc_send e = false /\ is_enumeration e = false.

(** The trace of [s'] is the trace of [s] followed by quiet effects. *)
Definition extends `{os : Sigar} (s s' : Sys) : Prop :=
  exists new, trace s' = trace s ++ new /\ Forall quiet new.

(** NaN or an infinity. *)
Definition not_finite (x : float64) : bool := F64.is_nan x || F64.is_inf x.

(** ** Round-half-up, the reference

    Follows the spec's words, "round-half-up behavior" at the given
    precision: the value times 10^places, as a real number, taken to the
    nearest integer with halves upward. [Round] divides such an integer back
    by 10^places. *)
Definition exact_half_up (value : float64) (places : Z) : Z :=
  Qfloor (F64.to_Q value * inject_Z (10 ^ places) + (1 # 2)).

(** ** Reading binary64 values

    The quantities that the rounding of [SpecFloat] computes, named for the
    proofs about [Round]. *)

(** A float64 of the machine: mantissa and exponent in canonical form. *)
Definition wf (x : float64) : bool := valid_binary F64.prec F64.emax x.

(** Finite with the sign bit clear. *)
Definition nonneg (x : float64) : bool :=
  match x with
  | S754_zero false | S754_finite false _ _ => true
  | _ => false
  end.

(** The exponent of the format for a number of magnitude [2^z]. *)
Definition fexp64 (z : Z) : Z := Z.max (z - 53) (-1074).

(** Right shifts of a mantissa with its round and sticky bits: [b] is [a]
    shifted by [k] places. *)
Definition inexact (mrs : shr_record) : bool := shr_r mrs || shr_s mrs.

Definition shifted (k : Z) (a b : shr_record) : Prop :=
  shr_m b = shr_m a / 2 ^ k /\
  inexact b = inexact a || negb (shr_m a mod 2 ^ k =? 0).

Definition loc_inexact (l : location) : bool :=
  match l with loc_Exact => false | _ => true end.

(** The last step of [binary_round_aux]: zero, a finite float or an
    overflow to infinity. *)
Definition pack (sx : bool) (m3 e3 : Z) : float64 :=
  match m3 with
  | Z0 => S754_zero sx
  | Zpos m => if e3 <=? 971 then S754_finite sx m e3 else S754_infinity sx
  | Zneg _ => S754_nan
  end.

(** [n * 2^e] and [m * 2^e'] are the same number. *)
Definition same_value (n : positive) (e : Z) (m : positive) (e' : Z) : Prop :=
  Zpos n * 2 ^ (e - Z.min e e') = Zpos m * 2 ^ (e' - Z.min e e').

(** The value of a non-negative finite float, in units of 2^-1074. *)
Definition sv (x : float64) : Z :=
  match x with
  | S754_finite false m e => Zpos m * 2 ^ (e + 1074)
  | _ => 0
  end.

Definition nonneg_valid (x : float64) : Prop :=
  match x with
  | S754_zero _ => True
  | S754_finite false m e => bounded F64.prec F64.emax m e = true
  | _ => False
  end.

(** The integer nearest to a non-negative finite float, halves upward:
    the floor of [m * 2^e + 1/2]. *)
Definition half_up (x : float64) : Z :=
  match x with
  | S754_finite false m e =>
      if 0 <=? e then Zpos m * 2 ^ e else (Zpos m + 2 ^ (- e - 1)) / 2 ^ (- e)
  | _ => 0
  end.

(** ** Reading the trace and the map *)

(** The sum of the eight counters, as a number. *)
Definition plain_sum (t : CpuTimes.t) : Z :=
  CpuTimes.User t + CpuTimes.Nice t + CpuTimes.System t + CpuTimes.Idle t
  + CpuTimes.IOWait t + CpuTimes.Irq t + CpuTimes.SoftIrq t + CpuTimes.Steal t.

Definition is_send (e : Effect) : bool :=
  match e with Send _ _ => true | _ => false end.

(** The two calls that open an iteration of [Run]: the sleep and the load
    query. *)
Definition is_pacing (e : Effect) : bool :=
  match e with Call (CallSleep _) | Call CallGetSystemLoad => true | _ => false end.

(** Every entry of the map is stored under the pid it carries. *)
Definition keyed (m : ProcsMap) : Prop :=
  forall k p, m !! k = Some p -> Process.Pid p = k.

(** The event that [exportProcStats] builds from a snapshot. *)
Definition proc_event (now : Time) (p : Process.t) : Event :=
  ProcEvent now (Process.Pid p) (Process.Ppid p) (Process.Name p) (Process.State p)
    (Process.Mem p) (Process.Cpu p).

(** A proc event sent on the channel [ch]. *)
Definition proc_send_on (ch : Chan) (e : Effect) : Prop :=
  exists ev, e = Send ch ev /\ is_proc_event ev = true.

(** An operating system for closed examples whose process enumeration
    fails after reading the table: [Pids] returns the pids with an error;
    the other queries are those of [TableOS]. *)
Module FailingOS.

Definition os : Sigar :=
  {| World := TableOS.world;
     Pids := fun w =>
       ((List.map Process.Pid (TableOS.table w), Some "permission denied"%string), w);
     GetProcess := fun pid w => (TableOS.lookup pid w, w);
     GetMemory := fun w => (TableOS.memory w, w);
     GetSwap := fun w => (TableOS.memory w, w);
     GetCpuTimes := fun w => (TableOS.cpu w, w);
     GetSystemLoad := fun w =>
       (inl (SystemLoad.mk F64.zero F64.zero F64.zero), w);
     time_Now := fun w => (TableOS.clock w, w);
     time_Sleep := fun d w =>
       TableOS.mk (TableOS.clock w + d) (TableOS.table w) (TableOS.memory w)
         (TableOS.cpu w) |}.

End FailingOS.

(** (End of the definitions.) *)

(** * Properties *)

Ltac run_monad :=
  unfold mbind, M_bind, mret, M_ret, bind, ret, syscall, emit, logp_Warn,
    logp_Debug, send in *; simpl in *.

Ltac break_call :=
  match goal with
  | |- context [let '(_, _) := ?f ?w in _] =>
      let a := fresh "a" in let w' := fresh "w" in let E := fresh "E" in
      destruct (f w) as [a w'] eqn:E; simpl
  | |- context [match ?x with inl _ => _ | inr _ => _ end] => destruct x; simpl
  | |- context [match ?x with Some _ => _ | None => _ end] => destruct x; simpl
  end.

Ltac trace_ext :=
  simpl; repeat rewrite <- app_assoc; simpl;
  eexists; split; [reflexivity | repeat constructor].

(** ** The matcher *)

Section Matcher.

Context `{re : RegexpLib}.

Lemma MatchProcess_range_true (regs : list string) (name : string) :
  MatchProcess_range regs name = true <->
  exists reg, In reg regs /\ fst (regexp_MatchString reg name) = true.
Proof.
  induction regs as [|reg regs IH]; simpl.
  - split; [discriminate | intros (r & [] & _)].
  - destruct (regexp_MatchString reg name) as [matched err] eqn:E.
    destruct matched.
    + split; [intros _ | reflexivity].
      exists reg. rewrite E. auto.
    + rewrite IH. split.
      * intros (r & Hin & Hr). exists r. auto.
      * intros (r & [-> | Hin] & Hr).
        -- rewrite E in Hr. discriminate.
        -- exists r. auto.
Qed.

Lemma MatchProcess_range_perm (l l' : list string) (name : string) :
  Permutation l l' -> MatchProcess_range l name = MatchProcess_range l' name.
Proof.
  intros HP.
  destruct (MatchProcess_range l name) eqn:E1, (MatchProcess_range l' name) eqn:E2;
    try reflexivity.
  - rewrite <- E2. symmetry. apply MatchProcess_range_true.
    apply MatchProcess_range_true in E1 as (r & Hin & Hr).
    exists r. split; [eapply Permutation_in; eauto | exact Hr].
  - rewrite <- E1. apply MatchProcess_range_true.
    apply MatchProcess_range_true in E2 as (r & Hin & Hr).
    exists r. split; [eapply Permutation_in; [symmetry|]; eauto | exact Hr].
Qed.

Lemma MatchProcess_range_app (l1 l2 : list string) (name : string) :
  MatchProcess_range (l1 ++ l2) name =
  MatchProcess_range l1 name || MatchProcess_range l2 name.
Proof.
  induction l1 as [|reg l1 IH]; simpl; [reflexivity|].
  destruct (regexp_MatchString reg name) as [[] err]; auto.
Qed.

Lemma MatchString_invalid (reg name : string) (err : error) :
  regexp_Compile reg = inr err -> regexp_MatchString reg name = (false, Some err).
Proof. unfold regexp_MatchString. intros ->. reflexivity. Qed.

End Matcher.

Lemma RE2_dot_star_matches_all (name : string) :
  @regexp_MatchString RE2.lib ".*" name = (true, None).
Proof.
  unfold regexp_MatchString. simpl. unfold RE2.MatchString.
  destruct (list_ascii_of_string name); reflexivity.
Qed.

(** C8. [MatchProcess] answers true exactly when the library's unanchored
    [regexp.MatchString] reports a match for at least one configured
    pattern, whatever the library; permuting the pattern list does not
    change the answer; with the single pattern [.*] every name matches, and
    with [^nginx$] the name [nginx] matches while [nginx-worker] does not
    (it does match the unanchored pattern [nginx]). *)
Theorem MatchProcess_some_pattern :
  (forall (re : RegexpLib) (t : Topbeat) (name : string),
      MatchProcess t name = true <->
      exists reg, In reg (procs t) /\ fst (regexp_MatchString reg name) = true) /\
  (forall (re : RegexpLib) (t t' : Topbeat) (name : string),
      Permutation (procs t) (procs t') ->
      MatchProcess t name = MatchProcess t' name) /\
  (forall name : string,
      @MatchProcess RE2.lib (Examples.tracker [".*"%string] ∅ None) name = true) /\
  @MatchProcess RE2.lib (Examples.tracker ["^nginx$"%string] ∅ None) "nginx" = true /\
  @MatchProcess RE2.lib (Examples.tracker ["^nginx$"%string] ∅ None) "nginx-worker" = false /\
  @MatchProcess RE2.lib (Examples.tracker ["nginx"%string] ∅ None) "nginx-worker" = true.
Proof.
  split; [|split; [|split; [|repeat split]]].
  - intros re t name. apply MatchProcess_range_true.
  - intros re t t' name HP. apply MatchProcess_range_perm, HP.
  - intros name. unfold MatchProcess, Examples.tracker, procs.
    cbn [MatchProcess_range]. rewrite RE2_dot_star_matches_all. reflexivity.
Qed.

Lemma MatchProcess_some_pattern_witness :
  @MatchProcess RE2.lib (Examples.tracker ["^nginx$"; "bash"]%string ∅ None) "bash" =
  @MatchProcess RE2.lib (Examples.tracker ["bash"; "^nginx$"]%string ∅ None) "bash".
Proof.
  apply (proj1 (proj2 MatchProcess_some_pattern)). simpl. apply perm_swap.
Defined.

(** C9. A pattern that does not compile is treated as matching no name: the
    error of [regexp.MatchString] is dropped and its result is false, so the
    answer of [MatchProcess] (always a boolean, never an error) is the one
    the list without that pattern gives; a list made of that pattern alone
    matches nothing. *)
Theorem MatchProcess_invalid_pattern (re : RegexpLib) (t : Topbeat)
    (reg name : string) (err : error) :
  regexp_Compile reg = inr err ->
  regexp_MatchString reg name = (false, Some err) /\
  (forall l1 l2, procs t = l1 ++ reg :: l2 ->
     MatchProcess t name = MatchProcess (set_procs (l1 ++ l2) t) name) /\
  (procs t = [reg] -> MatchProcess t name = false).
Proof.
  intros Hc. pose proof (MatchString_invalid reg name err Hc) as Hm.
  split; [exact Hm|]. unfold MatchProcess. split.
  - intros l1 l2 ->. simpl. rewrite !MatchProcess_range_app. simpl.
    rewrite Hm. reflexivity.
  - intros ->. simpl. rewrite Hm. reflexivity.
Qed.

Lemma MatchProcess_invalid_pattern_witness :
  @regexp_MatchString RE2.lib "(nginx" "nginx" = (false, Some "error parsing regexp: (nginx"%string) /\
  (forall l1 l2, ["bash"; "(nginx"]%string = l1 ++ "(nginx"%string :: l2 ->
     @MatchProcess RE2.lib (Examples.tracker ["bash"; "(nginx"]%string ∅ None) "nginx" =
     @MatchProcess RE2.lib
       (set_procs (l1 ++ l2) (Examples.tracker ["bash"; "(nginx"]%string ∅ None)) "nginx") /\
  (["bash"; "(nginx"]%string = ["(nginx"%string] ->
     @MatchProcess RE2.lib (Examples.tracker ["bash"; "(nginx"]%string ∅ None) "nginx" = false).
Proof.
  apply (MatchProcess_invalid_pattern RE2.lib
           (Examples.tracker ["bash"; "(nginx"]%string ∅ None) "(nginx" "nginx"
           "error parsing regexp: (nginx").
  reflexivity.
Defined.

(** ** Frame lemmas for the sampling loop *)

Lemma getCpuPercentage_snd (t : Topbeat) (c : CpuTimes.t) :
  snd (getCpuPercentage t c) = set_lastCpuTimes (Some c) t.
Proof. reflexivity. Qed.

Opaque getCpuPercentage getUsedMemPercent.

Section Frame.
Context `{re : RegexpLib} `{os : Sigar}.

Lemma extends_refl s : extends s s.
Proof. exists []. rewrite app_nil_r. auto. Qed.

Lemma extends_trans s1 s2 s3 : extends s1 s2 -> extends s2 s3 -> extends s1 s3.
Proof.
  intros (n1 & E1 & F1) (n2 & E2 & F2). exists (n1 ++ n2).
  rewrite E2, E1, app_assoc. split; [reflexivity | apply Forall_app; auto].
Qed.

Lemma exportSystemStats_quiet (t : Topbeat) (s : Sys) :
  procsMap (snd (fst (exportSystemStats t s))) = procsMap t /\
  procs (snd (fst (exportSystemStats t s))) = procs t /\
  extends s (snd (exportSystemStats t s)).
Proof.
  unfold exportSystemStats, extends. run_monad.
  repeat break_call;
    repeat match goal with
    | E : getCpuPercentage _ _ = _ |- _ =>
        apply (f_equal snd) in E; rewrite getCpuPercentage_snd in E; simpl in E; subst
    end;
    (split; [reflexivity | split; [reflexivity | trace_ext]]).
Qed.

Lemma initProcStats_no_patterns (t : Topbeat) (s : Sys) :
  procs t = [] -> initProcStats t s = (set_procsMap ∅ t, s).
Proof. unfold initProcStats. simpl. intros ->. reflexivity. Qed.

Lemma exportProcStats_no_patterns (t : Topbeat) (s : Sys) :
  procs t = [] -> exportProcStats t s = ((None, t), s).
Proof. unfold exportProcStats. intros ->. reflexivity. Qed.

Lemma tick_no_patterns (t : Topbeat) (s : Sys) :
  procs t = [] ->
  procsMap (fst (tick t s)) = procsMap t /\ procs (fst (tick t s)) = [] /\
  extends s (snd (tick t s)).
Proof.
  intros Hp. unfold tick. run_monad.
  set (s1 := mkSys _ _).
  destruct (exportSystemStats_quiet t s1) as (Hm & Hps & Hext).
  destruct (exportSystemStats t s1) as [[e t1] s2]. simpl in *.
  rewrite exportProcStats_no_patterns by congruence. simpl.
  split; [exact Hm | split; [congruence|]].
  eapply extends_trans; [|exact Hext].
  exists [Call (CallSleep (period t))]. split; [reflexivity | repeat constructor].
Qed.

Lemma Run_loop_no_patterns (n : nat) (t : Topbeat) (s : Sys) :
  procs t = [] ->
  procsMap (fst (Run_loop n t s)) = procsMap t /\ extends s (snd (Run_loop n t s)).
Proof.
  revert t s. induction n as [|n IH]; intros t s Hp; simpl.
  - split; [reflexivity | apply extends_refl].
  - run_monad. destruct (tick_no_patterns t s Hp) as (Hm & Hps & Hext).
    destruct (tick t s) as [t1 s1]. simpl in *.
    destruct (IH t1 s1 Hps) as (Hm' & Hext').
    split; [congruence | eapply extends_trans; eauto].
Qed.

Lemma Init_procs (t0 : Topbeat) (config : TopConfig.t) (ch : Chan) (s : Sys) :
  procs (snd (fst (Init t0 config ch s))) =
    match TopConfig.Procs config with Some l => l | None => [".*"%string] end /\
  procsMap (snd (fst (Init t0 config ch s))) = procsMap t0 /\
  fst (fst (Init t0 config ch s)) = None /\
  extends s (snd (Init t0 config ch s)).
Proof.
  unfold Init, extends. run_monad.
  destruct (TopConfig.Period config), (TopConfig.Procs config); simpl;
    (split; [reflexivity | split; [reflexivity | split; [reflexivity | trace_ext]]]).
Qed.

Lemma exportProcStats_body_matched (pid : Z) (t : Topbeat) (s : Sys)
    (process : Process.t) (w : World) :
  GetProcess pid (world s) = (inl process, w) ->
  MatchProcess t (Process.Name process) = true ->
  exists rss_p,
    procsMap (fst (exportProcStats_body pid t s)) =
      <[Process.Pid process :=
          filled (fst (getProcCpuPercentage t process)) rss_p process]> (procsMap t) /\
    procs (fst (exportProcStats_body pid t s)) = procs t.
Proof.
  intros HG HM. unfold exportProcStats_body. run_monad. rewrite HG. simpl.
  rewrite HM. unfold getProcCpuPercentage.
  destruct (procsMap t !! Process.Pid process) as [oproc|] eqn:L; simpl;
    unfold getRssPercent; run_monad;
    repeat break_call; eexists; (split; [|reflexivity]);
    unfold filled; simpl; rewrite ?insert_insert_eq; reflexivity.
Qed.

Lemma exportProcStats_body_filtered (pid : Z) (t : Topbeat) (s : Sys)
    (process : Process.t) (w : World) :
  GetProcess pid (world s) = (inl process, w) ->
  MatchProcess t (Process.Name process) = false ->
  fst (exportProcStats_body pid t s) = t.
Proof.
  intros HG HM. unfold exportProcStats_body. run_monad. rewrite HG. simpl.
  rewrite HM. reflexivity.
Qed.

Lemma exportProcStats_body_inv (pid : Z) (t : Topbeat) (s : Sys) :
  procs (fst (exportProcStats_body pid t s)) = procs t /\
  forall k p, procsMap (fst (exportProcStats_body pid t s)) !! k = Some p ->
    procsMap t !! k = Some p \/
    (MatchProcess t (Process.Name p) = true /\ Process.Pid p = k).
Proof.
  destruct (GetProcess pid (world s)) as [[process|err] w] eqn:HG.
  - destruct (MatchProcess t (Process.Name process)) eqn:HM.
    + destruct (exportProcStats_body_matched pid t s process w HG HM)
        as (rss_p & -> & ->).
      split; [reflexivity|]. intros k p.
      destruct (decide (Process.Pid process = k)) as [<-|Hne].
      * rewrite lookup_insert_eq. intros [= <-]. right. auto.
      * rewrite lookup_insert_ne by exact Hne. auto.
    + rewrite (exportProcStats_body_filtered pid t s process w HG HM). auto.
  - unfold exportProcStats_body. run_monad. rewrite HG. simpl. auto.
Qed.

Lemma for_range_exportProcStats_inv (pids : list Z) (t : Topbeat) (s : Sys) :
  procs (fst (for_range pids exportProcStats_body t s)) = procs t /\
  forall k p,
    procsMap (fst (for_range pids exportProcStats_body t s)) !! k = Some p ->
    procsMap t !! k = Some p \/
    (MatchProcess t (Process.Name p) = true /\ Process.Pid p = k).
Proof.
  revert t s. induction pids as [|pid pids IH]; intros t s; simpl.
  - auto.
  - run_monad. destruct (exportProcStats_body_inv pid t s) as (Hp & Hm).
    destruct (exportProcStats_body pid t s) as [t1 s1]. simpl in *.
    destruct (IH t1 s1) as (Hp' & Hm'). split; [congruence|].
    intros k p Hk. destruct (Hm' k p Hk) as [Hold | [HM <-]].
    + apply Hm, Hold.
    + right. split; [|reflexivity]. unfold MatchProcess in *. congruence.
Qed.

Lemma exportProcStats_inv (t : Topbeat) (s : Sys) (k : Z) (p : Process.t) :
  procsMap (snd (fst (exportProcStats t s))) !! k = Some p ->
  procsMap t !! k = Some p \/
  (MatchProcess t (Process.Name p) = true /\ Process.Pid p = k).
Proof.
  unfold exportProcStats. destruct (length (procs t) =? 0)%nat; simpl; auto.
  run_monad. destruct (Pids (world s)) as [[pids [e|]] w]; simpl; auto.
  set (s1 := mkSys _ _).
  pose proof (for_range_exportProcStats_inv pids t s1) as (_ & H).
  destruct (for_range pids exportProcStats_body t s1) as [t1 s2]. simpl in *.
  apply H.
Qed.
Lemma for_range_app {A : Type} (l1 l2 : list A) (body : A -> Topbeat -> M Topbeat)
    (t : Topbeat) (s : Sys) :
  for_range (l1 ++ l2) body t s =
  let '(t1, s1) := for_range l1 body t s in for_range l2 body t1 s1.
Proof.
  revert t s. induction l1 as [|x l1 IH]; intros t s; simpl.
  - reflexivity.
  - unfold mbind, M_bind, bind. destruct (body x t s) as [t1 s1]. apply IH.
Qed.

Lemma exportProcStats_body_failed (pid : Z) (t : Topbeat) (s : Sys) (err : error)
    (w : World) :
  GetProcess pid (world s) = (inr err, w) -> fst (exportProcStats_body pid t s) = t.
Proof.
  intros HG. unfold exportProcStats_body. run_monad. rewrite HG. reflexivity.
Qed.

Lemma getProcCpuPercentage_fst_lookup (t t' : Topbeat) (proc : Process.t) :
  procsMap t' !! Process.Pid proc = procsMap t !! Process.Pid proc ->
  fst (getProcCpuPercentage t' proc) = fst (getProcCpuPercentage t proc).
Proof.
  intros H. unfold getProcCpuPercentage. rewrite H.
  destruct (procsMap t !! Process.Pid proc); reflexivity.
Qed.

(** The process table answers under the pid it is asked for. *)
Section AnsweredPid.
Hypothesis Hpid : forall pid w process w',
  GetProcess pid w = (inl process, w') -> Process.Pid process = pid.

Lemma exportProcStats_body_other (pid : Z) (t : Topbeat) (s : Sys) (k : Z) :
  k <> pid ->
  procsMap (fst (exportProcStats_body pid t s)) !! k = procsMap t !! k.
Proof.
  intros Hk. destruct (GetProcess pid (world s)) as [[process|err] w] eqn:HG.
  - destruct (MatchProcess t (Process.Name process)) eqn:HM.
    + destruct (exportProcStats_body_matched pid t s process w HG HM) as (rss_p & -> & _).
      rewrite (Hpid _ _ _ _ HG). apply lookup_insert_ne. congruence.
    + rewrite (exportProcStats_body_filtered pid t s process w HG HM). reflexivity.
  - rewrite (exportProcStats_body_failed pid t s err w HG). reflexivity.
Qed.

Lemma for_range_exportProcStats_other (pids : list Z) (t : Topbeat) (s : Sys) (k : Z) :
  ~ In k pids ->
  procsMap (fst (for_range pids exportProcStats_body t s)) !! k = procsMap t !! k.
Proof.
  revert t s. induction pids as [|pid pids IH]; intros t s Hk; simpl.
  - reflexivity.
  - unfold mbind, M_bind, bind.
    pose proof (exportProcStats_body_other pid t s k) as B.
    destruct (exportProcStats_body pid t s) as [t1 s1]. simpl in *.
    rewrite IH by tauto. apply B. intros ->. tauto.
Qed.

Lemma exportProcStats_tick (t : Topbeat) (s : Sys) (pids1 : list Z) (pid : Z)
    (pids2 : list Z) (w : World) :
  (0 < length (procs t))%nat ->
  Pids (world s) = ((pids1 ++ pid :: pids2, None), w) ->
  List.NoDup (pids1 ++ pid :: pids2) ->
  let r1 := for_range pids1 exportProcStats_body t (mkSys w (trace s ++ [Call CallPids])) in
  let m' := procsMap (snd (fst (exportProcStats t s))) in
  match fst (GetProcess pid (world (snd r1))) with
  | inl process =>
      if MatchProcess t (Process.Name process)
      then exists rss_p,
             m' !! pid =
             Some (filled (fst (getProcCpuPercentage t process)) rss_p process)
      else m' !! pid = procsMap t !! pid
  | inr _ => m' !! pid = procsMap t !! pid
  end.
Proof.
  intros Hp HP Hnd. cbv zeta.
  apply NoDup_remove in Hnd as [_ Hnotin].
  assert (Hn1 : ~ In pid pids1) by (intros H; apply Hnotin, in_or_app; auto).
  assert (Hn2 : ~ In pid pids2) by (intros H; apply Hnotin, in_or_app; auto).
  unfold exportProcStats.
  destruct (procs t) as [|reg regs] eqn:Ep; [simpl in Hp; lia|].
  cbn [length Nat.eqb]. unfold mbind, M_bind, bind, syscall. rewrite HP. cbv zeta.
  set (s0 := mkSys _ _).
  rewrite for_range_app.
  pose proof (for_range_exportProcStats_other pids1 t s0 pid Hn1) as L1.
  pose proof (for_range_exportProcStats_inv pids1 t s0) as (P1 & _).
  destruct (for_range pids1 exportProcStats_body t s0) as [t1 s1]. cbn [fst snd] in *.
  simpl for_range. unfold mbind, M_bind, bind.
  assert (HMeq : forall name, MatchProcess t1 name = MatchProcess t name).
  { intros name. unfold MatchProcess. rewrite P1. reflexivity. }
  destruct (GetProcess pid (world s1)) as [[process|err] w1] eqn:HG; cbn [fst].
  - destruct (MatchProcess t (Process.Name process)) eqn:HM.
    + rewrite <- HMeq in HM.
      destruct (exportProcStats_body_matched pid t1 s1 process w1 HG HM) as (rss_p & B & _).
      pose proof (Hpid _ _ _ _ HG) as Epid.
      destruct (exportProcStats_body pid t1 s1) as [t2 s2]. cbn [fst snd] in *.
      pose proof (for_range_exportProcStats_other pids2 t2 s2 pid Hn2) as L2.
      destruct (for_range pids2 exportProcStats_body t2 s2) as [t3 s3].
      cbn [fst snd ret] in *. exists rss_p. rewrite L2, B, Epid, lookup_insert_eq.
      rewrite (getProcCpuPercentage_fst_lookup t t1 process) by (rewrite Epid; exact L1).
      reflexivity.
    + rewrite <- HMeq in HM.
      pose proof (exportProcStats_body_filtered pid t1 s1 process w1 HG HM) as B.
      destruct (exportProcStats_body pid t1 s1) as [t2 s2]. cbn [fst snd] in *. subst t2.
      pose proof (for_range_exportProcStats_other pids2 t1 s2 pid Hn2) as L2.
      destruct (for_range pids2 exportProcStats_body t1 s2) as [t3 s3].
      cbn [fst snd ret] in *. congruence.
  - pose proof (exportProcStats_body_failed pid t1 s1 err w1 HG) as B.
    destruct (exportProcStats_body pid t1 s1) as [t2 s2]. cbn [fst snd] in *. subst t2.
    pose proof (for_range_exportProcStats_other pids2 t1 s2 pid Hn2) as L2.
    destruct (for_range pids2 exportProcStats_body t1 s2) as [t3 s3].
    cbn [fst snd ret] in *. congruence.
Qed.

Lemma exportProcStats_unlisted (t : Topbeat) (s : Sys) (k : Z) :
  ~ In k (fst (fst (Pids (world s)))) ->
  procsMap (snd (fst (exportProcStats t s))) !! k = procsMap t !! k.
Proof.
  intros Hk. unfold exportProcStats. destruct (length (procs t) =? 0)%nat; [reflexivity|].
  unfold mbind, M_bind, bind, syscall.
  destruct (Pids (world s)) as [[pids [e|]] w]; cbv zeta; [reflexivity|].
  set (s0 := mkSys _ _).
  pose proof (for_range_exportProcStats_other pids t s0 k Hk) as L.
  destruct (for_range pids exportProcStats_body t s0) as [t1 s1]. exact L.
Qed.

End AnsweredPid.
End Frame.

Transparent getCpuPercentage getUsedMemPercent.


(** ** An empty pattern list *)

(** C10. When the configuration gives the empty pattern list, [Init] keeps
    it (an absent list becomes the single pattern [.*]); [initProcStats]
    only resets the map and [exportProcStats] returns nil, both without any
    external call or effect; and after any number of iterations of [Run] the
    map is empty and nothing that happened since [Init] began is a process
    enumeration or the sending of a proc event. *)
Theorem no_patterns_no_enumeration `{re : RegexpLib} `{os : Sigar}
    (t0 : Topbeat) (p : option Z) (ch : Chan) (s0 : Sys) (n : nat) :
  let i := Init t0 (TopConfig.mk p (Some [])) ch s0 in
  let r := Run n (snd (fst i)) (snd i) in
  procs (snd (fst i)) = [] /\
  procs (snd (fst (Init t0 (TopConfig.mk p None) ch s0))) = [".*"%string] /\
  (forall t s, initProcStats (set_procs [] t) s = (set_procsMap ∅ (set_procs [] t), s)) /\
  (forall t s, exportProcStats (set_procs [] t) s = ((None, set_procs [] t), s)) /\
  fst (fst r) = None /\
  procsMap (snd (fst r)) = ∅ /\
  extends s0 (snd r).
Proof.
  intros i r.
  destruct (Init_procs t0 (TopConfig.mk p (Some [])) ch s0) as (Hp & _ & _ & Hext).
  destruct (Init_procs t0 (TopConfig.mk p None) ch s0) as (Hp' & _).
  fold i in Hp, Hext. simpl in Hp, Hp'.
  split; [exact Hp | split; [exact Hp' |]].
  split; [intros t s; apply initProcStats_no_patterns; reflexivity |].
  split; [intros t s; apply exportProcStats_no_patterns; reflexivity |].
  subst r. unfold Run. unfold mbind, M_bind, bind, ret.
  rewrite initProcStats_no_patterns by exact Hp.
  destruct (Run_loop_no_patterns n (set_procsMap ∅ (set_isAlive true (snd (fst i))))
              (snd i) Hp) as (Hm & Hext').
  destruct (Run_loop n _ (snd i)) as [t2 s2]. simpl in *.
  split; [reflexivity | split; [exact Hm |]].
  eapply extends_trans; eauto.
Qed.

(** ** Baselines of the process tracker *)

Lemma TableOS_lookup_pid (pid : Z) (w : TableOS.world) (process : Process.t)
    (w' : TableOS.world) :
  @GetProcess TableOS.os pid w = (inl process, w') -> Process.Pid process = pid.
Proof.
  simpl. unfold TableOS.lookup. intros H.
  destruct (List.find (fun p => Process.Pid p =? pid) (TableOS.table w)) as [p|] eqn:F;
    [|discriminate].
  apply find_some in F as [_ F]. apply Z.eqb_eq in F.
  injection H as <- _. exact F.
Qed.




(** C2, as amended. For a pid without baseline, [getProcCpuPercentage]
    returns 0 and leaves the receiver as it is; the snapshot becomes the
    baseline in the caller: after the iteration of [exportProcStats] on a
    matched process the map holds the snapshot, with CPU percentage 0. *)
Theorem getProcCpuPercentage_no_baseline `{re : RegexpLib} `{os : Sigar}
    (t : Topbeat) (proc : Process.t) :
  procsMap t !! Process.Pid proc = None ->
  getProcCpuPercentage t proc = (F64.zero, t) /\
  (forall pid s w,
      GetProcess pid (world s) = (inl proc, w) ->
      MatchProcess t (Process.Name proc) = true ->
      exists rss_p,
        procsMap (fst (exportProcStats_body pid t s)) !! Process.Pid proc =
        Some (filled F64.zero rss_p proc)).
Proof.
  intros Hnone.
  assert (Hg : getProcCpuPercentage t proc = (F64.zero, t)).
  { unfold getProcCpuPercentage. rewrite Hnone. reflexivity. }
  split; [exact Hg|]. intros pid s w HG HM.
  destruct (exportProcStats_body_matched pid t s proc w HG HM) as (rss_p & Hmap & _).
  exists rss_p. rewrite Hmap, Hg. simpl. apply lookup_insert_eq.
Qed.

Lemma getProcCpuPercentage_no_baseline_witness :
  let t := @Examples.tracker [".*"%string] ∅ None in
  let proc := Examples.proc 7 "nginx" 100 0 0 5000000000 in
  getProcCpuPercentage t proc = (F64.zero, t) /\
  (forall pid s w,
      @GetProcess TableOS.os pid (world s) = (inl proc, w) ->
      @MatchProcess RE2.lib t (Process.Name proc) = true ->
      exists rss_p,
        procsMap (fst (@exportProcStats_body RE2.lib TableOS.os pid t s))
          !! Process.Pid proc = Some (filled F64.zero rss_p proc)).
Proof.
  intros t proc.
  apply (@getProcCpuPercentage_no_baseline RE2.lib TableOS.os t proc).
  reflexivity.
Defined.

(** C2, counterexample. Called for pid 7 on an empty map,
    [getProcCpuPercentage] returns 0 and the map is still empty. *)
Lemma getProcCpuPercentage_does_not_store :
  let t := @Examples.tracker [".*"%string] ∅ None in
  let proc := Examples.proc 7 "nginx" 100 0 0 5000000000 in
  procsMap t !! Process.Pid proc = None /\
  fst (getProcCpuPercentage t proc) = F64.zero /\
  procsMap (snd (getProcCpuPercentage t proc)) !! Process.Pid proc = None /\
  procsMap (snd (getProcCpuPercentage t proc)) !! Process.Pid proc <> Some proc.
Proof. cbv zeta. repeat split. intros H. discriminate H. Qed.

(** ** Division by zero in the percentage functions *)

Lemma of_Z_0 : F64.of_Z 0 = F64.zero.
Proof. reflexivity. Qed.

Lemma sub64_diag (x : Z) : GoInt.sub64 x x = 0.
Proof. unfold GoInt.sub64. rewrite Z.sub_diag. reflexivity. Qed.

Lemma div_zero_not_finite (x : float64) : not_finite (F64.div x F64.zero) = true.
Proof. destruct x as [s|s| |s m e]; reflexivity. Qed.

Lemma mul_100_not_finite (x : float64) :
  not_finite x = true -> not_finite (F64.mul x (F64.of_Z 100)) = true.
Proof. destruct x as [s|s| |s m e]; try discriminate; intros _; reflexivity. Qed.

Lemma Round_not_finite (x : float64) :
  not_finite x = true -> not_finite (Round x F64.half 2) = true.
Proof.
  destruct x as [s|s| |s m e]; try discriminate; intros _.
  - destruct s; vm_compute; reflexivity.
  - vm_compute; reflexivity.
Qed.

Lemma not_finite_nonzero (x : float64) :
  not_finite x = true -> F64.eqb x F64.zero = false.
Proof. destruct x as [[]|[]| |s m e]; try discriminate; reflexivity. Qed.

(** C3. With a baseline stored for the pid and a wall-clock delta of 0 ms,
    [getProcCpuPercentage] divides by zero: the result is NaN or an
    infinity, never 0. *)
Theorem getProcCpuPercentage_zero_wall_delta (t : Topbeat) (proc oproc : Process.t) :
  procsMap t !! Process.Pid proc = Some oproc ->
  GoInt.quot (Nanoseconds (time_Sub (Process.ctime proc) (Process.ctime oproc)))
    1000000 = 0 ->
  not_finite (fst (getProcCpuPercentage t proc)) = true /\
  F64.eqb (fst (getProcCpuPercentage t proc)) F64.zero = false.
Proof.
  intros Hl Hd.
  assert (H : not_finite (fst (getProcCpuPercentage t proc)) = true).
  { unfold getProcCpuPercentage. rewrite Hl. cbn [fst]. rewrite Hd, of_Z_0.
    apply Round_not_finite, mul_100_not_finite, div_zero_not_finite. }
  split; [exact H | apply not_finite_nonzero, H].
Qed.

Lemma getProcCpuPercentage_zero_wall_delta_witness :
  let old := Examples.proc 7 "nginx" 100 0 0 5000000000 in
  let t := @Examples.tracker [".*"%string] {[7 := old]} None in
  let proc := Examples.proc 7 "nginx" 130 0 0 5000400000 in
  not_finite (fst (getProcCpuPercentage t proc)) = true /\
  F64.eqb (fst (getProcCpuPercentage t proc)) F64.zero = false.
Proof.
  intros old t proc.
  apply (getProcCpuPercentage_zero_wall_delta t proc old); reflexivity.
Defined.

Example getProcCpuPercentage_back_to_back :
  let old := Examples.proc 7 "nginx" 100 0 0 5000000000 in
  let t := @Examples.tracker [".*"%string] {[7 := old]} None in
  fst (getProcCpuPercentage t (Examples.proc 7 "nginx" 130 0 0 5000400000)) = F64.pinf /\
  fst (getProcCpuPercentage t (Examples.proc 7 "nginx" 100 0 0 5000400000)) = F64.nan /\
  fst (getProcCpuPercentage t (Examples.proc 7 "nginx" 130 20 0 6000000000)) = F64.of_Z 5.
Proof. cbv zeta. repeat split; vm_compute; reflexivity. Qed.

(** C4. When the counter sums of two consecutive CPU snapshots are equal,
    [getCpuPercentage] divides by zero: the result is NaN or an infinity,
    never 0. *)
Theorem getCpuPercentage_zero_delta (t : Topbeat) (t1 t2 : CpuTimes.t) :
  lastCpuTimes t = Some t1 ->
  sum t2 = sum t1 ->
  not_finite (fst (getCpuPercentage t t2)) = true /\
  F64.eqb (fst (getCpuPercentage t t2)) F64.zero = false.
Proof.
  intros Hl Hs.
  assert (H : not_finite (fst (getCpuPercentage t t2)) = true).
  { unfold getCpuPercentage. rewrite Hl. cbn [fst]. rewrite Hs.
    rewrite sub64_diag, of_Z_0.
    apply Round_not_finite, div_zero_not_finite. }
  split; [exact H | apply not_finite_nonzero, H].
Qed.

Lemma getCpuPercentage_zero_delta_witness :
  let t := @Examples.tracker [] ∅ (Some (Examples.cpu 10 10)) in
  not_finite (fst (getCpuPercentage t (Examples.cpu 10 10))) = true /\
  F64.eqb (fst (getCpuPercentage t (Examples.cpu 10 10))) F64.zero = false.
Proof.
  intros t.
  apply (getCpuPercentage_zero_delta t (Examples.cpu 10 10) (Examples.cpu 10 10));
    reflexivity.
Defined.

Example getCpuPercentage_same_snapshot :
  fst (getCpuPercentage (@Examples.tracker [] ∅ (Some (Examples.cpu 10 10)))
         (Examples.cpu 10 10)) = F64.nan /\
  fst (getCpuPercentage (@Examples.tracker [] ∅ (Some (Examples.cpu 10 10)))
         (Examples.cpu 11 9)) = F64.pinf.
Proof. split; vm_compute; reflexivity. Qed.

(** The guard that [getUsedMemPercent] has. *)
Lemma getUsedMemPercent_zero_total (t : Topbeat) (m : MemStat.t) :
  MemStat.Total m = 0 -> getUsedMemPercent t m = F64.zero.
Proof. unfold getUsedMemPercent. intros ->. reflexivity. Qed.

(** C5. When [GetMemory] succeeds with a total of 0, [getRssPercent]
    divides by zero: the result is NaN or an infinity, never 0, and no
    warning is logged (the only effect is the call itself). *)
Theorem getRssPercent_zero_total `{os : Sigar} (t : Topbeat) (m : ProcMemStat.t)
    (s : Sys) (mem_stat : MemStat.t) (w : World) :
  GetMemory (world s) = (inl mem_stat, w) ->
  MemStat.Total mem_stat = 0 ->
  not_finite (fst (getRssPercent t m s)) = true /\
  F64.eqb (fst (getRssPercent t m s)) F64.zero = false /\
  snd (getRssPercent t m s) = mkSys w (trace s ++ [Call CallGetMemory]).
Proof.
  intros HG Ht.
  assert (H : not_finite (fst (getRssPercent t m s)) = true /\
              snd (getRssPercent t m s) = mkSys w (trace s ++ [Call CallGetMemory])).
  { unfold getRssPercent. unfold mbind, M_bind, bind, syscall, ret. rewrite HG.
    cbn [fst snd]. rewrite Ht, of_Z_0. split; [|reflexivity].
    apply Round_not_finite, mul_100_not_finite, div_zero_not_finite. }
  destruct H as [H1 H2].
  split; [exact H1 | split; [apply not_finite_nonzero, H1 | exact H2]].
Qed.

Lemma getRssPercent_zero_total_witness :
  let t := @Examples.tracker [] ∅ None in
  let m := ProcMemStat.mk 0 2000000 F64.zero 0 in
  let s := Examples.sys0 0 [] 0 in
  not_finite (fst (getRssPercent t m s)) = true /\
  F64.eqb (fst (getRssPercent t m s)) F64.zero = false /\
  snd (getRssPercent t m s) = mkSys (world s) (trace s ++ [Call CallGetMemory]).
Proof.
  intros t m s.
  apply (@getRssPercent_zero_total TableOS.os t m s (Examples.mem 0) (world s));
    reflexivity.
Defined.

(** The other two cases of [getRssPercent]: the query fails (0 and one
    warning), and the example with a total of 10000000 bytes. *)
Lemma getRssPercent_unavailable `{os : Sigar} (t : Topbeat) (m : ProcMemStat.t)
    (s : Sys) (err : error) (w : World) :
  GetMemory (world s) = (inr err, w) ->
  getRssPercent t m s =
  (F64.zero,
   mkSys w (trace s ++ [Call CallGetMemory]
              ++ [Warn "Getting memory details: %v" [ArgErr err]])).
Proof.
  intros HG. unfold getRssPercent. run_monad. rewrite HG. simpl.
  rewrite <- app_assoc. reflexivity.
Qed.

Example getRssPercent_examples :
  let t := @Examples.tracker [] ∅ None in
  fst (getRssPercent t (ProcMemStat.mk 0 2000000 F64.zero 0)
         (Examples.sys0 0 [] 10000000)) = F64.of_Z 20 /\
  fst (getRssPercent t (ProcMemStat.mk 0 2000000 F64.zero 0)
         (Examples.sys0 0 [] 0)) = F64.pinf /\
  fst (getRssPercent t (ProcMemStat.mk 0 0 F64.zero 0)
         (Examples.sys0 0 [] 0)) = F64.nan.
Proof. cbv zeta. repeat split; vm_compute; reflexivity. Qed.

(** ** binary64: digits, shifts and rounding *)

Lemma digits2_size (p : positive) : digits2_pos p = Pos.size p.
Proof. induction p; simpl; congruence. Qed.

Lemma digits_bounds (p : positive) :
  2 ^ (Zpos (digits2_pos p) - 1) <= Zpos p < 2 ^ Zpos (digits2_pos p).
Proof.
  rewrite digits2_size. split.
  - pose proof (Pos.size_le p) as H.
    assert (Hs : Zpos (Pos.size p) = Z.succ (Zpos (Pos.size p) - 1)) by lia.
    assert (2 ^ Zpos (Pos.size p) <= 2 * Zpos p).
    { change (2 * Zpos p) with (Zpos p~0). rewrite <- Pos2Z.inj_pow. apply Pos2Z.pos_le_pos, H. }
    rewrite Hs, Z.pow_succ_r in H0 by lia. lia.
  - pose proof (Pos.size_gt p) as H. rewrite <- Pos2Z.inj_pow. apply Pos2Z.pos_lt_pos, H.
Qed.

Lemma digits_unique (p : positive) (d : Z) :
  2 ^ (d - 1) <= Zpos p < 2 ^ d -> Zpos (digits2_pos p) = d.
Proof.
  intros [H1 H2]. pose proof (digits_bounds p) as [H3 H4].
  assert (0 < d). { destruct (Z.lt_trichotomy d 0) as [|[|]]; auto;
    [rewrite Z.pow_neg_r in H2 by lia; lia | subst; simpl in H2; lia]. }
  destruct (Z.lt_trichotomy (Zpos (digits2_pos p)) d) as [Hlt | [Heq | Hgt]]; auto; exfalso.
  - assert (2 ^ Zpos (digits2_pos p) <= 2 ^ (d - 1)) by (apply Z.pow_le_mono_r; lia). lia.
  - assert (2 ^ d <= 2 ^ (Zpos (digits2_pos p) - 1)) by (apply Z.pow_le_mono_r; lia). lia.
Qed.

Lemma fexp_eq (z : Z) : fexp F64.prec F64.emax z = fexp64 z.
Proof. reflexivity. Qed.

Lemma iter_xO_pow (m d : positive) : Zpos (Pos.iter xO m d) = Zpos m * 2 ^ Zpos d.
Proof.
  induction d as [|d IH] using Pos.peano_ind.
  - simpl. lia.
  - rewrite Pos.iter_succ, Pos2Z.inj_xO, IH, Pos2Z.inj_succ, Z.pow_succ_r by lia. lia.
Qed.

Lemma shl_align_spec (mx : positive) (ex ex' : Z) :
  let '(mz, ez) := shl_align mx ex ex' in
  ez = Z.min ex ex' /\ Zpos mz = Zpos mx * 2 ^ (ex - ez).
Proof.
  unfold shl_align. destruct (ex' - ex) as [|d|d] eqn:E.
  - replace (Z.min ex ex') with ex by lia. rewrite Z.sub_diag. simpl. lia.
  - replace (Z.min ex ex') with ex by lia. rewrite Z.sub_diag. simpl. lia.
  - replace (Z.min ex ex') with ex' by lia. split; [reflexivity|].
    rewrite iter_xO_pow. f_equal. f_equal. lia.
Qed.

Lemma shr_1_shifted (a : shr_record) : 0 <= shr_m a -> shifted 1 a (shr_1 a).
Proof.
  destruct a as [m r s]. simpl. intros Hm. unfold shifted, inexact. simpl.
  change (2 ^ 1) with 2.
  destruct m as [|[p|p|]|p]; try lia; simpl shr_m; simpl shr_r; simpl shr_s.
  - split; [reflexivity|]. destruct r, s; reflexivity.
  - split; [rewrite Pos2Z.inj_xI; apply Z.div_unique with 1; lia|].
    replace (Zpos p~1 mod 2) with 1 by (rewrite Pos2Z.inj_xI; apply Z.mod_unique with (Zpos p); lia).
    simpl. destruct r, s; reflexivity.
  - split; [rewrite Pos2Z.inj_xO; apply Z.div_unique with 0; lia|].
    replace (Zpos p~0 mod 2) with 0 by (rewrite Pos2Z.inj_xO; apply Z.mod_unique with (Zpos p); lia).
    simpl. destruct r, s; reflexivity.
  - split; [reflexivity|]. simpl. destruct r, s; reflexivity.
Qed.

Lemma shifted_nonneg k a b : 0 <= k -> 0 <= shr_m a -> shifted k a b -> 0 <= shr_m b.
Proof. intros Hk Ha [-> _]. apply Z.div_pos; [lia | apply Z.pow_pos_nonneg; lia]. Qed.

Lemma shifted_trans (j k : Z) (a b c : shr_record) :
  0 <= j -> 0 <= k -> 0 <= shr_m a ->
  shifted j a b -> shifted k b c -> shifted (j + k) a c.
Proof.
  intros Hj Hk Ha [Hb1 Hb2] [Hc1 Hc2]. unfold shifted.
  assert (P1 : 0 < 2 ^ j) by (apply Z.pow_pos_nonneg; lia).
  assert (P2 : 0 < 2 ^ k) by (apply Z.pow_pos_nonneg; lia).
  rewrite Z.pow_add_r by lia. split.
  - rewrite Hc1, Hb1, Z.div_div by lia. reflexivity.
  - rewrite Hc2, Hb2, Hb1, <- orb_assoc. f_equal.
    rewrite Z.rem_mul_r by lia.
    pose proof (Z.mod_pos_bound (shr_m a) (2 ^ j) P1).
    pose proof (Z.mod_pos_bound (shr_m a / 2 ^ j) (2 ^ k) P2).
    rewrite Hb1 in *.
    destruct (Z.eqb_spec (shr_m a mod 2 ^ j) 0),
             (Z.eqb_spec ((shr_m a / 2 ^ j) mod 2 ^ k) 0),
             (Z.eqb_spec (shr_m a mod 2 ^ j + 2 ^ j * ((shr_m a / 2 ^ j) mod 2 ^ k)) 0);
      simpl; try reflexivity; exfalso; nia.
Qed.

Lemma iter_shr_shifted (p : positive) (a : shr_record) :
  0 <= shr_m a -> shifted (Zpos p) a (SpecFloat.iter_pos shr_1 p a).
Proof.
  revert a. induction p as [p IH|p IH|]; intros a Ha; simpl.
  - pose proof (shr_1_shifted a Ha) as H1.
    pose proof (shifted_nonneg 1 _ _ ltac:(lia) Ha H1) as N1.
    pose proof (IH _ N1) as H2.
    pose proof (shifted_nonneg (Zpos p) _ _ ltac:(lia) N1 H2) as N2.
    pose proof (IH _ N2) as H3.
    replace (Zpos p~1) with (1 + Zpos p + Zpos p) by lia.
    eapply shifted_trans; [lia | lia | exact Ha | | exact H3].
    eapply shifted_trans; [lia | lia | exact Ha | exact H1 | exact H2].
  - pose proof (IH _ Ha) as H2.
    pose proof (shifted_nonneg (Zpos p) _ _ ltac:(lia) Ha H2) as N2.
    pose proof (IH _ N2) as H3.
    replace (Zpos p~0) with (Zpos p + Zpos p) by lia.
    eapply shifted_trans; [lia | lia | exact Ha | exact H2 | exact H3].
  - apply shr_1_shifted, Ha.
Qed.

Lemma shifted_0 (a : shr_record) : shifted 0 a a.
Proof.
  unfold shifted. change (2 ^ 0) with 1. rewrite Z.div_1_r, Z.mod_1_r. simpl.
  rewrite orb_false_r. auto.
Qed.

Lemma record_of_loc_m m l : shr_m (shr_record_of_loc m l) = m.
Proof. destruct l as [|[]]; reflexivity. Qed.

Lemma record_of_loc_inexact m l : inexact (shr_record_of_loc m l) = loc_inexact l.
Proof. destruct l as [|[]]; reflexivity. Qed.

Lemma loc_of_record_inexact mrs : loc_inexact (loc_of_shr_record mrs) = inexact mrs.
Proof. destruct mrs as [m [] []]; reflexivity. Qed.

Lemma shr_fexp_spec (m e : Z) (l : location) :
  0 <= m ->
  let n := Z.max 0 (fexp64 (Zdigits2 m + e) - e) in
  shr_m (fst (shr_fexp F64.prec F64.emax m e l)) = m / 2 ^ n /\
  inexact (fst (shr_fexp F64.prec F64.emax m e l)) =
    loc_inexact l || negb (m mod 2 ^ n =? 0) /\
  snd (shr_fexp F64.prec F64.emax m e l) = e + n.
Proof.
  intros Hm n. unfold shr_fexp. rewrite fexp_eq. fold (fexp64 (Zdigits2 m + e)).
  unfold shr. subst n.
  destruct (fexp64 (Zdigits2 m + e) - e) as [|p|p] eqn:E; cbn [fst snd].
  - pose proof (shifted_0 (shr_record_of_loc m l)) as [H1 H2].
    rewrite record_of_loc_m, record_of_loc_inexact in *.
    change (Z.max 0 0) with 0. split; [exact H1 | split; [exact H2 | lia]].
  - pose proof (iter_shr_shifted p (shr_record_of_loc m l)) as [H1 H2].
    { rewrite record_of_loc_m. exact Hm. }
    rewrite record_of_loc_m, record_of_loc_inexact in *.
    replace (Z.max 0 (Zpos p)) with (Zpos p) by lia. auto.
  - pose proof (shifted_0 (shr_record_of_loc m l)) as [H1 H2].
    rewrite record_of_loc_m, record_of_loc_inexact in *.
    replace (Z.max 0 (Zneg p)) with 0 by lia. split; [exact H1 | split; [exact H2 | lia]].
Qed.

Lemma rne_cases (m : Z) (l : location) :
  round_nearest_even m l = m \/
  (loc_inexact l = true /\ round_nearest_even m l = m + 1).
Proof.
  destruct l as [|[]]; simpl; auto. destruct (Z.even m); auto.
Qed.

Lemma bra_cases (sx : bool) (mx ex : Z) (lx : location) :
  0 <= mx ->
  exists m1 e1 m2 m3 e3,
    e1 = ex + Z.max 0 (fexp64 (Zdigits2 mx + ex) - ex) /\
    m1 = mx / 2 ^ (e1 - ex) /\
    (m2 = m1 \/
     ((loc_inexact lx || negb (mx mod 2 ^ (e1 - ex) =? 0)) = true /\ m2 = m1 + 1)) /\
    e3 = e1 + Z.max 0 (fexp64 (Zdigits2 m2 + e1) - e1) /\
    m3 = m2 / 2 ^ (e3 - e1) /\
    binary_round_aux F64.prec F64.emax sx mx ex lx = pack sx m3 e3.
Proof.
  intros Hm. unfold binary_round_aux.
  pose proof (shr_fexp_spec mx ex lx Hm) as (S1 & S2 & S3). cbv zeta in *.
  destruct (shr_fexp F64.prec F64.emax mx ex lx) as [mrs1 e1]. cbn [fst snd] in *.
  set (m2 := round_nearest_even (shr_m mrs1) (loc_of_shr_record mrs1)).
  assert (Hm1 : 0 <= shr_m mrs1).
  { rewrite S1. apply Z.div_pos; [lia | apply Z.pow_pos_nonneg; lia]. }
  assert (Hm2 : 0 <= m2).
  { destruct (rne_cases (shr_m mrs1) (loc_of_shr_record mrs1)) as [H | [_ H]];
      fold m2 in H; lia. }
  pose proof (shr_fexp_spec m2 e1 loc_Exact Hm2) as (T1 & _ & T3). cbv zeta in *.
  destruct (shr_fexp F64.prec F64.emax m2 e1 loc_Exact) as [mrs2 e3]. cbn [fst snd] in *.
  exists (shr_m mrs1), e1, m2, (shr_m mrs2), e3.
  replace (e1 - ex) with (Z.max 0 (fexp64 (Zdigits2 mx + ex) - ex)) by lia.
  replace (e3 - e1) with (Z.max 0 (fexp64 (Zdigits2 m2 + e1) - e1)) by lia.
  split; [lia | split; [exact S1 | split; [| split; [lia | split; [exact T1 |]]]]].
  - destruct (rne_cases (shr_m mrs1) (loc_of_shr_record mrs1)) as [H | [Hi H]];
      fold m2 in H; [left; exact H | right].
    rewrite loc_of_record_inexact, S2 in Hi. auto.
  - unfold pack. reflexivity.
Qed.

Lemma digits_shift (n : positive) (k : Z) :
  0 <= k -> Zdigits2 (Zpos n * 2 ^ k) = Zdigits2 (Zpos n) + k.
Proof.
  intros Hk. assert (P : 0 < 2 ^ k) by (apply Z.pow_pos_nonneg; lia).
  destruct (Zpos n * 2 ^ k) as [|q|q] eqn:E; try lia.
  simpl. apply digits_unique. rewrite <- E.
  pose proof (digits_bounds n) as [H1 H2].
  replace (Zpos (digits2_pos n) + k - 1) with (Zpos (digits2_pos n) - 1 + k) by lia.
  rewrite !Z.pow_add_r by lia. nia.
Qed.

Lemma same_value_digits n e m e' :
  same_value n e m e' -> Zdigits2 (Zpos n) + e = Zdigits2 (Zpos m) + e'.
Proof.
  unfold same_value. intros H.
  assert (Zdigits2 (Zpos n * 2 ^ (e - Z.min e e')) = Zdigits2 (Zpos m * 2 ^ (e' - Z.min e e')))
    by (rewrite H; reflexivity).
  rewrite !digits_shift in H0 by lia. lia.
Qed.

Lemma bounded_spec (m : positive) (e : Z) :
  bounded F64.prec F64.emax m e = true <->
  fexp64 (Zdigits2 (Zpos m) + e) = e /\ e <= 971.
Proof.
  unfold bounded, canonical_mantissa. rewrite fexp_eq, andb_true_iff, Z.eqb_eq, Z.leb_le.
  reflexivity.
Qed.

Lemma round_exact (sx : bool) (n : positive) (e : Z) (m : positive) (e' : Z) :
  bounded F64.prec F64.emax m e' = true ->
  same_value n e m e' ->
  binary_round F64.prec F64.emax sx n e = S754_finite sx m e'.
Proof.
  intros Hb Hv. apply bounded_spec in Hb as [Hc He'].
  pose proof (same_value_digits _ _ _ _ Hv) as Hd.
  unfold binary_round. rewrite fexp_eq.
  change (Zpos (digits2_pos n)) with (Zdigits2 (Zpos n)).
  rewrite Hd, Hc.
  pose proof (shl_align_spec n e e') as Hs.
  destruct (shl_align n e e') as [mz ez]. destruct Hs as [Hez Hmz].
  assert (Hmz' : Zpos mz = Zpos m * 2 ^ (e' - ez)).
  { unfold same_value in Hv. rewrite <- Hez in Hv. rewrite Hmz. exact Hv. }
  assert (Hdz : Zdigits2 (Zpos mz) + ez = Zdigits2 (Zpos m) + e').
  { rewrite Hmz', digits_shift by lia. lia. }
  destruct (bra_cases sx (Zpos mz) ez loc_Exact ltac:(lia))
    as (m1 & e1 & m2 & m3 & e3 & H1 & H2 & H3 & H4 & H5 & ->).
  rewrite Hdz, Hc in H1.
  assert (E1 : e1 = e') by lia. clear H1. subst e1.
  assert (P : 0 < 2 ^ (e' - ez)) by (apply Z.pow_pos_nonneg; lia).
  assert (m1 = Zpos m). { rewrite H2, Hmz'. apply Z.div_mul. lia. }
  assert (Hmod : Zpos mz mod 2 ^ (e' - ez) = 0). { rewrite Hmz'. apply Z.mod_mul. lia. }
  assert (m2 = Zpos m).
  { destruct H3 as [-> | [Hi _]]; [assumption|].
    rewrite Hmod in Hi. discriminate Hi. }
  subst m1 m2. rewrite Hc in H4.
  assert (E3 : e3 = e') by lia. clear H4. subst e3.
  rewrite Z.sub_diag in H5. change (2 ^ 0) with 1 in H5. rewrite Z.div_1_r in H5.
  subst m3. unfold pack. destruct (Z.leb_spec e' 971); [reflexivity | lia].
Qed.

Lemma normalize_exact (n : positive) (e : Z) (m : positive) (e' : Z) :
  bounded F64.prec F64.emax m e' = true ->
  same_value n e m e' ->
  binary_normalize F64.prec F64.emax (Zpos n) e false = S754_finite false m e'.
Proof. apply round_exact. Qed.

Lemma canonical_digits (m : positive) (e : Z) :
  bounded F64.prec F64.emax m e = true ->
  Zdigits2 (Zpos m) <= 53 /\ -1074 <= e <= 971 /\
  (-1074 < e -> Zdigits2 (Zpos m) = 53).
Proof. intros H. apply bounded_spec in H as [Hc He]. unfold fexp64 in Hc. lia. Qed.

Lemma sv_pos (m : positive) (e : Z) : -1074 <= e -> 0 < sv (S754_finite false m e).
Proof. intros. simpl. assert (0 < 2 ^ (e + 1074)) by (apply Z.pow_pos_nonneg; lia). nia. Qed.

Lemma compare_nonneg (x y : float64) :
  nonneg_valid x -> nonneg_valid y -> SFcompare x y = Some (sv x ?= sv y).
Proof.
  destruct x as [sx | | |[] mx ex]; try contradiction;
  destruct y as [sy | | |[] my ey]; try contradiction; intros Hx Hy.
  - reflexivity.
  - simpl in Hy. destruct (canonical_digits _ _ Hy) as (_ & He & _).
    pose proof (sv_pos my ey ltac:(lia)) as P. simpl SFcompare.
    change (sv (S754_zero sx)) with 0. symmetry. f_equal. apply Z.compare_lt_iff, P.
  - simpl in Hx. destruct (canonical_digits _ _ Hx) as (_ & He & _).
    pose proof (sv_pos mx ex ltac:(lia)) as P. simpl SFcompare.
    change (sv (S754_zero sy)) with 0. symmetry. f_equal. apply Z.compare_gt_iff, P.
  - simpl in Hx, Hy.
    destruct (canonical_digits _ _ Hx) as (Dx & Ex & Nx).
    destruct (canonical_digits _ _ Hy) as (Dy & Ey & Ny).
    pose proof (digits_bounds mx) as [Bx1 Bx2].
    pose proof (digits_bounds my) as [By1 By2].
    change (Zpos (digits2_pos mx)) with (Zdigits2 (Zpos mx)) in *.
    change (Zpos (digits2_pos my)) with (Zdigits2 (Zpos my)) in *.
    assert (Ux : Zpos mx < 2 ^ 53).
    { eapply Z.lt_le_trans; [exact Bx2 | apply Z.pow_le_mono_r; lia]. }
    assert (Uy : Zpos my < 2 ^ 53).
    { eapply Z.lt_le_trans; [exact By2 | apply Z.pow_le_mono_r; lia]. }
    simpl SFcompare. f_equal. unfold sv.
    destruct (Z.compare_spec ex ey) as [-> | Hlt | Hgt].
    + change (Pos.compare_cont Eq mx my) with (Zpos mx ?= Zpos my).
      apply Zmult_compare_compat_r, Z.lt_gt, Z.pow_pos_nonneg; lia.
    + symmetry. apply Z.compare_lt_iff.
      assert (Hn : -1074 < ey) by lia. rewrite (Ny Hn) in By1.
      change (2 ^ (53 - 1)) with (2 ^ 52) in By1.
      replace (ey + 1074) with ((ex + 1074) + (ey - ex)) by lia.
      rewrite (Z.pow_add_r 2 (ex + 1074) (ey - ex)) by lia.
      assert (0 < 2 ^ (ex + 1074)) by (apply Z.pow_pos_nonneg; lia).
      assert (2 ^ 1 <= 2 ^ (ey - ex)) by (apply Z.pow_le_mono_r; lia).
      change (2 ^ 1) with 2 in *. change (2 ^ 53) with (2 * 2 ^ 52) in *.
      set (A := 2 ^ (ex + 1074)) in *. set (B := 2 ^ (ey - ex)) in *.
      set (c := 2 ^ 52) in *.
      assert (2 * c <= Zpos my * B) by nia.
      assert (Zpos mx * A < (Zpos my * B) * A) by nia. lia.
    + symmetry. apply Z.compare_gt_iff.
      assert (Hn : -1074 < ex) by lia. rewrite (Nx Hn) in Bx1.
      change (2 ^ (53 - 1)) with (2 ^ 52) in Bx1.
      replace (ex + 1074) with ((ey + 1074) + (ex - ey)) by lia.
      rewrite (Z.pow_add_r 2 (ey + 1074) (ex - ey)) by lia.
      assert (0 < 2 ^ (ey + 1074)) by (apply Z.pow_pos_nonneg; lia).
      assert (2 ^ 1 <= 2 ^ (ex - ey)) by (apply Z.pow_le_mono_r; lia).
      change (2 ^ 1) with 2 in *. change (2 ^ 53) with (2 * 2 ^ 52) in *.
      set (A := 2 ^ (ey + 1074)) in *. set (B := 2 ^ (ex - ey)) in *.
      set (c := 2 ^ 52) in *.
      assert (2 * c <= Zpos mx * B) by nia.
      assert (Zpos my * A < (Zpos mx * B) * A) by nia. lia.
Qed.

Lemma ltb_nonneg x y : nonneg_valid x -> nonneg_valid y -> F64.ltb x y = (sv x <? sv y).
Proof.
  intros Hx Hy. unfold F64.ltb, SFltb. rewrite (compare_nonneg x y Hx Hy).
  unfold Z.ltb. destruct (sv x ?= sv y); reflexivity.
Qed.

Lemma leb_nonneg x y : nonneg_valid x -> nonneg_valid y -> F64.leb x y = (sv x <=? sv y).
Proof.
  intros Hx Hy. unfold F64.leb, SFleb. rewrite (compare_nonneg x y Hx Hy).
  unfold Z.leb. destruct (sv x ?= sv y); reflexivity.
Qed.

Lemma geb_nonneg x y : nonneg_valid x -> nonneg_valid y -> F64.geb x y = (sv y <=? sv x).
Proof. intros Hx Hy. apply (leb_nonneg y x Hy Hx). Qed.

Lemma sub_same_exp (m m' : positive) (e : Z) :
  F64.sub (S754_finite false m e) (S754_finite false m' e) =
  binary_normalize F64.prec F64.emax (Zpos m - Zpos m') e false.
Proof.
  unfold F64.sub, SFsub. rewrite Z.min_id. unfold shl_align. rewrite Z.sub_diag.
  reflexivity.
Qed.

Lemma add_pos (m m' : positive) (e e' : Z) :
  F64.add (S754_finite false m e) (S754_finite false m' e') =
  binary_normalize F64.prec F64.emax
    (Zpos m * 2 ^ (e - Z.min e e') + Zpos m' * 2 ^ (e' - Z.min e e')) (Z.min e e') false.
Proof.
  unfold F64.add, SFadd. cbv zeta.
  pose proof (shl_align_spec m e (Z.min e e')) as H1.
  pose proof (shl_align_spec m' e' (Z.min e e')) as H2.
  destruct (shl_align m e (Z.min e e')) as [a ea].
  destruct (shl_align m' e' (Z.min e e')) as [b eb].
  destruct H1 as [E1 H1], H2 as [E2 H2]. cbn [fst cond_Zopp].
  rewrite H1, H2. repeat f_equal; lia.
Qed.

Lemma same_value_sv (n : positive) (e : Z) (m : positive) (e' : Z) :
  -1074 <= e -> -1074 <= e' ->
  Zpos n * 2 ^ (e + 1074) = Zpos m * 2 ^ (e' + 1074) ->
  same_value n e m e'.
Proof.
  intros He He' H. unfold same_value.
  set (c := Z.min e e').
  assert (Hc : c <= e /\ c <= e' /\ -1074 <= c) by (unfold c; lia).
  assert (P : 0 < 2 ^ (c + 1074)) by (apply Z.pow_pos_nonneg; lia).
  replace (e + 1074) with ((e - c) + (c + 1074)) in H by lia.
  replace (e' + 1074) with ((e' - c) + (c + 1074)) in H by lia.
  rewrite (Z.pow_add_r 2 (e - c)), (Z.pow_add_r 2 (e' - c)) in H by lia.
  rewrite !Z.mul_assoc in H. apply Z.mul_cancel_r in H; [exact H | lia].
Qed.

(** An exact result that a valid float represents is that float. *)
Lemma normalize_sv (N e : Z) (x : float64) :
  0 < N -> -1074 <= e ->
  nonneg_valid x -> sv x = N * 2 ^ (e + 1074) ->
  binary_normalize F64.prec F64.emax N e false = x.
Proof.
  intros HN He Hx Hs. destruct N as [|n|n]; try lia.
  assert (P : 0 < 2 ^ (e + 1074)) by (apply Z.pow_pos_nonneg; lia).
  destruct x as [s| | |[] m e']; try contradiction.
  - simpl in Hs. nia.
  - simpl in Hx. destruct (canonical_digits _ _ Hx) as (_ & He' & _).
    apply normalize_exact; [exact Hx|]. apply same_value_sv; try lia.
    simpl in Hs. lia.
Qed.

Lemma normalize_small_sv (N e : Z) :
  0 < N -> Zdigits2 N <= 53 -> -1074 <= e <= 971 ->
  exists m e', binary_normalize F64.prec F64.emax N e false = S754_finite false m e' /\
    bounded F64.prec F64.emax m e' = true /\
    Zpos m * 2 ^ (e' + 1074) = N * 2 ^ (e + 1074).
Proof.
  intros HN Hd He. destruct N as [|n|n]; try lia.
  set (ef := fexp64 (Zdigits2 (Zpos n) + e)).
  assert (Hef : -1074 <= ef <= e) by (unfold ef, fexp64; lia).
  assert (P : 0 < 2 ^ (e - ef)) by (apply Z.pow_pos_nonneg; lia).
  destruct (Zpos n * 2 ^ (e - ef)) as [|mf|mf] eqn:Em; try lia.
  assert (Hb : bounded F64.prec F64.emax mf ef = true).
  { apply bounded_spec. split; [|lia]. rewrite <- Em, digits_shift by lia.
    replace (Zdigits2 (Zpos n) + (e - ef) + ef) with (Zdigits2 (Zpos n) + e) by lia.
    reflexivity. }
  assert (Hv : Zpos mf * 2 ^ (ef + 1074) = Zpos n * 2 ^ (e + 1074)).
  { rewrite <- Em. replace (e + 1074) with ((e - ef) + (ef + 1074)) by lia.
    rewrite (Z.pow_add_r 2 (e - ef) (ef + 1074)) by lia. ring. }
  exists mf, ef. split; [|split; assumption].
  apply normalize_sv; try lia; [exact Hb | simpl; exact Hv].
Qed.

Lemma neg_involutive (x : float64) : F64.neg (F64.neg x) = x.
Proof. destruct x as [[]|[]| |[] m e]; reflexivity. Qed.

Lemma valid_one : nonneg_valid F64.one.
Proof. reflexivity. Qed.

Lemma valid_half : nonneg_valid F64.half.
Proof. reflexivity. Qed.

Lemma sv_one : sv F64.one = 2 ^ 1074.
Proof. vm_compute. reflexivity. Qed.

Lemma sv_half : sv F64.half = 2 ^ 1073.
Proof. vm_compute. reflexivity. Qed.

Lemma Modf_pos (m : positive) (e : Z) :
  F64.Modf (S754_finite false m e) = F64.modf_nonneg (S754_finite false m e).
Proof. reflexivity. Qed.

Lemma Floor_pos (m : positive) (e : Z) :
  F64.Floor (S754_finite false m e) = fst (F64.Modf (S754_finite false m e)).
Proof. reflexivity. Qed.

Lemma Ceil_pos (m : positive) (e : Z) :
  F64.Ceil (S754_finite false m e) =
  (if F64.neqb (snd (F64.Modf (S754_finite false m e))) F64.zero
   then F64.add (fst (F64.Modf (S754_finite false m e))) F64.one
   else fst (F64.Modf (S754_finite false m e))).
Proof.
  unfold F64.Ceil, F64.Floor.
  change (F64.neg (S754_finite false m e)) with (S754_finite true m e).
  change (F64.eqb (S754_finite true m e) F64.zero) with false.
  change (F64.ltb (S754_finite true m e) F64.zero) with true.
  change (F64.neg (S754_finite true m e)) with (S754_finite false m e).
  cbn [orb F64.is_nan F64.is_inf].
  destruct (F64.Modf (S754_finite false m e)) as [d fract]. cbn [fst snd].
  apply neg_involutive.
Qed.

Lemma of_Z_small (q : Z) :
  0 < q < 2 ^ 53 ->
  nonneg_valid (F64.of_Z q) /\ sv (F64.of_Z q) = q * 2 ^ 1074.
Proof.
  intros Hq. unfold F64.of_Z.
  assert (Hd : Zdigits2 q <= 53).
  { destruct q as [|p|p]; try lia. simpl.
    pose proof (digits_bounds p) as [B1 _].
    destruct (Z_le_gt_dec (Zpos (digits2_pos p)) 53) as [|G]; [assumption|].
    assert (2 ^ 53 <= 2 ^ (Zpos (digits2_pos p) - 1)) by (apply Z.pow_le_mono_r; lia). lia. }
  destruct (normalize_small_sv q 0 ltac:(lia) Hd ltac:(lia)) as (m & e' & -> & Hb & Hv).
  split; [exact Hb | exact Hv].
Qed.

Lemma add_valid_exact (m m' : positive) (e e' : Z) (z : float64) :
  bounded F64.prec F64.emax m e = true ->
  bounded F64.prec F64.emax m' e' = true ->
  nonneg_valid z ->
  sv z = sv (S754_finite false m e) + sv (S754_finite false m' e') ->
  F64.add (S754_finite false m e) (S754_finite false m' e') = z.
Proof.
  intros Hb Hb' Hz Hs.
  destruct (canonical_digits _ _ Hb) as (_ & He & _).
  destruct (canonical_digits _ _ Hb') as (_ & He' & _).
  rewrite add_pos. set (ez := Z.min e e').
  assert (Hez : -1074 <= ez /\ ez <= e /\ ez <= e') by (unfold ez; lia).
  assert (P1 : 0 < 2 ^ (e - ez)) by (apply Z.pow_pos_nonneg; lia).
  assert (P2 : 0 < 2 ^ (e' - ez)) by (apply Z.pow_pos_nonneg; lia).
  apply normalize_sv; [nia | lia | exact Hz |].
  rewrite Hs. simpl sv.
  replace (e + 1074) with ((e - ez) + (ez + 1074)) by lia.
  replace (e' + 1074) with ((e' - ez) + (ez + 1074)) by lia.
  rewrite (Z.pow_add_r 2 (e - ez)), (Z.pow_add_r 2 (e' - ez)) by lia. ring.
Qed.

Lemma pow2_split (a b : Z) : 0 <= a -> 0 <= b -> 2 ^ (a + b) = 2 ^ a * 2 ^ b.
Proof. intros. apply Z.pow_add_r; assumption. Qed.

Section RoundChoice.

Variables (m : positive) (e : Z).
Hypothesis Hb : bounded F64.prec F64.emax m e = true.

Local Abbreviation x := (S754_finite false m e).
Local Abbreviation Hx := (Hb : nonneg_valid (S754_finite false m e)).

Lemma modf_lt_one : sv x < 2 ^ 1074 -> F64.Modf x = (F64.zero, x).
Proof.
  intros H. rewrite Modf_pos. unfold F64.modf_nonneg.
  rewrite (ltb_nonneg _ _ Hx valid_one), sv_one.
  destruct (Z.ltb_spec (sv (S754_finite false m e)) (2 ^ 1074)); [reflexivity|].
  lia.
Qed.

Lemma modf_ge_one :
  2 ^ 1074 <= sv x -> F64.Modf x = (F64.clear_fraction x, F64.sub x (F64.clear_fraction x)).
Proof.
  intros H. rewrite Modf_pos. unfold F64.modf_nonneg.
  rewrite (ltb_nonneg _ _ Hx valid_one), sv_one.
  destruct (Z.ltb_spec (sv (S754_finite false m e)) (2 ^ 1074)); [|reflexivity].
  lia.
Qed.

Lemma round_choice_lt_one :
  sv x < 2 ^ 1074 ->
  (if F64.geb (snd (F64.Modf x)) F64.half then F64.Ceil x else F64.Floor x) =
  F64.of_Z (half_up x).
Proof.
  intros H. destruct (canonical_digits _ _ Hb) as (_ & He & _).
  rewrite Ceil_pos, Floor_pos. rewrite (modf_lt_one H). cbn [fst snd].
  rewrite (geb_nonneg _ _ Hx valid_half), sv_half.
  simpl sv in *.
  assert (Hneg : e < 0).
  { destruct (Z_lt_ge_dec e 0) as [|G]; [assumption|].
    assert (2 ^ 1074 <= 2 ^ (e + 1074)) by (apply Z.pow_le_mono_r; lia). nia. }
  assert (P : 0 < 2 ^ (e + 1074)) by (apply Z.pow_pos_nonneg; lia).
  assert (E1 : 2 ^ 1074 = 2 ^ (- e) * 2 ^ (e + 1074)).
  { rewrite <- pow2_split by lia. f_equal. lia. }
  assert (E2 : 2 ^ 1073 = 2 ^ (- e - 1) * 2 ^ (e + 1074)).
  { rewrite <- pow2_split by lia. f_equal. lia. }
  assert (E3 : 2 ^ (- e) = 2 * 2 ^ (- e - 1)).
  { replace (- e) with (1 + (- e - 1)) at 1 by lia. rewrite pow2_split by lia. reflexivity. }
  assert (P3 : 0 < 2 ^ (- e - 1)) by (apply Z.pow_pos_nonneg; lia).
  rewrite E1 in H. rewrite E2.
  apply Z.mul_lt_mono_pos_r in H; [|exact P].
  unfold half_up. destruct (Z.leb_spec 0 e); [lia|].
  destruct (Z.leb_spec (2 ^ (- e - 1) * 2 ^ (e + 1074)) (Zpos m * 2 ^ (e + 1074))) as [L|L].
  - apply Z.mul_le_mono_pos_r in L; [|exact P].
    replace ((Zpos m + 2 ^ (- e - 1)) / 2 ^ (- e)) with 1
      by (apply Z.div_unique with (Zpos m + 2 ^ (- e - 1) - 2 ^ (- e)); lia).
    reflexivity.
  - apply Z.mul_lt_mono_pos_r in L; [|exact P].
    replace ((Zpos m + 2 ^ (- e - 1)) / 2 ^ (- e)) with 0
      by (apply Z.div_unique with (Zpos m + 2 ^ (- e - 1)); lia).
    reflexivity.
Qed.


Lemma round_choice_big :
  0 <= e ->
  (if F64.geb (snd (F64.Modf x)) F64.half then F64.Ceil x else F64.Floor x) =
  F64.of_Z (half_up x).
Proof.
  intros He0. destruct (canonical_digits _ _ Hb) as (Hd & He & Hn).
  assert (H1 : 2 ^ 1074 <= sv x).
  { simpl sv. rewrite pow2_split by lia.
    assert (0 < 2 ^ 1074) by (apply Z.pow_pos_nonneg; lia).
    assert (0 < 2 ^ e) by (apply Z.pow_pos_nonneg; lia). nia. }
  rewrite Floor_pos. rewrite (modf_ge_one H1). cbn [fst snd].
  assert (Hc : F64.clear_fraction x = x).
  { simpl. destruct (Z.leb_spec 0 e); [reflexivity | lia]. }
  rewrite Hc. rewrite sub_same_exp, Z.sub_diag.
  change (F64.geb (binary_normalize F64.prec F64.emax 0 e false) F64.half) with false.
  cbv iota. symmetry. unfold F64.of_Z, half_up.
  destruct (Z.leb_spec 0 e); [|lia].
  assert (0 < 2 ^ e) by (apply Z.pow_pos_nonneg; lia).
  apply normalize_sv; [nia | lia | exact Hb |].
  simpl sv. rewrite (pow2_split e 1074) by lia. change (0 + 1074) with 1074. ring.
Qed.

Lemma round_choice_mid :
  e < 0 -> 2 ^ 1074 <= sv x ->
  (if F64.geb (snd (F64.Modf x)) F64.half then F64.Ceil x else F64.Floor x) =
  F64.of_Z (half_up x).
Proof.
  intros Hneg H1. destruct (canonical_digits _ _ Hb) as (Hd & He & Hn).
  set (k := - e).
  assert (Hk : 0 < k <= 1074) by (unfold k; lia).
  assert (P : 0 < 2 ^ (e + 1074)) by (apply Z.pow_pos_nonneg; lia).
  assert (Pk : 0 < 2 ^ k) by (apply Z.pow_pos_nonneg; lia).
  assert (E1 : 2 ^ 1074 = 2 ^ k * 2 ^ (e + 1074)).
  { rewrite <- pow2_split by lia. f_equal. unfold k. lia. }
  assert (Hm : 2 ^ k <= Zpos m).
  { simpl sv in H1. rewrite E1 in H1.
    apply Z.mul_le_mono_pos_r in H1; assumption. }
  pose proof (digits_bounds m) as [B1 B2].
  change (Zpos (digits2_pos m)) with (Zdigits2 (Zpos m)) in *.
  set (d := Zdigits2 (Zpos m)) in *.
  assert (Hkd : k < d).
  { destruct (Z_lt_ge_dec k d) as [|G]; [assumption|].
    assert (2 ^ d <= 2 ^ k) by (apply Z.pow_le_mono_r; lia). lia. }
  assert (Hm53 : Zpos m < 2 ^ 53).
  { eapply Z.lt_le_trans; [exact B2 | apply Z.pow_le_mono_r; lia]. }
  set (q := Zpos m / 2 ^ k). set (f := Zpos m mod 2 ^ k).
  assert (Hqf : Zpos m = 2 ^ k * q + f) by (apply Z.div_mod; lia).
  assert (Hf : 0 <= f < 2 ^ k) by (apply Z.mod_pos_bound; lia).
  assert (Hq1 : 1 <= q) by (apply Z.div_le_lower_bound; lia).
  assert (E52 : 2 ^ 53 = 2 * 2 ^ 52) by reflexivity.
  assert (Hk2 : 2 <= 2 ^ k).
  { change 2 with (2 ^ 1) at 1. apply Z.pow_le_mono_r; lia. }
  assert (Hq52 : q < 2 ^ 52) by nia.
  (* the integer part *)
  assert (Hcf : F64.clear_fraction x = S754_finite false (Z.to_pos (q * 2 ^ k)) e).
  { simpl. destruct (Z.leb_spec 0 e); [lia|].
    rewrite Z.shiftl_mul_pow2, Z.shiftr_div_pow2 by lia. reflexivity. }
  assert (Hmi : Zpos (Z.to_pos (q * 2 ^ k)) = q * 2 ^ k) by (apply Z2Pos.id; nia).
  assert (Hbi : bounded F64.prec F64.emax (Z.to_pos (q * 2 ^ k)) e = true).
  { apply bounded_spec. split; [|lia].
    pose proof (proj1 (bounded_spec _ _) Hb) as [Hc _]. rewrite <- Hc at 2. f_equal. f_equal.
    change (Zdigits2 (Zpos (Z.to_pos (q * 2 ^ k)))) with (Zpos (digits2_pos (Z.to_pos (q * 2 ^ k)))).
    apply digits_unique. rewrite Hmi. fold d. split; [|lia].
    replace (d - 1) with ((d - 1 - k) + k) by lia. rewrite pow2_split by lia.
    apply Z.mul_le_mono_nonneg_r; [lia|].
    apply Z.div_le_lower_bound; [lia|].
    rewrite Z.mul_comm, <- pow2_split by lia.
    replace (d - 1 - k + k) with (d - 1) by lia. exact B1. }
  assert (Hsi : sv (S754_finite false (Z.to_pos (q * 2 ^ k)) e) = q * 2 ^ 1074).
  { simpl sv. rewrite Hmi, E1. ring. }
  assert (Hint : F64.clear_fraction x = F64.of_Z q).
  { rewrite Hcf. symmetry. unfold F64.of_Z. apply normalize_sv; [lia | lia | exact Hbi |].
    rewrite Hsi. reflexivity. }
  (* the fractional part *)
  assert (Hfr : F64.sub x (F64.clear_fraction x) =
                binary_normalize F64.prec F64.emax f e false).
  { rewrite Hcf. rewrite sub_same_exp, Hmi. f_equal. lia. }
  assert (Hup : (Zpos m + 2 ^ (k - 1)) / 2 ^ k =
                if 2 ^ (k - 1) <=? f then q + 1 else q).
  { assert (E3 : 2 ^ k = 2 * 2 ^ (k - 1)).
    { replace k with (1 + (k - 1)) at 1 by lia. rewrite pow2_split by lia. reflexivity. }
    assert (0 < 2 ^ (k - 1)) by (apply Z.pow_pos_nonneg; lia).
    destruct (Z.leb_spec (2 ^ (k - 1)) f).
    - symmetry. apply Z.div_unique with (f - 2 ^ (k - 1)); lia.
    - symmetry. apply Z.div_unique with (f + 2 ^ (k - 1)); lia. }
  assert (Hhu : half_up x = if 2 ^ (k - 1) <=? f then q + 1 else q).
  { unfold half_up. destruct (Z.leb_spec 0 e); [lia|].
    fold k. replace (- e - 1) with (k - 1) by (unfold k; lia). exact Hup. }
  rewrite Hhu.
  rewrite Ceil_pos, Floor_pos.
  rewrite (modf_ge_one H1). cbn [fst snd]. rewrite Hfr, Hint.
  destruct (Z.eq_dec f 0) as [Hf0 | Hf0].
  - assert (0 < 2 ^ (k - 1)) by (apply Z.pow_pos_nonneg; lia).
    destruct (Z.leb_spec (2 ^ (k - 1)) f); [lia|]. rewrite Hf0.
    change (F64.geb (binary_normalize F64.prec F64.emax 0 e false) F64.half) with false.
    reflexivity.
  - assert (Hdf : Zdigits2 f <= 53).
    { destruct f as [|p|p] eqn:Ef; try lia. simpl.
      pose proof (digits_bounds p) as [C1 _].
      destruct (Z_le_gt_dec (Zpos (digits2_pos p)) 53) as [|G]; [assumption|].
      assert (2 ^ 53 <= 2 ^ (Zpos (digits2_pos p) - 1)) by (apply Z.pow_le_mono_r; lia).
      lia. }
    destruct (normalize_small_sv f e ltac:(lia) Hdf ltac:(lia))
      as (mf & ef & Hnf & Hbf & Hvf).
    rewrite Hnf.
    rewrite (geb_nonneg (S754_finite false mf ef) F64.half Hbf valid_half), sv_half.
    simpl sv. rewrite Hvf.
    assert (E2 : 2 ^ 1073 = 2 ^ (k - 1) * 2 ^ (e + 1074)).
    { rewrite <- pow2_split by lia. f_equal. unfold k. lia. }
    rewrite E2.
    change (F64.neqb (S754_finite false mf ef) F64.zero) with true. cbv iota.
    destruct (Z.leb_spec (2 ^ (k - 1)) f) as [L|L].
    + destruct (Z.leb_spec (2 ^ (k - 1) * 2 ^ (e + 1074)) (f * 2 ^ (e + 1074))) as [L'|L'].
      2:{ apply Z.mul_lt_mono_pos_r in L'; [lia | exact P]. }
      destruct (of_Z_small q ltac:(lia)) as (Vq & Sq).
      destruct (of_Z_small (q + 1) ltac:(lia)) as (Vq1 & Sq1).
      rewrite <- Hint, Hcf. apply add_valid_exact; try assumption; [reflexivity|].
      rewrite Sq1, Hsi.
      match goal with |- _ = _ + ?t => change t with (sv F64.one) end.
      rewrite sv_one. ring.
    + destruct (Z.leb_spec (2 ^ (k - 1) * 2 ^ (e + 1074)) (f * 2 ^ (e + 1074))) as [L'|L'].
      { apply Z.mul_le_mono_pos_r in L'; [lia | exact P]. }
      reflexivity.
Qed.

Lemma round_choice_finite :
  (if F64.geb (snd (F64.Modf x)) F64.half then F64.Ceil x else F64.Floor x) =
  F64.of_Z (half_up x).
Proof.
  destruct (Z_lt_ge_dec (sv x) (2 ^ 1074)) as [L | G].
  - apply round_choice_lt_one, L.
  - destruct (Z_lt_ge_dec e 0).
    + apply round_choice_mid; lia.
    + apply round_choice_big; lia.
Qed.

End RoundChoice.

(** digits of quotients and successors *)
Lemma Zdigits2_unique (z d : Z) :
  0 < z -> 2 ^ (d - 1) <= z < 2 ^ d -> Zdigits2 z = d.
Proof. intros Hz H. destruct z as [|p|p]; try lia. apply digits_unique, H. Qed.

Lemma Zdigits2_bounds (z : Z) :
  0 < z -> 2 ^ (Zdigits2 z - 1) <= z < 2 ^ Zdigits2 z.
Proof. intros Hz. destruct z as [|p|p]; try lia. apply digits_bounds. Qed.

Lemma Zdigits2_pos (z : Z) : 0 < z -> 0 < Zdigits2 z.
Proof. destruct z; simpl; lia. Qed.

Lemma Zdigits2_le (z : Z) (d : Z) : 0 <= d -> 0 <= z < 2 ^ d -> Zdigits2 z <= d.
Proof.
  intros Hd [H0 H]. destruct (Z.eq_dec z 0) as [->|N]; [simpl; lia|].
  pose proof (Zdigits2_bounds z ltac:(lia)) as [B1 _].
  destruct (Z_le_gt_dec (Zdigits2 z) d) as [|G]; [assumption|].
  assert (2 ^ d <= 2 ^ (Zdigits2 z - 1)) by (apply Z.pow_le_mono_r; lia). lia.
Qed.

Lemma Zdigits2_div (z n : Z) :
  0 <= n -> 2 ^ n <= z -> Zdigits2 (z / 2 ^ n) = Zdigits2 z - n.
Proof.
  intros Hn Hz. assert (P : 0 < 2 ^ n) by (apply Z.pow_pos_nonneg; lia).
  pose proof (Zdigits2_bounds z ltac:(lia)) as [B1 B2].
  set (d := Zdigits2 z) in *.
  assert (Hd : n < d).
  { destruct (Z_lt_ge_dec n d) as [|G]; [assumption|].
    assert (2 ^ d <= 2 ^ n) by (apply Z.pow_le_mono_r; lia). lia. }
  apply Zdigits2_unique.
  - apply Z.div_str_pos. lia.
  - split.
    + apply Z.div_le_lower_bound; [lia|]. rewrite <- pow2_split by lia.
      replace (n + (d - n - 1)) with (d - 1) by lia. exact B1.
    + apply Z.div_lt_upper_bound; [lia|]. rewrite <- pow2_split by lia.
      replace (n + (d - n)) with d by lia. exact B2.
Qed.

Lemma Zdigits2_succ (z : Z) :
  0 < z ->
  (Zdigits2 (z + 1) = Zdigits2 z /\ z + 1 < 2 ^ Zdigits2 z) \/
  (Zdigits2 (z + 1) = Zdigits2 z + 1 /\ z + 1 = 2 ^ Zdigits2 z).
Proof.
  intros Hz. pose proof (Zdigits2_bounds z Hz) as [B1 B2].
  pose proof (Zdigits2_pos z Hz) as Hd. set (d := Zdigits2 z) in *.
  destruct (Z.eq_dec (z + 1) (2 ^ d)) as [E | N].
  - right. split; [|exact E]. apply Zdigits2_unique; [lia|].
    replace (d + 1 - 1) with d by lia. rewrite E. split; [lia|].
    apply Z.pow_lt_mono_r; lia.
  - left. split; [|lia]. apply Zdigits2_unique; lia.
Qed.

Lemma pack_wf (sx : bool) (m3 e3 : Z) :
  0 <= m3 -> (0 < m3 -> fexp64 (Zdigits2 m3 + e3) = e3) -> wf (pack sx m3 e3) = true.
Proof.
  intros H0 Hc. unfold pack. destruct m3 as [|p|p]; try lia; [reflexivity|].
  destruct (Z.leb_spec e3 971); [|reflexivity].
  unfold wf. simpl. apply bounded_spec. split; [apply Hc; lia | assumption].
Qed.

Lemma bra_wf (sx : bool) (mx ex : Z) (lx : location) :
  0 < mx -> ex <= fexp64 (Zdigits2 mx + ex) ->
  wf (binary_round_aux F64.prec F64.emax sx mx ex lx) = true.
Proof.
  intros Hm Hex.
  destruct (bra_cases sx mx ex lx ltac:(lia))
    as (m1 & e1 & m2 & m3 & e3 & H1 & H2 & H3 & H4 & H5 & ->).
  set (D := Zdigits2 mx) in *.
  pose proof (Zdigits2_pos mx Hm) as HD. fold D in HD.
  assert (E1 : e1 = fexp64 (D + ex)) by lia.
  set (n := e1 - ex) in *. assert (Hn : 0 <= n) by (unfold n; lia).
  assert (P : 0 < 2 ^ n) by (apply Z.pow_pos_nonneg; lia).
  assert (Hm1 : 0 <= m1) by (rewrite H2; apply Z.div_pos; lia).
  assert (Hm2 : 0 <= m2) by (destruct H3 as [-> | [_ ->]]; lia).
  assert (P3 : 0 < 2 ^ (e3 - e1)) by (apply Z.pow_pos_nonneg; lia).
  assert (Hm3 : 0 <= m3) by (rewrite H5; apply Z.div_pos; lia).
  apply pack_wf; [exact Hm3|]. intros Hpos.
  destruct (Z_lt_ge_dec mx (2 ^ n)) as [Hsmall | Hbig].
  - (* every bit is shifted out *)
    assert (m1 = 0) by (rewrite H2; apply Z.div_small; lia).
    assert (HDn : D <= n) by (apply Zdigits2_le; lia).
    assert (Ee : e1 = -1074) by (unfold fexp64, n in *; lia).
    assert (m2 = 1).
    { destruct H3 as [-> | [_ ->]]; [|lia]. rewrite H, Z.div_0_l in H5; lia. }
    subst m2. change (Zdigits2 1) with 1 in H4.
    assert (E3 : e3 = e1) by (unfold fexp64 in H4; lia). clear H4. subst e3.
    rewrite Z.sub_diag in H5. change (2 ^ 0) with 1 in H5. rewrite Z.div_1_r in H5.
    subst m3. change (Zdigits2 1) with 1. unfold fexp64. lia.
  - assert (Hd1 : Zdigits2 m1 = D - n) by (rewrite H2; apply Zdigits2_div; lia).
    assert (Hm1p : 0 < m1) by (rewrite H2; apply Z.div_str_pos; lia).
    assert (Hc1 : fexp64 (Zdigits2 m1 + e1) = e1).
    { rewrite Hd1. replace (D - n + e1) with (D + ex) by (unfold n; lia). lia. }
    destruct H3 as [-> | [_ ->]].
    + rewrite Hc1 in H4. assert (E3 : e3 = e1) by lia. clear H4. subst e3.
      rewrite Z.sub_diag in H5. change (2 ^ 0) with 1 in H5. rewrite Z.div_1_r in H5.
      subst m3. exact Hc1.
    + destruct (Zdigits2_succ m1 Hm1p) as [[Hs _] | [Hs Hp]].
      * rewrite Hs, Hc1 in H4. assert (E3 : e3 = e1) by lia. clear H4. subst e3.
        rewrite Z.sub_diag in H5. change (2 ^ 0) with 1 in H5. rewrite Z.div_1_r in H5.
        subst m3. rewrite Hs. exact Hc1.
      * set (d1 := Zdigits2 m1) in *.
        destruct (Z_lt_ge_dec (d1 + e1 - 53) (-1074)) as [Hsub | Hnorm].
        -- assert (E3 : e3 = e1) by (unfold fexp64 in *; lia). clear H4. subst e3.
           rewrite Z.sub_diag in H5. change (2 ^ 0) with 1 in H5. rewrite Z.div_1_r in H5.
           subst m3. rewrite Hs. unfold fexp64 in *. lia.
        -- assert (d1 = 53) by (unfold fexp64 in Hc1; lia).
           assert (E3 : e3 = e1 + 1) by (unfold fexp64 in *; lia). clear H4. subst e3.
           replace (e1 + 1 - e1) with 1 in H5 by lia. change (2 ^ 1) with 2 in H5.
           rewrite Hp, H in H5. change (2 ^ 53 / 2) with (2 ^ 52) in H5. subst m3.
           change (Zdigits2 (2 ^ 52)) with 53. unfold fexp64 in *. lia.
Qed.

Lemma fexp_le_0 (z e K : Z) :
  e <= 0 -> 0 < K < 2 ^ 53 -> 0 <= z <= K * 2 ^ (- e) -> fexp64 (Zdigits2 z + e) <= 0.
Proof.
  intros He HK Hz. assert (P : 0 < 2 ^ (- e)) by (apply Z.pow_pos_nonneg; lia).
  assert (Zdigits2 z <= 53 - e).
  { apply Zdigits2_le; [lia|]. split; [lia|].
    replace (53 - e) with (53 + - e) by lia. rewrite pow2_split by lia. nia. }
  unfold fexp64. lia.
Qed.

Lemma bra_le_int (sx : bool) (mx ex : Z) (lx : location) (K : Z) :
  0 <= mx -> ex <= 0 -> 0 < K < 2 ^ 53 ->
  mx + (if loc_inexact lx then 1 else 0) <= K * 2 ^ (- ex) ->
  exists m3 e3,
    binary_round_aux F64.prec F64.emax sx mx ex lx = pack sx m3 e3 /\
    e3 <= 0 /\ 0 <= m3 <= K * 2 ^ (- e3).
Proof.
  intros Hm Hex HK Hle.
  destruct (bra_cases sx mx ex lx Hm)
    as (m1 & e1 & m2 & m3 & e3 & H1 & H2 & H3 & H4 & H5 & Hr).
  exists m3, e3. split; [exact Hr|].
  assert (Hmx : 0 <= mx <= K * 2 ^ (- ex)) by (destruct (loc_inexact lx); lia).
  pose proof (fexp_le_0 mx ex K Hex HK Hmx) as F1.
  assert (He1 : ex <= e1 <= 0) by lia.
  set (n := e1 - ex) in *. assert (Hn : 0 <= n) by (unfold n; lia).
  assert (P : 0 < 2 ^ n) by (apply Z.pow_pos_nonneg; lia).
  assert (P1 : 0 < 2 ^ (- e1)) by (apply Z.pow_pos_nonneg; lia).
  assert (EK : K * 2 ^ (- ex) = (K * 2 ^ (- e1)) * 2 ^ n).
  { replace (- ex) with (- e1 + n) by (unfold n; lia). rewrite pow2_split by lia. ring. }
  set (K1 := K * 2 ^ (- e1)) in *.
  assert (Hm1 : 0 <= m1 <= K1).
  { rewrite H2. split; [apply Z.div_pos; lia|].
    apply Z.div_le_upper_bound; [lia|]. lia. }
  assert (Hm2 : 0 <= m2 <= K1).
  { destruct H3 as [-> | [Hi ->]]; [exact Hm1|]. split; [lia|].
    assert (mx < K1 * 2 ^ n).
    { apply orb_true_iff in Hi as [Hi | Hi].
      - rewrite Hi in Hle. lia.
      - apply negb_true_iff, Z.eqb_neq in Hi.
        assert (mx <> K1 * 2 ^ n) by (intros ->; rewrite Z.mod_mul in Hi; lia). lia. }
    assert (m1 < K1) by (rewrite H2; apply Z.div_lt_upper_bound; lia). lia. }
  pose proof (fexp_le_0 m2 e1 K ltac:(lia) HK Hm2) as F2.
  assert (He3 : e1 <= e3 <= 0) by lia.
  set (n' := e3 - e1) in *. assert (Hn' : 0 <= n') by (unfold n'; lia).
  assert (P' : 0 < 2 ^ n') by (apply Z.pow_pos_nonneg; lia).
  assert (EK' : K1 = (K * 2 ^ (- e3)) * 2 ^ n').
  { unfold K1. replace (- e1) with (- e3 + n') by (unfold n'; lia).
    rewrite pow2_split by lia. ring. }
  split; [lia|]. rewrite H5. split; [apply Z.div_pos; lia|].
  apply Z.div_le_upper_bound; [lia|]. lia.
Qed.

Lemma pack_cases (sx : bool) (m3 e3 : Z) :
  0 <= m3 -> e3 <= 971 ->
  (m3 = 0 /\ pack sx m3 e3 = S754_zero sx) \/
  (exists m, m3 = Zpos m /\ pack sx m3 e3 = S754_finite sx m e3).
Proof.
  intros H0 He. unfold pack. destruct m3 as [|p|p]; try lia; [left; auto|].
  right. exists p. destruct (Z.leb_spec e3 971); [auto | lia].
Qed.

Lemma of_Z_repr (x : Z) :
  0 < x < 2 ^ 53 ->
  exists m e, F64.of_Z x = S754_finite false m e /\
    bounded F64.prec F64.emax m e = true /\ e <= 0 /\ Zpos m = x * 2 ^ (- e).
Proof.
  intros Hx. destruct (of_Z_small x Hx) as (Hv & Hs).
  destruct (F64.of_Z x) as [s| | |[] m e]; try contradiction.
  - simpl in Hs. assert (0 < 2 ^ 1074) by (apply Z.pow_pos_nonneg; lia). nia.
  - simpl in Hv, Hs. exists m, e. split; [reflexivity | split; [exact Hv|]].
    destruct (canonical_digits _ _ Hv) as (Hd & He & Hn).
    assert (e <= 0).
    { destruct (Z_le_gt_dec e 0) as [|G]; [assumption | exfalso].
      pose proof (Zdigits2_bounds (Zpos m) ltac:(lia)) as [B1 _].
      rewrite (Hn ltac:(lia)) in B1. change (2 ^ (53 - 1)) with (2 ^ 52) in B1.
      rewrite (pow2_split e 1074) in Hs by lia.
      assert (0 < 2 ^ 1074) by (apply Z.pow_pos_nonneg; lia).
      assert (2 ^ 1 <= 2 ^ e) by (apply Z.pow_le_mono_r; lia).
      change (2 ^ 1) with 2 in *. change (2 ^ 53) with (2 * 2 ^ 52) in Hx.
      assert (Zpos m * 2 ^ e = x) by nia. nia. }
    split; [assumption|].
    assert (P : 0 < 2 ^ (e + 1074)) by (apply Z.pow_pos_nonneg; lia).
    replace 1074 with (- e + (e + 1074)) in Hs at 2 by lia.
    rewrite (pow2_split (- e)) in Hs by lia.
    rewrite Z.mul_assoc in Hs. apply Z.mul_cancel_r in Hs; lia.
Qed.

Lemma Zdigits2_ge (z d : Z) : 2 ^ (d - 1) <= z -> 0 < z -> d <= Zdigits2 z.
Proof.
  intros H Hz. pose proof (Zdigits2_bounds z Hz) as [_ B2].
  destruct (Z_le_gt_dec d (Zdigits2 z)) as [|G]; [assumption|].
  assert (2 ^ Zdigits2 z <= 2 ^ (d - 1)) by (apply Z.pow_le_mono_r; [lia | lia]). lia.
Qed.

Lemma mul_wf (x y : float64) : wf x = true -> wf y = true -> wf (F64.mul x y) = true.
Proof.
  destruct x as [sx|sx| |sx mx ex], y as [sy|sy| |sy my ey]; try reflexivity.
  unfold wf at 1 2. simpl valid_binary. intros Hx Hy.
  unfold F64.mul, SFmul. apply bra_wf; [lia|].
  destruct (canonical_digits _ _ Hx) as (Dx & Ex & Nx).
  destruct (canonical_digits _ _ Hy) as (Dy & Ey & Ny).
  pose proof (Zdigits2_bounds (Zpos mx) ltac:(lia)) as [Bx _].
  pose proof (Zdigits2_bounds (Zpos my) ltac:(lia)) as [By _].
  pose proof (Zdigits2_pos (Zpos mx) ltac:(lia)) as Px.
  pose proof (Zdigits2_pos (Zpos my) ltac:(lia)) as Py.
  assert (Hd : Zdigits2 (Zpos mx) + Zdigits2 (Zpos my) - 1 <= Zdigits2 (Zpos (mx * my))).
  { apply Zdigits2_ge; [|lia].
    replace (Zdigits2 (Zpos mx) + Zdigits2 (Zpos my) - 1 - 1)
      with ((Zdigits2 (Zpos mx) - 1) + (Zdigits2 (Zpos my) - 1)) by lia.
    rewrite pow2_split, Pos2Z.inj_mul by lia.
    apply Z.mul_le_mono_nonneg; try assumption; apply Z.pow_nonneg; lia. }
  unfold fexp64. lia.
Qed.

Lemma new_location_inexact (nb k : Z) :
  loc_inexact (new_location nb k) = negb (k =? 0).
Proof.
  unfold new_location, new_location_even, new_location_odd.
  destruct (Z.even nb), (k =? 0); reflexivity.
Qed.

Lemma div_int_le (a b K : Z) :
  0 < a < 2 ^ 53 -> 0 < b < 2 ^ 53 -> 0 < K < 2 ^ 53 -> a <= K * b ->
  exists m3 e3,
    F64.div (F64.of_Z a) (F64.of_Z b) = pack false m3 e3 /\
    e3 <= 0 /\ 0 <= m3 <= K * 2 ^ (- e3).
Proof.
  intros Ha Hb0 HK Hab.
  destruct (of_Z_repr a Ha) as (ma & ea & -> & Va & Ea & Ma).
  destruct (of_Z_repr b Hb0) as (mb & eb & -> & Vb & Eb & Mb).
  unfold F64.div, SFdiv, SFdiv_core_binary. rewrite fexp_eq.
  set (d1 := Zdigits2 (Zpos ma)). set (d2 := Zdigits2 (Zpos mb)).
  set (e' := Z.min (fexp64 (d1 + ea - (d2 + eb))) (ea - eb)).
  set (s := ea - eb - e').
  assert (Hs : 0 <= s) by (unfold s, e'; lia).
  set (A := 2 ^ (- ea)) in *. set (B := 2 ^ (- eb)) in *.
  assert (PA : 0 < A) by (apply Z.pow_pos_nonneg; lia).
  assert (PB : 0 < B) by (apply Z.pow_pos_nonneg; lia).
  assert (Hcross : Zpos ma * B <= K * Zpos mb * A) by (rewrite Ma, Mb; nia).
  (* the exponent of the quotient is not positive *)
  assert (He' : e' <= 0).
  { pose proof (Zdigits2_bounds (Zpos ma) ltac:(lia)) as [B1 _].
    pose proof (Zdigits2_bounds (Zpos mb) ltac:(lia)) as [_ B2].
    fold d1 in B1. fold d2 in B2.
    pose proof (Zdigits2_pos (Zpos ma) ltac:(lia)) as P1. fold d1 in P1.
    pose proof (Zdigits2_pos (Zpos mb) ltac:(lia)) as P2. fold d2 in P2.
    assert (2 ^ (d1 - 1 - eb) < 2 ^ (53 + d2 - ea)).
    { replace (d1 - 1 - eb) with ((d1 - 1) + - eb) by lia.
      replace (53 + d2 - ea) with (53 + d2 + - ea) by lia.
      rewrite !pow2_split by lia. fold A B.
      assert (0 < 2 ^ d2) by (apply Z.pow_pos_nonneg; lia).
      assert (2 ^ (d1 - 1) * B <= Zpos ma * B) by nia.
      assert (K * Zpos mb * A < 2 ^ 53 * 2 ^ d2 * A).
      { apply Z.mul_lt_mono_pos_r; [exact PA|]. nia. }
      lia. }
    apply Z.pow_lt_mono_r_iff in H; [|lia|lia].
    unfold e', fexp64. lia. }
  set (m' := match s with
             | Z0 => Zpos ma | Zpos _ => Z.shiftl (Zpos ma) s | Zneg _ => 0 end).
  assert (Hm' : m' = Zpos ma * 2 ^ s).
  { unfold m'. destruct s as [|p|p] eqn:E; try lia.
    rewrite Z.shiftl_mul_pow2 by lia. reflexivity. }
  assert (PS : 0 < 2 ^ s) by (apply Z.pow_pos_nonneg; lia).
  assert (PE : 0 < 2 ^ (- e')) by (apply Z.pow_pos_nonneg; lia).
  assert (HSA : 2 ^ s * A = 2 ^ (- e') * B).
  { unfold A, B. rewrite <- !pow2_split by lia. f_equal. unfold s. lia. }
  assert (Hmle : m' <= (K * 2 ^ (- e')) * Zpos mb).
  { apply Z.mul_le_mono_pos_r with (p := A); [exact PA|].
    rewrite Hm'.
    replace (Zpos ma * 2 ^ s * A) with (Zpos ma * (2 ^ s * A)) by ring.
    rewrite HSA.
    replace (Zpos ma * (2 ^ (- e') * B)) with ((Zpos ma * B) * 2 ^ (- e')) by ring.
    replace (K * 2 ^ (- e') * Zpos mb * A) with ((K * Zpos mb * A) * 2 ^ (- e')) by ring.
    apply Z.mul_le_mono_pos_r; assumption. }
  pose proof (Z.div_eucl_eq m' (Zpos mb) ltac:(lia)) as Heq.
  pose proof (Z.mod_pos_bound m' (Zpos mb) ltac:(lia)) as Hmod.
  unfold Z.modulo in Hmod.
  destruct (Z.div_eucl m' (Zpos mb)) as [q r]. 
  assert (Hq0 : 0 <= q) by nia.
  apply bra_le_int; try assumption.
  rewrite new_location_inexact.
  destruct (Z.eqb_spec r 0) as [-> | Hr]; simpl negb; cbv iota.
  - assert (q * Zpos mb <= (K * 2 ^ (- e')) * Zpos mb) by lia.
    apply Z.mul_le_mono_pos_r in H; lia.
  - assert (q * Zpos mb < (K * 2 ^ (- e')) * Zpos mb) by lia.
    apply Z.mul_lt_mono_pos_r in H; lia.
Qed.

Lemma mul_int_le (c K : Z) (my : positive) (ey : Z) :
  0 < c -> 0 < K -> c * K < 2 ^ 53 -> ey <= 0 -> Zpos my <= K * 2 ^ (- ey) ->
  exists m3 e3,
    F64.mul (F64.of_Z c) (S754_finite false my ey) = pack false m3 e3 /\
    e3 <= 0 /\ 0 <= m3 <= (c * K) * 2 ^ (- e3) /\
    wf (pack false m3 e3) = true.
Proof.
  intros Hc HK HcK Hey Hmy.
  destruct (of_Z_repr c ltac:(nia)) as (mc & ec & -> & Vc & Ec & Mc).
  assert (PE : 0 < 2 ^ (- ec)) by (apply Z.pow_pos_nonneg; lia).
  assert (PY : 0 < 2 ^ (- ey)) by (apply Z.pow_pos_nonneg; lia).
  unfold F64.mul, SFmul. cbn [xorb].
  assert (Hwf : wf (binary_round_aux F64.prec F64.emax false (Zpos (mc * my)) (ec + ey)
                      loc_Exact) = true).
  { apply bra_wf; [lia|].
    destruct (canonical_digits _ _ Vc) as (Dc & Xc & Nc).
    assert (Hec : -1074 < ec).
    { destruct (Z_lt_ge_dec (-1074) ec) as [|G]; [assumption | exfalso].
      assert (ec = -1074) by lia. subst ec.
      pose proof (Zdigits2_bounds (Zpos mc) ltac:(lia)) as [_ B2].
      assert (2 ^ Zdigits2 (Zpos mc) <= 2 ^ 53) by (apply Z.pow_le_mono_r; lia).
      change (- -1074) with 1074 in *.
      assert (2 ^ 53 < 2 ^ 1074) by (apply Z.pow_lt_mono_r; lia). nia. }
    pose proof (Zdigits2_bounds (Zpos mc) ltac:(lia)) as [B1 _].
    rewrite (Nc Hec) in B1.
    pose proof (Zdigits2_bounds (Zpos my) ltac:(lia)) as [By _].
    pose proof (Zdigits2_pos (Zpos my) ltac:(lia)) as Py.
    assert (Hd : 53 + Zdigits2 (Zpos my) - 1 <= Zdigits2 (Zpos (mc * my))).
    { apply Zdigits2_ge; [|lia].
      replace (53 + Zdigits2 (Zpos my) - 1 - 1)
        with ((53 - 1) + (Zdigits2 (Zpos my) - 1)) by lia.
      rewrite pow2_split, Pos2Z.inj_mul by lia.
      apply Z.mul_le_mono_nonneg; try assumption; apply Z.pow_nonneg; lia. }
    unfold fexp64. lia. }
  destruct (bra_le_int false (Zpos (mc * my)) (ec + ey) loc_Exact (c * K))
    as (m3 & e3 & Hr & He3 & Hm3); try lia.
  { cbn [loc_inexact]. rewrite Z.add_0_r, Pos2Z.inj_mul, Mc.
    replace (- (ec + ey)) with (- ec + - ey) by lia. rewrite pow2_split by lia.
    replace (c * K * (2 ^ (- ec) * 2 ^ (- ey)))
      with ((c * 2 ^ (- ec)) * (K * 2 ^ (- ey))) by ring.
    apply Z.mul_le_mono_nonneg_l; lia. }
  exists m3, e3. rewrite <- Hr. auto.
Qed.

Lemma of_Z_repr53 (x : Z) :
  0 < x < 2 ^ 53 ->
  exists m e, F64.of_Z x = S754_finite false m e /\
    bounded F64.prec F64.emax m e = true /\ -52 <= e <= 0 /\
    Zpos m = x * 2 ^ (- e) /\ 2 ^ 52 <= Zpos m < 2 ^ 53.
Proof.
  intros Hx. destruct (of_Z_repr x Hx) as (m & e & E & Hb & He & Hm).
  exists m, e. split; [exact E | split; [exact Hb|]].
  destruct (canonical_digits _ _ Hb) as (Hd & Hr & Hn).
  pose proof (Zdigits2_bounds (Zpos m) ltac:(lia)) as [B1 B2].
  assert (P : 0 < 2 ^ (- e)) by (apply Z.pow_pos_nonneg; lia).
  assert (U : Zpos m < 2 ^ 53).
  { eapply Z.lt_le_trans; [exact B2 | apply Z.pow_le_mono_r; lia]. }
  assert (He52 : -52 <= e).
  { destruct (Z_le_gt_dec (-52) e) as [|G]; [assumption | exfalso].
    assert (2 ^ 53 <= 2 ^ (- e)) by (apply Z.pow_le_mono_r; lia). nia. }
  rewrite (Hn ltac:(lia)) in B1. change (2 ^ (53 - 1)) with (2 ^ 52) in B1.
  repeat split; try assumption; lia.
Qed.

Lemma div_int_wf (a b : Z) :
  0 < a < 2 ^ 53 -> 0 < b < 2 ^ 53 ->
  wf (F64.div (F64.of_Z a) (F64.of_Z b)) = true.
Proof.
  intros Ha Hb0.
  destruct (of_Z_repr53 a Ha) as (ma & ea & -> & Va & Ea & _ & Ma).
  destruct (of_Z_repr53 b Hb0) as (mb & eb & -> & Vb & Eb & _ & Mb).
  unfold F64.div, SFdiv, SFdiv_core_binary. rewrite fexp_eq.
  assert (D1 : Zdigits2 (Zpos ma) = 53) by (apply Zdigits2_unique; [lia | exact Ma]).
  assert (D2 : Zdigits2 (Zpos mb) = 53) by (apply Zdigits2_unique; [lia | exact Mb]).
  rewrite D1, D2.
  replace (Z.min (fexp64 (53 + ea - (53 + eb))) (ea - eb)) with (ea - eb - 53)
    by (unfold fexp64; lia).
  replace (ea - eb - (ea - eb - 53)) with 53 by lia.
  rewrite Z.shiftl_mul_pow2 by lia.
  pose proof (Z.div_eucl_eq (Zpos ma * 2 ^ 53) (Zpos mb) ltac:(lia)) as Heq.
  pose proof (Z.mod_pos_bound (Zpos ma * 2 ^ 53) (Zpos mb) ltac:(lia)) as Hmod.
  unfold Z.modulo in Hmod.
  destruct (Z.div_eucl (Zpos ma * 2 ^ 53) (Zpos mb)) as [q r].
  assert (Hq : 2 ^ 52 <= q).
  { change (2 ^ 53) with (2 * 2 ^ 52) in *. nia. }
  apply bra_wf; [lia|].
  assert (53 <= Zdigits2 q) by (apply Zdigits2_ge; [exact Hq | lia]).
  unfold fexp64. lia.
Qed.

Lemma hundredth_in_range (k : Z) :
  0 <= k <= 10000 ->
  F64.leb F64.zero (F64.div (F64.of_Z k) (F64.of_Z 100)) = true /\
  F64.leb (F64.div (F64.of_Z k) (F64.of_Z 100)) (F64.of_Z 100) = true.
Proof.
  intros Hk. destruct (Z.eq_dec k 0) as [-> | Hk0]; [split; reflexivity|].
  assert (Hk53 : 0 < k < 2 ^ 53) by (change (2 ^ 53) with 9007199254740992; lia).
  pose proof (div_int_wf k 100 Hk53 ltac:(reflexivity || (change (2 ^ 53) with 9007199254740992; lia))) as Hw.
  destruct (div_int_le k 100 100 Hk53) as (m3 & e3 & E & He3 & Hm3);
    try (change (2 ^ 53) with 9007199254740992; lia).
  rewrite E in *.
  destruct (of_Z_small 100 ltac:(change (2 ^ 53) with 9007199254740992; lia)) as (V100 & S100).
  destruct (pack_cases false m3 e3 ltac:(lia) ltac:(lia)) as [[-> ->] | (m & -> & Hp)].
  - split; reflexivity.
  - rewrite Hp in *. unfold wf in Hw. simpl valid_binary in Hw.
    destruct (canonical_digits _ _ Hw) as (_ & Hr & _).
    assert (P : 0 < 2 ^ (e3 + 1074)) by (apply Z.pow_pos_nonneg; lia).
    assert (E1074 : 2 ^ 1074 = 2 ^ (- e3) * 2 ^ (e3 + 1074)).
    { rewrite <- pow2_split by lia. f_equal. lia. }
    split.
    + rewrite (leb_nonneg F64.zero (S754_finite false m e3) I Hw).
      apply Z.leb_le. simpl sv. nia.
    + rewrite (leb_nonneg (S754_finite false m e3) (F64.of_Z 100) Hw V100), S100.
      apply Z.leb_le. simpl sv. rewrite E1074.
      replace (100 * (2 ^ (- e3) * 2 ^ (e3 + 1074)))
        with ((100 * 2 ^ (- e3)) * 2 ^ (e3 + 1074)) by ring.
      apply Z.mul_le_mono_nonneg_r; lia.
Qed.

(** ** The rounding helper *)

Lemma Qfloor_half_up (m : positive) (e : Z) :
  Qfloor (F64.to_Q (S754_finite false m e) + (1 # 2)) = half_up (S754_finite false m e).
Proof.
  unfold half_up, F64.to_Q, F64.pow2. destruct e as [|p|p].
  - unfold Qfloor, Qplus, Qmult, inject_Z. cbn [Qnum Qden]. 
    change (0 <=? 0) with true. cbv iota. change (2 ^ 0) with 1.
    rewrite !Z.mul_1_r. change (Zpos (1 * 1 * 2)) with 2.
    symmetry. apply Z.div_unique with 1; lia.
  - change (0 <=? Zpos p) with true. cbv iota.
    unfold Qfloor, Qplus, Qmult, inject_Z. cbn [Qnum Qden].
    change (Zpos (1 * 1 * 2)) with 2. rewrite !Z.mul_1_r.
    symmetry. apply Z.div_unique with 1; lia.
  - change (0 <=? Zneg p) with false. cbv iota.
    change (- Zneg p) with (Zpos p).
    rewrite <- (Pos2Z.inj_pow 2 p).
    unfold Qfloor, Qplus, Qmult, Qinv, inject_Z. cbn [Qnum Qden].
    rewrite !Z.mul_1_r, !Z.mul_1_l, Pos.mul_1_l, Pos2Z.inj_mul.
    rewrite (Pos2Z.inj_pow 2 p).
    assert (E : 2 ^ Zpos p = 2 * 2 ^ (Zpos p - 1)).
    { replace (Zpos p) with (1 + (Zpos p - 1)) at 1 by lia.
      rewrite pow2_split by lia. reflexivity. }
    assert (P : 0 < 2 ^ (Zpos p - 1)) by (apply Z.pow_pos_nonneg; lia).
    rewrite E at 1.
    replace (Zpos m * 2 + 2 * 2 ^ (Zpos p - 1)) with (2 * (Zpos m + 2 ^ (Zpos p - 1))) by ring.
    rewrite (Z.mul_comm (2 ^ Zpos p) 2).
    rewrite Z.div_mul_cancel_l by lia. reflexivity.
Qed.

Lemma mul_comm (x y : float64) : F64.mul x y = F64.mul y x.
Proof.
  destruct x as [sx|sx| |sx mx ex], y as [sy|sy| |sy my ey]; unfold F64.mul; simpl;
    rewrite ?(xorb_comm sx sy); try reflexivity.
  rewrite (Pos.mul_comm mx my), (Z.add_comm ex ey). reflexivity.
Qed.

Lemma Round_unfold (val roundOn : float64) (places : Z) :
  Round val roundOn places =
  F64.div (if F64.geb (snd (F64.Modf (F64.mul (F64.Pow10 places) val))) roundOn
           then F64.Ceil (F64.mul (F64.Pow10 places) val)
           else F64.Floor (F64.mul (F64.Pow10 places) val))
          (F64.Pow10 places).
Proof.
  unfold Round. destruct (F64.Modf (F64.mul (F64.Pow10 places) val)) as [i f].
  reflexivity.
Qed.

Lemma Pow10_small (places : Z) :
  0 <= places <= 22 ->
  F64.Pow10 places = F64.of_Z (10 ^ places) /\
  exists m e, F64.Pow10 places = S754_finite false m e /\
              bounded F64.prec F64.emax m e = true.
Proof.
  intros H. rewrite <- (Z2Nat.id places) by lia.
  assert (Hn : (Z.to_nat places <= 22)%nat) by lia.
  clear H. revert Hn. generalize (Z.to_nat places). intros n Hn.
  do 23 (destruct n as [|n];
         [split; [vm_compute; reflexivity | eexists; eexists; split; vm_compute; reflexivity]|]).
  lia.
Qed.

Lemma round_choice_zero :
  (if F64.geb (snd (F64.Modf F64.zero)) F64.half then F64.Ceil F64.zero
   else F64.Floor F64.zero) = F64.of_Z 0.
Proof. reflexivity. Qed.

Lemma mul_nonneg_shape (mx my : positive) (ex ey : Z) :
  exists m3 e3,
    F64.mul (S754_finite false mx ex) (S754_finite false my ey) = pack false m3 e3 /\
    0 <= m3.
Proof.
  unfold F64.mul, SFmul. cbn [xorb].
  destruct (bra_cases false (Zpos (mx * my)) (ex + ey) loc_Exact ltac:(lia))
    as (m1 & e1 & m2 & m3 & e3 & H1 & H2 & H3 & H4 & H5 & Hr).
  exists m3, e3. split; [exact Hr|].
  assert (0 <= m1) by (rewrite H2; apply Z.div_pos; [lia | apply Z.pow_pos_nonneg; lia]).
  assert (0 <= m2) by (destruct H3 as [-> | [_ ->]]; lia).
  rewrite H5. apply Z.div_pos; [lia | apply Z.pow_pos_nonneg; lia].
Qed.

(** the choice of [Round] on a valid non-negative finite scaled value *)
Lemma round_choice (digit : float64) :
  wf digit = true -> nonneg digit = true ->
  (if F64.geb (snd (F64.Modf digit)) F64.half then F64.Ceil digit else F64.Floor digit) =
  F64.of_Z (Qfloor (F64.to_Q digit + (1 # 2))).
Proof.
  destruct digit as [[]| | |[] m e]; try discriminate; intros Hw _.
  - reflexivity.
  - rewrite Qfloor_half_up. apply round_choice_finite. exact Hw.
Qed.

Lemma Round_half_up_scaled (val : float64) (places : Z) :
  0 <= places <= 22 ->
  wf val = true -> nonneg val = true ->
  F64.is_finite (F64.mul (F64.Pow10 places) val) = true ->
  Round val F64.half places =
  F64.div (F64.of_Z (Qfloor (F64.to_Q (F64.mul (F64.Pow10 places) val) + (1 # 2))))
          (F64.Pow10 places).
Proof.
  intros Hp Hw Hn Hf. rewrite Round_unfold. f_equal.
  destruct (Pow10_small places Hp) as (_ & mp & ep & Epow & Bp).
  apply round_choice.
  - apply mul_wf; [rewrite Epow; exact Bp | exact Hw].
  - rewrite Epow in *. destruct val as [[]| | |[] m e]; try discriminate.
    + reflexivity.
    + destruct (mul_nonneg_shape mp m ep e) as (m3 & e3 & E & H0).
      rewrite E in *. unfold pack in *. destruct m3 as [|p|p]; try lia; [reflexivity|].
      destruct (e3 <=? 971); [reflexivity | discriminate Hf].
Qed.


Lemma Pow10_2 : F64.Pow10 2 = F64.of_Z 100.
Proof. vm_compute. reflexivity. Qed.

Lemma half_up_le (m : positive) (e K : Z) :
  0 < K -> e <= 0 -> Zpos m <= K * 2 ^ (- e) ->
  0 <= half_up (S754_finite false m e) <= K.
Proof.
  intros HK He Hm. unfold half_up.
  assert (P : 0 < 2 ^ (- e)) by (apply Z.pow_pos_nonneg; lia).
  destruct (Z.leb_spec 0 e).
  - assert (e = 0) by lia. subst e. change (2 ^ 0) with 1. change (2 ^ (- 0)) with 1 in Hm. lia.
  - assert (P1 : 0 < 2 ^ (- e - 1)) by (apply Z.pow_pos_nonneg; lia).
    assert (E : 2 ^ (- e) = 2 * 2 ^ (- e - 1)).
    { replace (- e) with (1 + (- e - 1)) at 1 by lia. rewrite pow2_split by lia. reflexivity. }
    split; [apply Z.div_pos; lia|].
    assert ((Zpos m + 2 ^ (- e - 1)) / 2 ^ (- e) < K + 1); [|lia].
    apply Z.div_lt_upper_bound; [lia|]. nia.
Qed.

(** the rounded percentage of a ratio that is at most 100 *)
Lemma Round_percent_range (a b : Z) :
  0 < a < 2 ^ 53 -> 0 < b < 2 ^ 53 -> a <= 100 * b ->
  exists k, 0 <= k <= 10000 /\
    Round (F64.div (F64.of_Z a) (F64.of_Z b)) F64.half 2 =
    F64.div (F64.of_Z k) (F64.of_Z 100).
Proof.
  intros Ha Hb Hab. rewrite Round_unfold, Pow10_2.
  destruct (div_int_le a b 100 Ha Hb ltac:(lia) Hab) as (mp & ep & -> & Hep & Hmp).
  destruct (pack_cases false mp ep ltac:(lia) ltac:(lia)) as [[-> ->] | (m & -> & ->)].
  - exists 0. split; [lia | reflexivity].
  - destruct (mul_int_le 100 100 m ep ltac:(lia) ltac:(lia) ltac:(lia) Hep ltac:(lia))
      as (md & ed & -> & Hed & Hmd & Hw).
    change (100 * 100) with 10000 in Hmd.
    destruct (pack_cases false md ed ltac:(lia) ltac:(lia)) as [[-> Hz] | (m' & -> & Hz)];
      rewrite Hz in *.
    + exists 0. split; [lia | reflexivity].
    + rewrite round_choice_finite by exact Hw.
      exists (half_up (S754_finite false m' ed)). split; [|reflexivity].
      apply half_up_le; lia.
Qed.

Lemma mul64_small (a b : Z) : 0 <= a * b < 2 ^ 64 -> GoInt.mul64 a b = a * b.
Proof. intros H. unfold GoInt.mul64, GoInt.wrap64. apply Z.mod_small, H. Qed.

Lemma getCpuPercentage_first (t : Topbeat) (t2 : CpuTimes.t) :
  lastCpuTimes t = None ->
  getCpuPercentage t t2 = (F64.zero, set_lastCpuTimes (Some t2) t).
Proof. intros H. unfold getCpuPercentage. rewrite H. reflexivity. Qed.

Lemma getCpuPercentage_second (t : Topbeat) (t1 t2 : CpuTimes.t) :
  lastCpuTimes t = Some t1 ->
  let all_delta := GoInt.sub64 (sum t2) (sum t1) in
  let user_delta := GoInt.sub64 (CpuTimes.User t2) (CpuTimes.User t1) in
  0 < user_delta -> user_delta <= all_delta -> 100 * all_delta < 2 ^ 53 ->
  fst (getCpuPercentage t t2) =
    Round (F64.div (F64.of_Z (100 * user_delta)) (F64.of_Z all_delta)) F64.half 2 /\
  (exists k, 0 <= k <= 10000 /\
     fst (getCpuPercentage t t2) = F64.div (F64.of_Z k) (F64.of_Z 100)) /\
  F64.leb F64.zero (fst (getCpuPercentage t t2)) = true /\
  F64.leb (fst (getCpuPercentage t t2)) (F64.of_Z 100) = true /\
  snd (getCpuPercentage t t2) = set_lastCpuTimes (Some t2) t.
Proof.
  intros Hl all_delta user_delta Hu Hua Ha.
  assert (E : fst (getCpuPercentage t t2) =
    Round (F64.div (F64.of_Z (100 * user_delta)) (F64.of_Z all_delta)) F64.half 2).
  { unfold getCpuPercentage. rewrite Hl. cbn [fst]. fold all_delta user_delta.
    rewrite mul64_small; [reflexivity|].
    change (2 ^ 64) with (2048 * 2 ^ 53). lia. }
  destruct (Round_percent_range (100 * user_delta) all_delta) as (k & Hk & Ek); try lia.
  destruct (hundredth_in_range k Hk) as [L1 L2].
  split; [exact E|]. rewrite E, Ek.
  split; [exists k; auto | split; [exact L1 | split; [exact L2|]]].
  unfold getCpuPercentage. reflexivity.
Qed.




(** What binary64 does to decimal constants: 1.005 is stored below the
    midpoint and goes down, 2.675 is stored below the midpoint too, but its
    product with 100 rounds to 267.5 and goes up. *)
Example Round_decimal_constants :
  Round (F64.lit 1005 1000) F64.half 2 = F64.of_Z 1 /\
  F64.mul (F64.Pow10 2) (F64.lit 2675 1000) = F64.lit 2675 10 /\
  Round (F64.lit 2675 1000) F64.half 2 = F64.lit 268 100.
Proof. repeat split; vm_compute; reflexivity. Qed.

(** On a negative value the same rule applies without mirroring: -2.345
    gives -2.35, -2.5 with no decimal place gives -3. *)
Example Round_negative :
  Round (F64.lit (-2345) 1000) F64.half 2 = F64.lit (-235) 100 /\
  Round (F64.lit (-25) 10) F64.half 0 = F64.of_Z (-3).
Proof. split; vm_compute; reflexivity. Qed.

(** ** The system CPU percentage *)

Lemma add64_small (a b : Z) : 0 <= a + b < 2 ^ 64 -> GoInt.add64 a b = a + b.
Proof. intros H. unfold GoInt.add64, GoInt.wrap64. apply Z.mod_small, H. Qed.

Lemma sub64_small (a b : Z) : 0 <= a - b < 2 ^ 64 -> GoInt.sub64 a b = a - b.
Proof. intros H. unfold GoInt.sub64, GoInt.wrap64. apply Z.mod_small, H. Qed.

(** When no counter has decreased (and the sum fits in 64 bits), the delta of
    the user counter is at most the delta of the sum. *)
Lemma monotone_counters_deltas (t1 t2 : CpuTimes.t) :
  0 <= CpuTimes.User t1 <= CpuTimes.User t2 ->
  0 <= CpuTimes.Nice t1 <= CpuTimes.Nice t2 ->
  0 <= CpuTimes.System t1 <= CpuTimes.System t2 ->
  0 <= CpuTimes.Idle t1 <= CpuTimes.Idle t2 ->
  0 <= CpuTimes.IOWait t1 <= CpuTimes.IOWait t2 ->
  0 <= CpuTimes.Irq t1 <= CpuTimes.Irq t2 ->
  0 <= CpuTimes.SoftIrq t1 <= CpuTimes.SoftIrq t2 ->
  0 <= CpuTimes.Steal t1 <= CpuTimes.Steal t2 ->
  CpuTimes.User t2 + CpuTimes.Nice t2 + CpuTimes.System t2 + CpuTimes.Idle t2
    + CpuTimes.IOWait t2 + CpuTimes.Irq t2 + CpuTimes.SoftIrq t2
    + CpuTimes.Steal t2 < 2 ^ 64 ->
  GoInt.sub64 (CpuTimes.User t2) (CpuTimes.User t1) <=
  GoInt.sub64 (sum t2) (sum t1).
Proof.
  intros HU HN HS HI HW HQ HF HT Hsum.
  assert (S2 : sum t2 = CpuTimes.User t2 + CpuTimes.Nice t2 + CpuTimes.System t2
                        + CpuTimes.Idle t2 + CpuTimes.IOWait t2 + CpuTimes.Irq t2
                        + CpuTimes.SoftIrq t2 + CpuTimes.Steal t2).
  { unfold sum.
    rewrite (add64_small (CpuTimes.User t2)) by lia.
    rewrite (add64_small (_ + CpuTimes.Nice t2)) by lia.
    rewrite (add64_small (_ + CpuTimes.System t2)) by lia.
    rewrite (add64_small (_ + CpuTimes.Idle t2)) by lia.
    rewrite (add64_small (_ + CpuTimes.IOWait t2)) by lia.
    rewrite (add64_small (_ + CpuTimes.Irq t2)) by lia.
    rewrite (add64_small (_ + CpuTimes.SoftIrq t2)) by lia. reflexivity. }
  assert (S1 : sum t1 = CpuTimes.User t1 + CpuTimes.Nice t1 + CpuTimes.System t1
                        + CpuTimes.Idle t1 + CpuTimes.IOWait t1 + CpuTimes.Irq t1
                        + CpuTimes.SoftIrq t1 + CpuTimes.Steal t1).
  { unfold sum.
    rewrite (add64_small (CpuTimes.User t1)) by lia.
    rewrite (add64_small (_ + CpuTimes.Nice t1)) by lia.
    rewrite (add64_small (_ + CpuTimes.System t1)) by lia.
    rewrite (add64_small (_ + CpuTimes.Idle t1)) by lia.
    rewrite (add64_small (_ + CpuTimes.IOWait t1)) by lia.
    rewrite (add64_small (_ + CpuTimes.Irq t1)) by lia.
    rewrite (add64_small (_ + CpuTimes.SoftIrq t1)) by lia. reflexivity. }
  rewrite S1, S2, !sub64_small by lia. lia.
Qed.

(** C7, as amended. The first call returns 0 and stores the snapshot.
    A later call with [0 < deltaUser <= deltaAll] and [100 * deltaAll] below
    2^53 (every conversion to float64 is then exact) returns
    [100 * deltaUser / deltaAll] rounded by [Round]: k hundredths for some
    k between 0 and 10000, a value between 0 and 100, both included; it
    stores the snapshot too. After a snapshot with user 1000 and sum 5000,
    one with user 1050 and sum 5100 gives 50. *)
Theorem getCpuPercentage_range :
  (forall (t : Topbeat) (t2 : CpuTimes.t),
      lastCpuTimes t = None ->
      getCpuPercentage t t2 = (F64.zero, set_lastCpuTimes (Some t2) t)) /\
  (forall (t : Topbeat) (t1 t2 : CpuTimes.t),
      lastCpuTimes t = Some t1 ->
      let all_delta := GoInt.sub64 (sum t2) (sum t1) in
      let user_delta := GoInt.sub64 (CpuTimes.User t2) (CpuTimes.User t1) in
      0 < user_delta -> user_delta <= all_delta -> 100 * all_delta < 2 ^ 53 ->
      fst (getCpuPercentage t t2) =
        Round (F64.div (F64.of_Z (100 * user_delta)) (F64.of_Z all_delta)) F64.half 2 /\
      (exists k, 0 <= k <= 10000 /\
         fst (getCpuPercentage t t2) = F64.div (F64.of_Z k) (F64.of_Z 100)) /\
      F64.leb F64.zero (fst (getCpuPercentage t t2)) = true /\
      F64.leb (fst (getCpuPercentage t t2)) (F64.of_Z 100) = true /\
      snd (getCpuPercentage t t2) = set_lastCpuTimes (Some t2) t) /\
  (let t0 := @Examples.tracker [] ∅ None in
   let A := Examples.cpu 1000 4000 in
   let B := Examples.cpu 1050 4050 in
   sum A = 5000 /\ sum B = 5100 /\
   fst (getCpuPercentage t0 A) = F64.zero /\
   fst (getCpuPercentage (snd (getCpuPercentage t0 A)) B) = F64.of_Z 50).
Proof.
  split; [exact getCpuPercentage_first|].
  split; [exact getCpuPercentage_second|].
  cbv zeta. repeat split; vm_compute; reflexivity.
Qed.

Lemma getCpuPercentage_range_witness :
  let t := @Examples.tracker [] ∅ (Some (Examples.cpu 1000 4000)) in
  let t2 := Examples.cpu 1001 103999 in
  F64.leb F64.zero (fst (getCpuPercentage t t2)) = true /\
  F64.leb (fst (getCpuPercentage t t2)) (F64.of_Z 100) = true.
Proof.
  intros t t2.
  pose proof (proj1 (proj2 getCpuPercentage_range) t (Examples.cpu 1000 4000) t2) as H.
  cbv zeta in H.
  destruct H as (_ & _ & L1 & L2 & _);
    [reflexivity | reflexivity | vm_compute; discriminate | reflexivity |].
  split; [exact L1 | exact L2].
Defined.

(** C7, counterexample. With [deltaUser = 1] and [deltaAll = 100000] the
    ratio is 0.001 percent, which [Round] takes to 0: the result is not above
    0. (When counters go backwards, [deltaUser = 100] with [deltaAll = 50]
    gives 200.) *)
Lemma getCpuPercentage_small_ratio_is_zero :
  let t := @Examples.tracker [] ∅ (Some (Examples.cpu 0 0)) in
  let t2 := Examples.cpu 1 99999 in
  GoInt.sub64 (sum t2) (sum (Examples.cpu 0 0)) = 100000 /\
  GoInt.sub64 (CpuTimes.User t2) (CpuTimes.User (Examples.cpu 0 0)) = 1 /\
  fst (getCpuPercentage t t2) = F64.zero /\
  F64.ltb F64.zero (fst (getCpuPercentage t t2)) = false /\
  fst (getCpuPercentage (@Examples.tracker [] ∅ (Some (Examples.cpu 0 100)))
         (Examples.cpu 100 50)) = F64.of_Z 200.
Proof. cbv zeta. repeat split; vm_compute; reflexivity. Qed.

(** * Further properties of the program *)

(** ** Memory percentages *)

Lemma Round_zero_half : Round F64.zero F64.half 2 = F64.zero.
Proof. vm_compute. reflexivity. Qed.

Lemma div_zero_int (b : Z) : 0 < b < 2 ^ 53 -> F64.div F64.zero (F64.of_Z b) = F64.zero.
Proof.
  intros Hb. destruct (of_Z_repr b Hb) as (m & e & -> & _). reflexivity.
Qed.

Lemma hundredth_zero : F64.zero = F64.div (F64.of_Z 0) (F64.of_Z 100).
Proof. vm_compute. reflexivity. Qed.

(** X1. For a memory block with [0 <= Used <= Total] and [100 * Total]
    below 2^53, [getUsedMemPercent] returns k hundredths for some k between
    0 and 10000, a value between 0 and 100, both included; a total of 0 is
    part of the case (the result is then 0, by the guard). *)
Theorem getUsedMemPercent_range (t : Topbeat) (m : MemStat.t) :
  0 <= MemStat.Used m <= MemStat.Total m ->
  100 * MemStat.Total m < 2 ^ 53 ->
  exists k, 0 <= k <= 10000 /\
    getUsedMemPercent t m = F64.div (F64.of_Z k) (F64.of_Z 100) /\
    F64.leb F64.zero (getUsedMemPercent t m) = true /\
    F64.leb (getUsedMemPercent t m) (F64.of_Z 100) = true.
Proof.
  intros Hu Ht.
  assert (H : exists k, 0 <= k <= 10000 /\
            getUsedMemPercent t m = F64.div (F64.of_Z k) (F64.of_Z 100)).
  { unfold getUsedMemPercent. destruct (Z.eqb_spec (MemStat.Total m) 0) as [E0|N0].
    - exists 0. split; [lia | exact hundredth_zero].
    - cbv zeta. rewrite mul64_small by (change (2 ^ 64) with (2048 * 2 ^ 53); lia).
      destruct (Z.eq_dec (MemStat.Used m) 0) as [U0|U0].
      + rewrite U0. change (100 * 0) with 0. rewrite of_Z_0, div_zero_int by lia.
        exists 0. split; [lia|]. rewrite Round_zero_half. exact hundredth_zero.
      + apply Round_percent_range; lia. }
  destruct H as (k & Hk & E). exists k. rewrite E.
  destruct (hundredth_in_range k Hk) as [L1 L2]. auto.
Qed.

Lemma getUsedMemPercent_range_witness :
  exists k, 0 <= k <= 10000 /\
    getUsedMemPercent Topbeat_zero (MemStat.mk 8000 1234 6766 0 0 F64.zero) =
      F64.div (F64.of_Z k) (F64.of_Z 100) /\
    F64.leb F64.zero
      (getUsedMemPercent Topbeat_zero (MemStat.mk 8000 1234 6766 0 0 F64.zero)) = true /\
    F64.leb (getUsedMemPercent Topbeat_zero (MemStat.mk 8000 1234 6766 0 0 F64.zero))
      (F64.of_Z 100) = true.
Proof.
  apply (getUsedMemPercent_range Topbeat_zero (MemStat.mk 8000 1234 6766 0 0 F64.zero));
    simpl; lia.
Defined.

(** the resident share of a process, at most the physical memory *)
Lemma Round_share_range (a b : Z) :
  0 <= a <= b -> 0 < b < 2 ^ 53 ->
  exists k, 0 <= k <= 10000 /\
    Round (F64.mul (F64.div (F64.of_Z a) (F64.of_Z b)) (F64.of_Z 100)) F64.half 2 =
    F64.div (F64.of_Z k) (F64.of_Z 100).
Proof.
  intros Ha Hb. destruct (Z.eq_dec a 0) as [-> | Ha0].
  - rewrite of_Z_0, div_zero_int by lia. exists 0. split; [lia|].
    vm_compute. reflexivity.
  - rewrite Round_unfold, Pow10_2.
    destruct (div_int_le a b 1 ltac:(lia) Hb ltac:(change (2 ^ 53) with 9007199254740992; lia)
                ltac:(lia)) as (mp & ep & -> & Hep & Hmp).
    destruct (pack_cases false mp ep ltac:(lia) ltac:(lia)) as [[-> ->] | (m & -> & ->)].
    + exists 0. split; [lia | vm_compute; reflexivity].
    + rewrite (mul_comm (S754_finite false m ep) (F64.of_Z 100)).
      destruct (mul_int_le 100 1 m ep ltac:(lia) ltac:(lia)
                  ltac:(change (2 ^ 53) with 9007199254740992; lia) Hep ltac:(lia))
        as (mq & eq & -> & Heq & Hmq & _).
      change (100 * 1) with 100 in Hmq.
      destruct (pack_cases false mq eq ltac:(lia) ltac:(lia)) as [[-> ->] | (m1 & -> & ->)].
      * exists 0. split; [lia | vm_compute; reflexivity].
      * destruct (mul_int_le 100 100 m1 eq ltac:(lia) ltac:(lia)
                    ltac:(change (2 ^ 53) with 9007199254740992; lia) Heq ltac:(lia))
          as (md & ed & -> & Hed & Hmd & Hw).
        change (100 * 100) with 10000 in Hmd.
        destruct (pack_cases false md ed ltac:(lia) ltac:(lia))
          as [[-> Hz] | (m' & -> & Hz)]; rewrite Hz in *.
        -- exists 0. split; [lia | reflexivity].
        -- rewrite round_choice_finite by exact Hw.
           exists (half_up (S754_finite false m' ed)). split; [|reflexivity].
           apply half_up_le; lia.
Qed.

(** X2. When the memory query succeeds with a total between 1 and 2^53
    and the resident size is between 0 and that total, [getRssPercent]
    returns k hundredths for some k between 0 and 10000, a value between 0
    and 100, both included, and its only effect is the query. *)
Theorem getRssPercent_range `{os : Sigar} (t : Topbeat) (m : ProcMemStat.t)
    (s : Sys) (mem_stat : MemStat.t) (w : World) :
  GetMemory (world s) = (inl mem_stat, w) ->
  0 <= ProcMemStat.Rss m <= MemStat.Total mem_stat ->
  0 < MemStat.Total mem_stat < 2 ^ 53 ->
  (exists k, 0 <= k <= 10000 /\
     fst (getRssPercent t m s) = F64.div (F64.of_Z k) (F64.of_Z 100)) /\
  F64.leb F64.zero (fst (getRssPercent t m s)) = true /\
  F64.leb (fst (getRssPercent t m s)) (F64.of_Z 100) = true /\
  snd (getRssPercent t m s) = mkSys w (trace s ++ [Call CallGetMemory]).
Proof.
  intros HG Hr Ht.
  assert (E : getRssPercent t m s =
    (Round (F64.mul (F64.div (F64.of_Z (ProcMemStat.Rss m))
                             (F64.of_Z (MemStat.Total mem_stat))) (F64.of_Z 100))
           F64.half 2,
     mkSys w (trace s ++ [Call CallGetMemory]))).
  { unfold getRssPercent. unfold mbind, M_bind, bind, syscall, ret. rewrite HG.
    reflexivity. }
  rewrite E. cbn [fst snd].
  destruct (Round_share_range _ _ Hr Ht) as (k & Hk & ->).
  destruct (hundredth_in_range k Hk) as [L1 L2].
  split; [exists k; auto | auto].
Qed.

Lemma getRssPercent_range_witness :
  let s := Examples.sys0 0 [] 10000000 in
  let m := ProcMemStat.mk 0 2500000 F64.zero 0 in
  F64.leb F64.zero (fst (@getRssPercent TableOS.os Topbeat_zero m s)) = true /\
  F64.leb (fst (@getRssPercent TableOS.os Topbeat_zero m s)) (F64.of_Z 100) = true.
Proof.
  intros s m.
  destruct (@getRssPercent_range TableOS.os Topbeat_zero m s (Examples.mem 10000000)
              (world s)) as (_ & L1 & L2 & _);
    [reflexivity | simpl; lia | simpl; lia |].
  split; [exact L1 | exact L2].
Defined.

(** ** The counter sum *)

Lemma add64_wrap_l (a b : Z) : GoInt.add64 (GoInt.wrap64 a) b = GoInt.wrap64 (a + b).
Proof. unfold GoInt.add64, GoInt.wrap64. apply Zplus_mod_idemp_l. Qed.

Lemma sum_mod (t : CpuTimes.t) : sum t = plain_sum t mod 2 ^ 64.
Proof.
  unfold sum, plain_sum.
  change (GoInt.add64 (CpuTimes.User t) (CpuTimes.Nice t))
    with (GoInt.wrap64 (CpuTimes.User t + CpuTimes.Nice t)).
  rewrite !add64_wrap_l. reflexivity.
Qed.

(** X3. [sum] is the sum of the eight counters modulo 2^64, so that the
    difference of two sums, itself taken modulo 2^64, is the true growth of
    the counters whenever that growth is between 0 and 2^64, even if one of
    the sums has wrapped around. *)
Theorem sum_delta_survives_wrap (t1 t2 : CpuTimes.t) :
  0 <= plain_sum t2 - plain_sum t1 < 2 ^ 64 ->
  sum t1 = plain_sum t1 mod 2 ^ 64 /\
  sum t2 = plain_sum t2 mod 2 ^ 64 /\
  GoInt.sub64 (sum t2) (sum t1) = plain_sum t2 - plain_sum t1.
Proof.
  intros H. split; [apply sum_mod|]. split; [apply sum_mod|].
  rewrite !sum_mod. unfold GoInt.sub64, GoInt.wrap64.
  rewrite <- Zminus_mod. apply Z.mod_small, H.
Qed.

Lemma sum_delta_survives_wrap_witness :
  let t1 := CpuTimes.mk (2 ^ 64 - 10) F64.zero 0 0 (2 ^ 64 - 5) 0 0 0 0 in
  let t2 := CpuTimes.mk (2 ^ 64 - 3) F64.zero 0 0 (2 ^ 64 - 2) 0 0 0 0 in
  GoInt.sub64 (sum t2) (sum t1) = 10.
Proof.
  intros t1 t2.
  apply (proj2 (proj2 (sum_delta_survives_wrap t1 t2 ltac:(unfold plain_sum; simpl; lia)))).
Defined.

(** ** Round on the special values *)

Lemma Round_nan (roundOn : float64) (places : Z) :
  Round F64.nan roundOn places = F64.nan.
Proof.
  unfold Round. destruct (F64.Pow10 places) as [[]|[]| |[] m e];
    destruct roundOn as [[]|[]| |[] m' e']; reflexivity.
Qed.

Lemma Round_fixes (x roundOn : float64) (places : Z) :
  0 <= places <= 22 ->
  not_finite x || F64.eqb x F64.zero = true ->
  Round x roundOn places = x.
Proof.
  intros Hp Hx. destruct (Pow10_small places Hp) as (_ & mp & ep & Epow & _).
  unfold Round. rewrite Epow.
  destruct x as [[]|[]| |[] m e]; try discriminate Hx;
    destruct roundOn as [[]|[]| |[] m' e']; reflexivity.
Qed.



(** X4. [Round] gives NaN back for every threshold and every number of
    places; for 0 to 22 places it also gives back an infinity or a zero of
    either sign as it is, whatever the threshold. *)
Theorem Round_special :
  (forall (roundOn : float64) (places : Z), Round F64.nan roundOn places = F64.nan) /\
  (forall (x roundOn : float64) (places : Z),
      0 <= places <= 22 ->
      not_finite x || F64.eqb x F64.zero = true ->
      Round x roundOn places = x).
Proof. split; [exact Round_nan | exact Round_fixes]. Qed.

Lemma Round_special_witness : Round (F64.neg F64.pinf) F64.half 2 = F64.neg F64.pinf.
Proof. apply (proj2 Round_special); [lia | reflexivity]. Defined.

(** ** procCpuPercent *)

Lemma mul_not_finite (x y : float64) :
  not_finite x = true -> not_finite (F64.mul x y) = true.
Proof.
  destruct x as [s|s| |s m e]; try discriminate; intros _;
    destruct y as [sy|sy| |sy my ey]; reflexivity.
Qed.

(** X5. Whatever the number of CPUs, [procCpuPercent] treats the
    baselines as [getProcCpuPercentage] does: it leaves the receiver in the
    same state, returns 0 for a pid without baseline, and with a baseline
    and a wall-clock delta of 0 ms it divides by zero as well, returning NaN
    or an infinity. *)
Theorem procCpuPercent_like_getProcCpuPercentage (numCPU : Z) (t : Topbeat)
    (proc : Process.t) :
  snd (procCpuPercent numCPU t proc) = snd (getProcCpuPercentage t proc) /\
  (procsMap t !! Process.Pid proc = None ->
   procCpuPercent numCPU t proc = (F64.zero, t)) /\
  (forall oproc,
     procsMap t !! Process.Pid proc = Some oproc ->
     GoInt.quot (Nanoseconds (time_Sub (Process.ctime proc) (Process.ctime oproc)))
       1000000 = 0 ->
     not_finite (fst (procCpuPercent numCPU t proc)) = true).
Proof.
  unfold procCpuPercent, getProcCpuPercentage.
  destruct (procsMap t !! Process.Pid proc) as [oproc|] eqn:L.
  - split; [reflexivity|]. split; [discriminate|].
    intros o [= <-] Hd. cbn [fst]. rewrite Hd, of_Z_0.
    apply Round_not_finite, mul_not_finite, mul_100_not_finite, div_zero_not_finite.
  - split; [reflexivity|]. split; [reflexivity | discriminate].
Qed.

Lemma procCpuPercent_like_getProcCpuPercentage_witness :
  let old := Examples.proc 7 "nginx" 100 0 0 5000000000 in
  let t := @Examples.tracker [".*"%string] {[7 := old]} None in
  not_finite (fst (procCpuPercent 8 t (Examples.proc 7 "nginx" 130 0 0 5000400000))) = true.
Proof.
  intros old t.
  apply (proj2 (proj2 (procCpuPercent_like_getProcCpuPercentage 8 t
                         (Examples.proc 7 "nginx" 130 0 0 5000400000))) old);
    reflexivity.
Defined.

(** ** Frames of the samplers *)

Lemma getProcCpuPercentage_snd (t : Topbeat) (proc : Process.t) :
  snd (getProcCpuPercentage t proc) =
  match procsMap t !! Process.Pid proc with
  | Some _ => set_procsMap (<[Process.Pid proc := proc]> (procsMap t)) t
  | None => t
  end.
Proof.
  unfold getProcCpuPercentage. destruct (procsMap t !! Process.Pid proc); reflexivity.
Qed.

Lemma keyed_empty : keyed ∅.
Proof. intros k p H. rewrite lookup_empty in H. discriminate. Qed.

Lemma keyed_insert (m : ProcsMap) (p : Process.t) :
  keyed m -> keyed (<[Process.Pid p := p]> m).
Proof.
  intros Hm k q. destruct (decide (Process.Pid p = k)) as [<-|Hne].
  - rewrite lookup_insert_eq. intros [= <-]. reflexivity.
  - rewrite lookup_insert_ne by exact Hne. apply Hm.
Qed.

Opaque getCpuPercentage getUsedMemPercent getProcCpuPercentage Round.

Section Sampling.
Context `{re : RegexpLib} `{os : Sigar}.

(** *** exportSystemStats *)

Lemma exportSystemStats_frame (t : Topbeat) (s : Sys) :
  let r := exportSystemStats t s in
  set_lastCpuTimes (lastCpuTimes t) (snd (fst r)) = t /\
  exists new, trace (snd r) = trace s ++ new /\
    List.filter is_pacing new = [Call CallGetSystemLoad] /\
    List.filter is_proc_send new = [] /\
    List.filter is_enumeration new = [].
Proof.
  unfold exportSystemStats. run_monad.
  repeat break_call;
    repeat match goal with
    | E : getCpuPercentage _ _ = _ |- _ =>
        apply (f_equal snd) in E; rewrite getCpuPercentage_snd in E; simpl in E; subst
    end;
    (split; [destruct t; reflexivity|]);
    repeat rewrite <- app_assoc; simpl;
    (eexists; split; [reflexivity | auto]).
Qed.

Lemma exportSystemStats_result (t : Topbeat) (s : Sys) :
  let r := exportSystemStats t s in
  exists new, trace (snd r) = trace s ++ new /\
    match fst (fst r) with
    | None =>
        List.filter is_warn new = [] /\
        exists now load cpu mem swap,
          List.filter is_send new =
            [Send (events t) (SystemEvent now load cpu mem swap)] /\
          lastCpuTimes (snd (fst r)) = Some cpu
    | Some err =>
        List.filter is_send new = [] /\
        exists format, List.filter is_warn new = [Warn format [ArgErr err]]
    end.
Proof.
  unfold exportSystemStats. run_monad.
  repeat break_call;
    repeat match goal with
    | E : getCpuPercentage _ _ = _ |- _ =>
        apply (f_equal snd) in E; rewrite getCpuPercentage_snd in E; simpl in E; subst
    end;
    repeat rewrite <- app_assoc; simpl;
    (eexists; split; [reflexivity | simpl]);
    try (split; [reflexivity | eexists; reflexivity]).
  split; [reflexivity|]. do 5 eexists. split; reflexivity.
Qed.

Lemma exportSystemStats_cpu_ok (t : Topbeat) (s : Sys) (load : SystemLoad.t)
    (w1 : World) (cpu : CpuTimes.t) (w2 : World) :
  GetSystemLoad (world s) = (inl load, w1) ->
  GetCpuTimes w1 = (inl cpu, w2) ->
  snd (fst (exportSystemStats t s)) =
    set_lastCpuTimes
      (Some (CpuTimes.with_UserPercent (fst (getCpuPercentage t cpu)) cpu)) t /\
  (forall err w3, GetMemory w2 = (inr err, w3) ->
     fst (fst (exportSystemStats t s)) = Some err /\
     List.filter is_send (trace (snd (exportSystemStats t s))) =
       List.filter is_send (trace s)).
Proof.
  intros HL HC. unfold exportSystemStats. run_monad. rewrite HL. simpl.
  rewrite HC. simpl.
  destruct (getCpuPercentage t cpu) as [user_p t1] eqn:E.
  pose proof (f_equal snd E) as E2. rewrite getCpuPercentage_snd in E2.
  simpl in E2. subst t1. simpl. split.
  - repeat break_call; destruct t; reflexivity.
  - intros err w3 HM. rewrite HM. simpl. split; [reflexivity|].
    rewrite !List.filter_app. simpl. rewrite !app_nil_r. reflexivity.
Qed.


(** *** exportProcStats *)

Lemma exportProcStats_body_error (pid : Z) (t : Topbeat) (s : Sys) (err : error)
    (w : World) :
  GetProcess pid (world s) = (inr err, w) ->
  exportProcStats_body pid t s =
  (t, mkSys w (trace s ++ [Call (CallGetProcess pid);
                           Debug "topbeat" "Skip process %d: %v" [ArgInt pid; ArgErr err]])).
Proof.
  intros HG. unfold exportProcStats_body. run_monad. rewrite HG. simpl.
  rewrite <- app_assoc. reflexivity.
Qed.

Lemma exportProcStats_body_skip (pid : Z) (t : Topbeat) (s : Sys)
    (process : Process.t) (w : World) :
  GetProcess pid (world s) = (inl process, w) ->
  MatchProcess t (Process.Name process) = false ->
  exportProcStats_body pid t s = (t, mkSys w (trace s ++ [Call (CallGetProcess pid)])).
Proof.
  intros HG HM. unfold exportProcStats_body. run_monad. rewrite HG. simpl.
  rewrite HM. reflexivity.
Qed.

Lemma exportProcStats_body_run (pid : Z) (t : Topbeat) (s : Sys)
    (process : Process.t) (w : World) (r : MemStat.t + error) (w1 : World)
    (now : Time) (w2 : World) :
  GetProcess pid (world s) = (inl process, w) ->
  MatchProcess t (Process.Name process) = true ->
  GetMemory w = (r, w1) ->
  time_Now w1 = (now, w2) ->
  let rss_p :=
    match r with
    | inl mem_stat =>
        Round (F64.mul (F64.div (F64.of_Z (ProcMemStat.Rss (Process.Mem process)))
                                (F64.of_Z (MemStat.Total mem_stat))) (F64.of_Z 100))
              F64.half 2
    | inr _ => F64.zero
    end in
  let p := filled (fst (getProcCpuPercentage t process)) rss_p process in
  exportProcStats_body pid t s =
  (set_procsMap (<[Process.Pid process := p]> (procsMap t)) t,
   mkSys w2
     (trace s ++
      Call (CallGetProcess pid) :: Call CallGetMemory ::
      match r with
      | inr err => [Warn "Getting memory details: %v" [ArgErr err]]
      | inl _ => []
      end ++ [Call CallNow; Send (events t) (proc_event now p)])).
Proof.
  intros HG HM HGM HN. unfold exportProcStats_body. run_monad. rewrite HG. simpl.
  rewrite HM. destruct (getProcCpuPercentage t process) as [user_p t1] eqn:E.
  pose proof (f_equal snd E) as E2. rewrite getProcCpuPercentage_snd in E2.
  simpl in E2. subst t1. simpl.
  unfold getRssPercent. run_monad. rewrite HGM. simpl.
  destruct (procsMap t !! Process.Pid process) as [oproc|]; simpl;
    destruct r as [mem_stat|err]; simpl; rewrite HN; simpl;
    unfold filled, proc_event; simpl; rewrite ?insert_insert_eq;
    repeat rewrite <- app_assoc; reflexivity.
Qed.


(** What one iteration of [exportProcStats] does, in the three cases. *)
Lemma exportProcStats_body_cases (pid : Z) (t : Topbeat) (s : Sys) :
  let r := exportProcStats_body pid t s in
  exists new, trace (snd r) = trace s ++ Call (CallGetProcess pid) :: new /\
    List.filter is_enumeration new = [] /\ List.filter is_pacing new = [] /\
    ((fst r = t /\ List.filter is_send new = []) \/
     (exists p now,
        fst r = set_procsMap (<[Process.Pid p := p]> (procsMap t)) t /\
        MatchProcess t (Process.Name p) = true /\
        List.filter is_send new = [Send (events t) (proc_event now p)])).
Proof.
  destruct (GetProcess pid (world s)) as [[process|err] w] eqn:HG.
  - destruct (MatchProcess t (Process.Name process)) eqn:HM.
    + destruct (GetMemory w) as [r w1] eqn:HGM.
      destruct (time_Now w1) as [now w2] eqn:HN.
      pose proof (exportProcStats_body_run pid t s process w r w1 now w2 HG HM HGM HN) as E.
      cbv zeta in E. cbv zeta. rewrite E. cbn [fst snd trace].
      eexists. split; [reflexivity|].
      destruct r as [mem_stat|err]; cbn [app List.filter is_enumeration is_pacing is_send];
        (split; [reflexivity | split; [reflexivity|]]);
        right;
        match goal with |- context [proc_event now ?p] => exists p, now end;
        (split; [reflexivity | split; [exact HM | reflexivity]]).
    + cbv zeta. rewrite (exportProcStats_body_skip pid t s process w HG HM).
      exists []. simpl. repeat (split; [reflexivity|]). left. auto.
  - cbv zeta. rewrite (exportProcStats_body_error pid t s err w HG).
    eexists. split; [reflexivity|]. simpl. repeat (split; [reflexivity|]). left. auto.
Qed.

Lemma for_range_exportProcStats_trace (pids : list Z) (t : Topbeat) (s : Sys) :
  let r := for_range pids exportProcStats_body t s in
  set_procsMap (procsMap t) (fst r) = t /\
  (keyed (procsMap t) -> keyed (procsMap (fst r))) /\
  exists new, trace (snd r) = trace s ++ new /\
    List.filter is_enumeration new = List.map (fun pid => Call (CallGetProcess pid)) pids /\
    List.filter is_pacing new = [] /\
    (length (List.filter is_send new) <= length pids)%nat /\
    Forall (proc_send_on (events t)) (List.filter is_send new).
Proof.
  revert t s. induction pids as [|pid pids IH]; intros t s; cbv zeta.
  - simpl. split; [destruct t; reflexivity|]. split; [auto|].
    exists []. rewrite app_nil_r. simpl. auto.
  - simpl. unfold mbind, M_bind, bind.
    destruct (exportProcStats_body_cases pid t s) as (n1 & T1 & En1 & Sl1 & C1).
    destruct (exportProcStats_body pid t s) as [t1 s1]. cbn [fst snd] in *.
    destruct (IH t1 s1) as (F2 & K2 & n2 & T2 & En2 & Sl2 & Le2 & Fa2).
    destruct (for_range pids exportProcStats_body t1 s1) as [t2 s2]. cbn [fst snd] in *.
    assert (Ht1 : set_procsMap (procsMap t) t1 = t /\ events t1 = events t /\
                  (keyed (procsMap t) -> keyed (procsMap t1))).
    { destruct C1 as [[-> _] | (p & now & -> & _ & _)].
      - split; [destruct t; reflexivity | auto].
      - split; [destruct t; reflexivity | split; [reflexivity|]].
        simpl. apply keyed_insert. }
    destruct Ht1 as (F1 & Ev1 & K1).
    split; [rewrite <- F1 at 2; rewrite <- F2; destruct t2; reflexivity|].
    split; [auto|].
    exists (Call (CallGetProcess pid) :: n1 ++ n2).
    split; [rewrite T2, T1, <- app_assoc; reflexivity|].
    simpl. rewrite !List.filter_app, En1, En2, Sl1, Sl2. simpl.
    split; [reflexivity | split; [reflexivity|]].
    rewrite Ev1 in Fa2.
    destruct C1 as [[_ ->] | (p & now & _ & _ & ->)]; simpl.
    + split; [lia | exact Fa2].
    + split; [lia|]. constructor; [|exact Fa2].
      eexists. split; reflexivity.
Qed.

Lemma exportProcStats_frame (t : Topbeat) (s : Sys) :
  let r := exportProcStats t s in
  set_procsMap (procsMap t) (snd (fst r)) = t /\
  (keyed (procsMap t) -> keyed (procsMap (snd (fst r)))) /\
  exists new, trace (snd r) = trace s ++ new /\ List.filter is_pacing new = [].
Proof.
  unfold exportProcStats. destruct (length (procs t) =? 0)%nat.
  - simpl. split; [destruct t; reflexivity | split; [auto|]].
    exists []. rewrite app_nil_r. auto.
  - unfold mbind, M_bind, bind, syscall.
    destruct (Pids (world s)) as [[pids [e|]] w]; cbv zeta.
    + simpl. split; [destruct t; reflexivity | split; [auto|]].
      rewrite <- app_assoc. eexists. split; [reflexivity | reflexivity].
    + set (s1 := mkSys _ _).
      destruct (for_range_exportProcStats_trace pids t s1)
        as (F & K & new & T & _ & Sl & _).
      destruct (for_range pids exportProcStats_body t s1) as [t1 s2].
      cbn [fst snd ret] in *. split; [exact F | split; [exact K|]].
      exists (Call CallPids :: new). rewrite T. subst s1. cbn [trace].
      rewrite <- app_assoc. split; [reflexivity | exact Sl].
Qed.

Lemma exportProcStats_sends (t : Topbeat) (s : Sys) :
  let r := exportProcStats t s in
  exists new, trace (snd r) = trace s ++ new /\
    Forall (proc_send_on (events t)) (List.filter is_send new) /\
    ((0 < length (procs t))%nat -> exists rest, new = Call CallPids :: rest).
Proof.
  unfold exportProcStats. destruct (procs t) as [|reg regs]; cbn [length Nat.eqb].
  - exists []. simpl. rewrite app_nil_r. split; [reflexivity | split; [constructor | lia]].
  - unfold mbind, M_bind, bind, syscall.
    destruct (Pids (world s)) as [[pids [e|]] w]; cbv zeta.
    + simpl. rewrite <- app_assoc. eexists. split; [reflexivity|].
      split; [constructor | eauto].
    + set (s1 := mkSys _ _).
      destruct (for_range_exportProcStats_trace pids t s1)
        as (_ & _ & new & T & _ & _ & _ & Fa).
      destruct (for_range pids exportProcStats_body t s1) as [t1 s2].
      cbn [fst snd ret] in *. exists (Call CallPids :: new).
      rewrite T. subst s1. cbn [trace]. rewrite <- app_assoc.
      split; [reflexivity | split; [exact Fa | eauto]].
Qed.

(** *** initProcStats *)

Lemma initProcStats_body_cases (pid : Z) (t : Topbeat) (s : Sys) :
  let r := initProcStats_body pid t s in
  exists new, trace (snd r) = trace s ++ Call (CallGetProcess pid) :: new /\
    List.filter is_enumeration new = [] /\ List.filter is_pacing new = [] /\
    List.filter is_send new = [] /\
    (fst r = t \/ exists p, fst r = set_procsMap (<[Process.Pid p := p]> (procsMap t)) t).
Proof.
  unfold initProcStats_body. run_monad.
  destruct (GetProcess pid (world s)) as [[process|err] w]; simpl.
  - exists []. repeat split; eauto.
  - rewrite <- app_assoc. eexists. split; [reflexivity|]. simpl. auto.
Qed.

Lemma for_range_initProcStats_trace (pids : list Z) (t : Topbeat) (s : Sys) :
  let r := for_range pids initProcStats_body t s in
  set_procsMap (procsMap t) (fst r) = t /\
  (keyed (procsMap t) -> keyed (procsMap (fst r))) /\
  exists new, trace (snd r) = trace s ++ new /\
    List.filter is_enumeration new = List.map (fun pid => Call (CallGetProcess pid)) pids /\
    List.filter is_pacing new = [] /\ List.filter is_send new = [].
Proof.
  revert t s. induction pids as [|pid pids IH]; intros t s; cbv zeta.
  - simpl. split; [destruct t; reflexivity|]. split; [auto|].
    exists []. rewrite app_nil_r. simpl. auto.
  - simpl. unfold mbind, M_bind, bind.
    destruct (initProcStats_body_cases pid t s) as (n1 & T1 & En1 & Sl1 & Se1 & C1).
    destruct (initProcStats_body pid t s) as [t1 s1]. cbn [fst snd] in *.
    destruct (IH t1 s1) as (F2 & K2 & n2 & T2 & En2 & Sl2 & Se2).
    destruct (for_range pids initProcStats_body t1 s1) as [t2 s2]. cbn [fst snd] in *.
    assert (Ht1 : set_procsMap (procsMap t) t1 = t /\
                  (keyed (procsMap t) -> keyed (procsMap t1))).
    { destruct C1 as [-> | (p & ->)].
      - split; [destruct t; reflexivity | auto].
      - split; [destruct t; reflexivity|]. simpl. apply keyed_insert. }
    destruct Ht1 as (F1 & K1).
    split; [rewrite <- F1 at 2; rewrite <- F2; destruct t2; reflexivity|].
    split; [auto|].
    exists (Call (CallGetProcess pid) :: n1 ++ n2).
    split; [rewrite T2, T1, <- app_assoc; reflexivity|].
    simpl. rewrite !List.filter_app, En1, En2, Sl1, Sl2, Se1, Se2. auto.
Qed.

Lemma initProcStats_body_map (pid : Z) (t t' : Topbeat) (s : Sys) :
  procsMap t = procsMap t' ->
  procsMap (fst (initProcStats_body pid t s)) =
    procsMap (fst (initProcStats_body pid t' s)) /\
  snd (initProcStats_body pid t s) = snd (initProcStats_body pid t' s).
Proof.
  intros Hm. unfold initProcStats_body. run_monad.
  destruct (GetProcess pid (world s)) as [[process|err] w]; simpl; rewrite ?Hm; auto.
Qed.

Lemma for_range_initProcStats_map (pids : list Z) (t t' : Topbeat) (s : Sys) :
  procsMap t = procsMap t' ->
  procsMap (fst (for_range pids initProcStats_body t s)) =
    procsMap (fst (for_range pids initProcStats_body t' s)) /\
  snd (for_range pids initProcStats_body t s) =
    snd (for_range pids initProcStats_body t' s).
Proof.
  revert t t' s. induction pids as [|pid pids IH]; intros t t' s Hm; simpl.
  - auto.
  - unfold mbind, M_bind, bind.
    destruct (initProcStats_body_map pid t t' s Hm) as [Hm1 Hs1].
    destruct (initProcStats_body pid t s) as [t1 s1].
    destruct (initProcStats_body pid t' s) as [t1' s1']. simpl in *. subst s1'.
    apply IH, Hm1.
Qed.

Lemma initProcStats_frame (t : Topbeat) (s : Sys) :
  let r := initProcStats t s in
  set_procsMap (procsMap t) (fst r) = t /\ keyed (procsMap (fst r)) /\
  exists new, trace (snd r) = trace s ++ new /\
    List.filter is_pacing new = [] /\ List.filter is_send new = [].
Proof.
  unfold initProcStats. cbv zeta.
  change (procs (set_procsMap ∅ t)) with (procs t).
  destruct (length (procs t) =? 0)%nat.
  - simpl. split; [destruct t; reflexivity | split; [apply keyed_empty|]].
    exists []. rewrite app_nil_r. auto.
  - unfold mbind, M_bind, bind, syscall.
    destruct (Pids (world s)) as [[pids err] w]. cbv zeta.
    destruct err as [e|]; run_monad;
      match goal with
      | |- context [for_range pids initProcStats_body ?t0 ?s0] =>
          destruct (for_range_initProcStats_trace pids t0 s0)
            as (F & K & new & T & _ & Sl & Se);
          destruct (for_range pids initProcStats_body t0 s0) as [t1 s2]
      end;
      cbn [fst snd] in *;
      (split; [clear - F; destruct t, t1; unfold set_procsMap in *; simpl in *; congruence|]);
      (split; [apply K, keyed_empty|]);
      rewrite T; cbn [trace]; repeat rewrite <- app_assoc;
      (eexists; split; [reflexivity|]); simpl; auto.
Qed.


(** *** Run *)

Lemma tick_frame (t : Topbeat) (s : Sys) :
  let r := tick t s in
  (isAlive (fst r), period (fst r), procs (fst r), events (fst r)) =
    (isAlive t, period t, procs t, events t) /\
  (keyed (procsMap t) -> keyed (procsMap (fst r))) /\
  exists new, trace (snd r) = trace s ++ Call (CallSleep (period t)) :: new /\
    List.filter is_pacing new = [Call CallGetSystemLoad].
Proof.
  unfold tick. unfold mbind, M_bind, bind, syscall, ret. cbv zeta. cbn [world trace].
  set (s1 := mkSys _ _).
  destruct (exportSystemStats_frame t s1) as (F1 & n1 & T1 & Sl1 & _).
  destruct (exportSystemStats t s1) as [[e1 t1] s2]. cbn [fst snd] in *.
  destruct (exportProcStats_frame t1 s2) as (F2 & K2 & n2 & T2 & Sl2).
  destruct (exportProcStats t1 s2) as [[e2 t2] s3]. cbn [fst snd] in *.
  split; [|split].
  - rewrite <- F1, <- F2. destruct t2; reflexivity.
  - intros K. apply K2. rewrite <- F1 in K. destruct t1; exact K.
  - exists (n1 ++ n2). rewrite T2, T1. subst s1. cbn [trace].
    rewrite <- !app_assoc. split; [reflexivity|].
    rewrite List.filter_app, Sl1, Sl2. reflexivity.
Qed.

Lemma Run_loop_frame (n : nat) (t : Topbeat) (s : Sys) :
  let r := Run_loop n t s in
  (isAlive (fst r), period (fst r), procs (fst r), events (fst r)) =
    (isAlive t, period t, procs t, events t) /\
  (keyed (procsMap t) -> keyed (procsMap (fst r))) /\
  exists new, trace (snd r) = trace s ++ new /\
    List.filter is_pacing new =
      List.concat (List.repeat [Call (CallSleep (period t)); Call CallGetSystemLoad] n).
Proof.
  revert t s. induction n as [|n IH]; intros t s; cbv zeta.
  - simpl. split; [reflexivity | split; [auto|]].
    exists []. rewrite app_nil_r. auto.
  - simpl. unfold mbind, M_bind, bind.
    destruct (tick_frame t s) as (C1 & K1 & n1 & T1 & Sl1).
    destruct (tick t s) as [t1 s1]. cbn [fst snd] in *.
    destruct (IH t1 s1) as (C2 & K2 & n2 & T2 & Sl2).
    destruct (Run_loop n t1 s1) as [t2 s2]. cbn [fst snd] in *.
    split; [congruence | split; [auto|]].
    exists (Call (CallSleep (period t)) :: n1 ++ n2).
    rewrite T2, T1, <- app_assoc. split; [reflexivity|].
    simpl. rewrite List.filter_app, Sl1, Sl2. simpl.
    f_equal. congruence.
Qed.

Lemma Run_frame (n : nat) (t : Topbeat) (s : Sys) :
  let r := Run n t s in
  fst (fst r) = None /\
  (isAlive (snd (fst r)), period (snd (fst r)), procs (snd (fst r)), events (snd (fst r))) =
    (false, period t, procs t, events t) /\
  keyed (procsMap (snd (fst r))) /\
  exists new, trace (snd r) = trace s ++ new /\
    List.filter is_pacing new =
      List.concat (List.repeat [Call (CallSleep (period t)); Call CallGetSystemLoad] n).
Proof.
  unfold Run. unfold mbind, M_bind, bind, ret. cbv zeta.
  destruct (initProcStats_frame (set_isAlive true t) s) as (F0 & K0 & n0 & T0 & Sl0 & _).
  destruct (initProcStats (set_isAlive true t) s) as [t0 s0]. cbn [fst snd] in *.
  destruct (Run_loop_frame n t0 s0) as (C1 & K1 & n1 & T1 & Sl1).
  destruct (Run_loop n t0 s0) as [t1 s1]. cbn [fst snd] in *.
  assert (P0 : period t0 = period t /\ procs t0 = procs t /\ events t0 = events t).
  { clear - F0. destruct t, t0. unfold set_procsMap, set_isAlive in F0. simpl in *.
    injection F0. auto. }
  destruct P0 as (P1 & P2 & P3).
  split; [reflexivity|]. split; [|split].
  - unfold Stop. simpl. congruence.
  - unfold Stop. simpl. auto.
  - exists (n0 ++ n1). rewrite T1, T0, <- app_assoc. split; [reflexivity|].
    rewrite List.filter_app, Sl0, Sl1, P1. reflexivity.
Qed.

End Sampling.

Transparent getCpuPercentage getUsedMemPercent getProcCpuPercentage Round.

(** ** The system sample *)

(** X6. [exportSystemStats] returns nil exactly when it has sent its event:
    on success it logs no warning and sends one event, a system event on
    the receiver's channel whose CPU block is the new CPU baseline; on
    failure it sends nothing and logs one warning, carrying the error it
    returns. In both cases nothing of the receiver but the CPU baseline
    changes, and no process is enumerated. *)
Theorem exportSystemStats_outcome `{os : Sigar} (t : Topbeat) (s : Sys) :
  let r := exportSystemStats t s in
  set_lastCpuTimes (lastCpuTimes t) (snd (fst r)) = t /\
  exists new, trace (snd r) = trace s ++ new /\
    List.filter is_enumeration new = [] /\
    match fst (fst r) with
    | None =>
        List.filter is_warn new = [] /\
        exists now load cpu mem swap,
          List.filter is_send new =
            [Send (events t) (SystemEvent now load cpu mem swap)] /\
          lastCpuTimes (snd (fst r)) = Some cpu
    | Some err =>
        List.filter is_send new = [] /\
        exists format, List.filter is_warn new = [Warn format [ArgErr err]]
    end.
Proof.
  cbv zeta.
  destruct (exportSystemStats_frame t s) as (F & n1 & T1 & _ & _ & En).
  destruct (exportSystemStats_result t s) as (n2 & T2 & R).
  split; [exact F|]. exists n2. split; [exact T2|]. split; [|exact R].
  rewrite T1 in T2. apply app_inv_head in T2. subst n2. exact En.
Qed.

(** X7. Once the load and the CPU counters have been read,
    [exportSystemStats] replaces the CPU baseline by the new snapshot (with
    its percentage filled in), whatever the memory and swap queries answer:
    when the memory query then fails, the error is returned and no event is
    sent, but the baseline has moved. *)
Theorem exportSystemStats_advances_baseline `{os : Sigar} (t : Topbeat) (s : Sys)
    (load : SystemLoad.t) (w1 : World) (cpu : CpuTimes.t) (w2 : World) :
  GetSystemLoad (world s) = (inl load, w1) ->
  GetCpuTimes w1 = (inl cpu, w2) ->
  snd (fst (exportSystemStats t s)) =
    set_lastCpuTimes
      (Some (CpuTimes.with_UserPercent (fst (getCpuPercentage t cpu)) cpu)) t /\
  (forall err w3, GetMemory w2 = (inr err, w3) ->
     fst (fst (exportSystemStats t s)) = Some err /\
     List.filter is_send (trace (snd (exportSystemStats t s))) =
       List.filter is_send (trace s)).
Proof. apply exportSystemStats_cpu_ok. Qed.

Lemma exportSystemStats_advances_baseline_witness :
  let t := @Examples.tracker [] ∅ (Some (Examples.cpu 1000 4000)) in
  let w := TableOS.mk 0 [] (inr "unavailable"%string) (inl (Examples.cpu 1050 4050)) in
  let s := @mkSys TableOS.os w [] in
  snd (fst (exportSystemStats t s)) =
    set_lastCpuTimes
      (Some (CpuTimes.with_UserPercent
               (fst (getCpuPercentage t (Examples.cpu 1050 4050)))
               (Examples.cpu 1050 4050))) t /\
  (forall err w3, @GetMemory TableOS.os w = (inr err, w3) ->
     fst (fst (exportSystemStats t s)) = Some err /\
     List.filter is_send (trace (snd (exportSystemStats t s))) =
       List.filter is_send (trace s)).
Proof.
  intros t w s.
  apply (@exportSystemStats_advances_baseline TableOS.os t s
           (SystemLoad.mk F64.zero F64.zero F64.zero) w (Examples.cpu 1050 4050) w);
    reflexivity.
Defined.

(** ** The process samples *)

(** X8. For a process whose name matches, one iteration of
    [exportProcStats] ends by sending one event, on the receiver's channel,
    built from the very snapshot it leaves in the map at the pid of the
    process: same name, CPU percentage computed against the previous
    baseline. When the memory query fails, the event is sent all the same,
    with an RSS percentage of 0. *)
Theorem exportProcStats_event_is_baseline `{re : RegexpLib} `{os : Sigar}
    (pid : Z) (t : Topbeat) (s : Sys) (process : Process.t) (w : World) :
  GetProcess pid (world s) = (inl process, w) ->
  MatchProcess t (Process.Name process) = true ->
  let r := exportProcStats_body pid t s in
  exists now p new,
    trace (snd r) = trace s ++ new ++ [Send (events t) (proc_event now p)] /\
    List.filter is_send new = [] /\
    procsMap (fst r) !! Process.Pid process = Some p /\
    Process.Pid p = Process.Pid process /\
    Process.Name p = Process.Name process /\
    ProcCpuTime.UserPercent (Process.Cpu p) = fst (getProcCpuPercentage t process) /\
    (forall err w1, GetMemory w = (inr err, w1) ->
       ProcMemStat.RssPercent (Process.Mem p) = F64.zero).
Proof.
  intros HG HM. cbv zeta.
  destruct (GetMemory w) as [r w1] eqn:HGM.
  destruct (time_Now w1) as [now w2] eqn:HN.
  pose proof (exportProcStats_body_run pid t s process w r w1 now w2 HG HM HGM HN) as E.
  cbv zeta in E. rewrite E. cbn [fst snd trace procsMap set_procsMap].
  match goal with |- context [proc_event now ?q] => exists now, q end.
  exists (Call (CallGetProcess pid) :: Call CallGetMemory ::
          match r with
          | inr err => [Warn "Getting memory details: %v" [ArgErr err]]
          | inl _ => []
          end ++ [Call CallNow]).
  split; [destruct r; reflexivity|].
  split; [destruct r; reflexivity|].
  split; [apply lookup_insert_eq|].
  split; [reflexivity | split; [reflexivity | split; [reflexivity|]]].
  intros err w1' [= -> _]. reflexivity.
Qed.

Lemma exportProcStats_event_is_baseline_witness :
  let t := @Examples.tracker [".*"%string] ∅ None in
  let w := TableOS.mk 6000000000 [Examples.proc 7 "bash" 150 0 20 0]
             (inr "unavailable"%string) (inl (Examples.cpu 0 0)) in
  let s := @mkSys TableOS.os w [] in
  let r := @exportProcStats_body RE2.lib TableOS.os 7 t s in
  exists now p new,
    trace (snd r) = trace s ++ new ++ [Send (events t) (proc_event now p)] /\
    List.filter is_send new = [] /\
    procsMap (fst r) !! 7 = Some p /\
    Process.Pid p = 7 /\
    Process.Name p = "bash"%string /\
    ProcCpuTime.UserPercent (Process.Cpu p) =
      fst (getProcCpuPercentage t (Examples.proc 7 "bash" 150 0 20 6000000000)) /\
    (forall err w1, @GetMemory TableOS.os w = (inr err, w1) ->
       ProcMemStat.RssPercent (Process.Mem p) = F64.zero).
Proof.
  intros t w s.
  apply (@exportProcStats_event_is_baseline RE2.lib TableOS.os 7 t s
           (Examples.proc 7 "bash" 150 0 20 6000000000) w); reflexivity.
Defined.

(** X9. When the enumeration succeeds, [exportProcStats] returns nil, asks
    for each listed pid once, in the order of the list, and enumerates
    nothing else; it sends at most one event per listed pid, and every
    event it sends is a proc event on the receiver's channel. *)
Theorem exportProcStats_enumerates_once `{re : RegexpLib} `{os : Sigar}
    (t : Topbeat) (s : Sys) (pids : list Z) (w : World) :
  (0 < length (procs t))%nat ->
  Pids (world s) = ((pids, None), w) ->
  let r := exportProcStats t s in
  fst (fst r) = None /\
  exists new, trace (snd r) = trace s ++ Call CallPids :: new /\
    List.filter is_enumeration new =
      List.map (fun pid => Call (CallGetProcess pid)) pids /\
    (length (List.filter is_send new) <= length pids)%nat /\
    Forall (proc_send_on (events t)) (List.filter is_send new).
Proof.
  intros Hp HP. cbv zeta. unfold exportProcStats.
  destruct (procs t) as [|reg regs] eqn:Ep; [simpl in Hp; lia|].
  cbn [length Nat.eqb]. unfold mbind, M_bind, bind, syscall. rewrite HP. cbv zeta.
  set (s1 := mkSys _ _).
  destruct (for_range_exportProcStats_trace pids t s1)
    as (_ & _ & new & T & En & _ & Le & Fa).
  destruct (for_range pids exportProcStats_body t s1) as [t1 s2].
  cbn [fst snd ret] in *. split; [reflexivity|].
  exists new. rewrite T. subst s1. cbn [trace]. rewrite <- app_assoc. auto.
Qed.

Lemma exportProcStats_enumerates_once_witness :
  let t := @Examples.tracker ["^nginx$"%string] ∅ None in
  let s := Examples.sys0 6000000000
             [Examples.proc 7 "bash" 150 0 20 0; Examples.proc 9 "nginx" 10 0 20 0] 100 in
  let r := @exportProcStats RE2.lib TableOS.os t s in
  fst (fst r) = None /\
  exists new, trace (snd r) = trace s ++ Call CallPids :: new /\
    List.filter is_enumeration new =
      List.map (fun pid => Call (CallGetProcess pid)) [7; 9] /\
    (length (List.filter is_send new) <= length [7; 9])%nat /\
    Forall (proc_send_on (events t)) (List.filter is_send new).
Proof.
  intros t s.
  apply (@exportProcStats_enumerates_once RE2.lib TableOS.os t s [7; 9] (world s));
    [simpl; lia | reflexivity].
Defined.



(** X11. When the enumeration fails, [exportProcStats] gives up: it returns
    the error, logs one warning, asks for no process and leaves the
    receiver as it was. [initProcStats] logs the same warning but goes on
    with the list that came with the error, asking for each of its pids
    once. *)
Theorem Pids_failure `{re : RegexpLib} `{os : Sigar}
    (t : Topbeat) (s : Sys) (pids : list Z) (e : error) (w : World) :
  (0 < length (procs t))%nat ->
  Pids (world s) = ((pids, Some e), w) ->
  exportProcStats t s =
    ((Some e, t),
     mkSys w (trace s ++ [Call CallPids;
                          Warn "Getting the list of pids: %v" [ArgErr e]])) /\
  exists new,
    trace (snd (initProcStats t s)) =
      trace s ++ [Call CallPids; Warn "Getting the list of pids: %v" [ArgErr e];
                  Debug "topbeat" "Pids: %v\n" [ArgInts pids]] ++ new /\
    List.filter is_enumeration new =
      List.map (fun pid => Call (CallGetProcess pid)) pids.
Proof.
  intros Hp HP. destruct (procs t) as [|reg regs] eqn:Ep; [simpl in Hp; lia|]. split.
  - unfold exportProcStats. rewrite Ep. cbn [length Nat.eqb].
    run_monad. rewrite HP. simpl. rewrite <- app_assoc. reflexivity.
  - unfold initProcStats. cbv zeta.
    change (procs (set_procsMap ∅ t)) with (procs t). rewrite Ep. cbn [length Nat.eqb].
    unfold mbind, M_bind, bind, syscall. rewrite HP. cbv zeta. run_monad.
    match goal with
    | |- context [for_range pids initProcStats_body ?t0 ?s0] =>
        destruct (for_range_initProcStats_trace pids t0 s0)
          as (_ & _ & new & T & En & _);
        destruct (for_range pids initProcStats_body t0 s0) as [t1 s2]
    end.
    cbn [fst snd] in *. exists new. rewrite T. cbn [trace].
    repeat rewrite <- app_assoc. split; [reflexivity | exact En].
Qed.

Lemma Pids_failure_witness :
  let t := @Examples.tracker [".*"%string] ∅ None in
  let w := TableOS.mk 6000000000 [Examples.proc 7 "bash" 150 0 20 0]
             (inl (Examples.mem 100)) (inl (Examples.cpu 0 0)) in
  let s := @mkSys FailingOS.os w [] in
  @exportProcStats RE2.lib FailingOS.os t s =
    ((Some "permission denied"%string, t),
     @mkSys FailingOS.os w
       [Call CallPids;
        Warn "Getting the list of pids: %v" [ArgErr "permission denied"%string]]) /\
  exists new,
    trace (snd (@initProcStats FailingOS.os t s)) =
      trace s ++ [Call CallPids;
                  Warn "Getting the list of pids: %v" [ArgErr "permission denied"%string];
                  Debug "topbeat" "Pids: %v\n" [ArgInts [7]]] ++ new /\
    List.filter is_enumeration new =
      List.map (fun pid => Call (CallGetProcess pid)) [7].
Proof.
  intros t w s.
  apply (@Pids_failure RE2.lib FailingOS.os t s [7] "permission denied" w);
    [simpl; lia | reflexivity].
Defined.

(** X12. [initProcStats] seeds the map without looking at the patterns or
    at the state it finds: from two receivers that both have a pattern, it
    builds the same map and performs the same effects. *)
Theorem initProcStats_ignores_patterns `{os : Sigar} (t t' : Topbeat) (s : Sys) :
  (0 < length (procs t))%nat -> (0 < length (procs t'))%nat ->
  procsMap (fst (initProcStats t s)) = procsMap (fst (initProcStats t' s)) /\
  snd (initProcStats t s) = snd (initProcStats t' s).
Proof.
  intros Hp Hp'. unfold initProcStats. cbv zeta.
  change (procs (set_procsMap ∅ t)) with (procs t).
  change (procs (set_procsMap ∅ t')) with (procs t').
  destruct (procs t) as [|reg regs]; [simpl in Hp; lia|].
  destruct (procs t') as [|reg' regs']; [simpl in Hp'; lia|].
  cbn [length Nat.eqb]. unfold mbind, M_bind, bind, syscall.
  destruct (Pids (world s)) as [[pids err] w]. cbv zeta.
  destruct err as [e|]; run_monad; apply for_range_initProcStats_map; reflexivity.
Qed.

Lemma initProcStats_ignores_patterns_witness :
  let t := @Examples.tracker ["^nginx$"%string] ∅ None in
  let t' := @Examples.tracker ["bash"; "sshd"]%string
              {[3 := Examples.proc 3 "init" 1 1 1 0]} (Some (Examples.cpu 1 1)) in
  let s := Examples.sys0 6000000000 [Examples.proc 7 "bash" 150 0 20 0] 100 in
  procsMap (fst (@initProcStats TableOS.os t s)) =
    procsMap (fst (@initProcStats TableOS.os t' s)) /\
  snd (@initProcStats TableOS.os t s) = snd (@initProcStats TableOS.os t' s).
Proof.
  intros t t' s.
  apply (@initProcStats_ignores_patterns TableOS.os t t' s); simpl; lia.
Defined.

(** ** The loop *)

(** X13. [Run] stopped after [n] iterations has slept [n] times, each time
    for the configured period, and has asked for the load once after each
    sleep, whatever failed in the iterations before; it returns nil with
    the receiver marked as stopped and the period, the patterns and the
    channel as they were. *)
Theorem Run_sleeps_each_period `{re : RegexpLib} `{os : Sigar}
    (n : nat) (t : Topbeat) (s : Sys) :
  let r := Run n t s in
  fst (fst r) = None /\
  isAlive (snd (fst r)) = false /\
  period (snd (fst r)) = period t /\
  procs (snd (fst r)) = procs t /\
  events (snd (fst r)) = events t /\
  exists new, trace (snd r) = trace s ++ new /\
    List.filter is_pacing new =
      List.concat (List.repeat [Call (CallSleep (period t)); Call CallGetSystemLoad] n).
Proof.
  cbv zeta. destruct (Run_frame n t s) as (E & C & _ & new & T & Sl).
  injection C as C1 C2 C3 C4. repeat (split; [assumption|]).
  exists new. auto.
Qed.

(** X14. The map is always keyed by pid: [initProcStats] builds a map in
    which every snapshot is stored under its own pid, without sending any
    event, and after any number of iterations of [Run] every snapshot in
    the map is still stored under its own pid. *)
Theorem Run_map_keyed `{re : RegexpLib} `{os : Sigar}
    (n : nat) (t : Topbeat) (s : Sys) :
  keyed (procsMap (fst (initProcStats t s))) /\
  List.filter is_send (trace (snd (initProcStats t s))) = List.filter is_send (trace s) /\
  keyed (procsMap (snd (fst (Run n t s)))).
Proof.
  destruct (initProcStats_frame t s) as (_ & K & new & T & _ & Se).
  split; [exact K|]. split.
  - rewrite T, List.filter_app, Se. apply app_nil_r.
  - destruct (Run_frame n t s) as (_ & _ & K' & _). exact K'.
Qed.

(** X15. One iteration of [Run]: the sleep comes first; then the system
    sample, which enumerates no process and sends at most one event, never
    a proc event; then the process sample, whose events are all proc events
    on the receiver's channel. With a pattern configured the process sample
    begins with the enumeration even when the system sample has failed. *)
Theorem tick_order `{re : RegexpLib} `{os : Sigar} (t : Topbeat) (s : Sys) :
  exists n1 n2,
    trace (snd (tick t s)) = trace s ++ Call (CallSleep (period t)) :: n1 ++ n2 /\
    List.filter is_enumeration n1 = [] /\
    List.filter is_proc_send n1 = [] /\
    (length (List.filter is_send n1) <= 1)%nat /\
    Forall (proc_send_on (events t)) (List.filter is_send n2) /\
    ((0 < length (procs t))%nat -> exists rest, n2 = Call CallPids :: rest).
Proof.
  unfold tick. unfold mbind, M_bind, bind, syscall, ret. cbv zeta. cbn [world trace].
  set (s1 := mkSys _ _).
  destruct (exportSystemStats_frame t s1) as (F1 & n1 & T1 & _ & Ps1 & En1).
  destruct (exportSystemStats_result t s1) as (n1' & T1' & R).
  rewrite T1 in T1'. apply app_inv_head in T1'. subst n1'.
  destruct (exportSystemStats t s1) as [[e1 t1] s2]. cbn [fst snd] in *.
  destruct (exportProcStats_sends t1 s2) as (n2 & T2 & Fa & St).
  destruct (exportProcStats t1 s2) as [[e2 t2] s3]. cbn [fst snd] in *.
  assert (Hc : events t1 = events t /\ procs t1 = procs t).
  { rewrite <- F1. destruct t1; auto. }
  destruct Hc as [Hev Hps]. rewrite Hev in Fa. rewrite Hps in St.
  exists n1, n2. rewrite T2, T1. subst s1. cbn [trace]. rewrite <- !app_assoc.
  split; [reflexivity|]. split; [exact En1|]. split; [exact Ps1|].
  split; [|split; [exact Fa | exact St]].
  destruct e1 as [err|].
  - destruct R as [-> _]. simpl. lia.
  - destruct R as (_ & now & load & cpu & mem & swap & -> & _). simpl. lia.
Qed.

Lemma tick_order_witness :
  let t := @Examples.tracker [".*"%string] ∅ None in
  let w := TableOS.mk 0 [Examples.proc 7 "bash" 150 0 20 0]
             (inr "unavailable"%string) (inl (Examples.cpu 0 0)) in
  let s := @mkSys TableOS.os w [] in
  exists n1 n2,
    trace (snd (@tick RE2.lib TableOS.os t s)) =
      trace s ++ Call (CallSleep (period t)) :: n1 ++ n2 /\
    exists rest, n2 = Call CallPids :: rest.
Proof.
  intros t w s.
  destruct (@tick_order RE2.lib TableOS.os t s)
    as (n1 & n2 & T & _ & _ & _ & _ & St).
  exists n1, n2. split; [exact T | apply St; simpl; lia].
Defined.

(** ** Init *)

(** X16. [Init] converts a period of [p] seconds, 0 to 9223372036, to
    [p * 10^9] nanoseconds; from 9223372037 seconds on the multiplication
    overflows [int64] and the period is negative. Without a period the
    period is one second. [Init] always returns nil, stores the channel,
    keeps the map and the CPU baseline, and does nothing but log three
    debug messages. *)
Theorem Init_period `{os : Sigar} (t0 : Topbeat) (p : Z) (l : option (list string))
    (ch : Chan) (s : Sys) :
  0 <= p <= 18446744073 ->
  let r := Init t0 (TopConfig.mk (Some p) l) ch s in
  (if p <=? 9223372036 then period (snd (fst r)) = p * 1000000000
   else period (snd (fst r)) = p * 1000000000 - 2 ^ 64 /\ period (snd (fst r)) < 0) /\
  period (snd (fst (Init t0 (TopConfig.mk None l) ch s))) = 1000000000 /\
  fst (fst r) = None /\
  events (snd (fst r)) = ch /\
  procsMap (snd (fst r)) = procsMap t0 /\
  lastCpuTimes (snd (fst r)) = lastCpuTimes t0 /\
  world (snd r) = world s /\
  trace (snd r) =
    trace s ++ [Debug "topbeat" "Init toppbeat" [];
                Debug "topbeat" "Follow processes %q\n" [ArgStrings (procs (snd (fst r)))];
                Debug "topbeat" "Period %v\n" [ArgDuration (period (snd (fst r)))]].
Proof.
  intros Hp. cbv zeta.
  assert (E : GoInt.wrap_int64 (p * time_Second) =
              if p <=? 9223372036 then p * 1000000000 else p * 1000000000 - 2 ^ 64).
  { unfold GoInt.wrap_int64, time_Second.
    change (2 ^ 63) with 9223372036854775808.
    change (2 ^ 64) with 18446744073709551616.
    destruct (Z.leb_spec p 9223372036).
    - rewrite Z.mod_small; lia.
    - replace (p * 1000000000 + 9223372036854775808)
        with ((p * 1000000000 - 9223372036854775808) + 1 * 18446744073709551616) by lia.
      rewrite Z.mod_add by lia. rewrite Z.mod_small; lia. }
  assert (N : (p <=? 9223372036) = false -> p * 1000000000 - 2 ^ 64 < 0).
  { intros H. apply Z.leb_gt in H. change (2 ^ 64) with 18446744073709551616. lia. }
  unfold Init. run_monad. destruct l as [l|]; simpl; rewrite E;
    (split; [destruct (p <=? 9223372036); [reflexivity | split; [reflexivity | auto]]|]);
    repeat (split; [reflexivity|]);
    repeat rewrite <- app_assoc; reflexivity.
Qed.

Lemma Init_period_witness :
  period (snd (fst (@Init TableOS.os Topbeat_zero (TopConfig.mk (Some 10) None) 3%nat
                      (Examples.sys0 0 [] 100)))) = 10 * 1000000000.
Proof.
  apply (proj1 (@Init_period TableOS.os Topbeat_zero 10 None 3%nat
                  (Examples.sys0 0 [] 100) ltac:(lia))).
Defined.

(** ** The CPU percentage of a process *)

Lemma delta_time_bound (a b : Time) :
  GoInt.quot (Nanoseconds (time_Sub a b)) 1000000 < 2 ^ 53.
Proof.
  unfold GoInt.quot, Nanoseconds, time_Sub, GoInt.min_int64, GoInt.max_int64.
  change (2 ^ 63) with 9223372036854775808. change (2 ^ 53) with 9007199254740992.
  set (d := Z.max _ _).
  assert (Hd : d <= 9223372036854775807) by (unfold d; lia).
  destruct (Z_lt_le_dec d 0) as [Hn|Hn].
  - pose proof (Z.quot_opp_l d 1000000 ltac:(lia)) as Q.
    pose proof (Z.quot_pos (- d) 1000000 ltac:(lia) ltac:(lia)). lia.
  - rewrite Z.quot_div_nonneg by lia.
    apply Z.div_lt_upper_bound; lia.
Qed.

(** X17. With a baseline for the pid, a positive wall-clock delta (in
    whole milliseconds) and a CPU delta between 0 and the wall-clock delta,
    [getProcCpuPercentage] returns k hundredths for some k between 0 and
    10000, a value between 0 and 100, both included, and makes the snapshot
    the new baseline. *)
Theorem getProcCpuPercentage_range (t : Topbeat) (proc oproc : Process.t) :
  procsMap t !! Process.Pid proc = Some oproc ->
  let delta_proc :=
    GoInt.add64
      (GoInt.sub64 (ProcCpuTime.User (Process.Cpu proc))
                   (ProcCpuTime.User (Process.Cpu oproc)))
      (GoInt.sub64 (ProcCpuTime.System (Process.Cpu proc))
                   (ProcCpuTime.System (Process.Cpu oproc))) in
  let delta_time :=
    GoInt.quot (Nanoseconds (time_Sub (Process.ctime proc) (Process.ctime oproc)))
      1000000 in
  0 < delta_time -> delta_proc <= delta_time ->
  (exists k, 0 <= k <= 10000 /\
     fst (getProcCpuPercentage t proc) = F64.div (F64.of_Z k) (F64.of_Z 100)) /\
  F64.leb F64.zero (fst (getProcCpuPercentage t proc)) = true /\
  F64.leb (fst (getProcCpuPercentage t proc)) (F64.of_Z 100) = true /\
  procsMap (snd (getProcCpuPercentage t proc)) !! Process.Pid proc = Some proc.
Proof.
  intros Hl delta_proc delta_time Ht Hpt.
  assert (Hd : 0 <= delta_proc).
  { unfold delta_proc, GoInt.add64, GoInt.wrap64. apply Z.mod_pos_bound. reflexivity. }
  pose proof (delta_time_bound (Process.ctime proc) (Process.ctime oproc)) as Hb.
  fold delta_time in Hb.
  destruct (Round_share_range delta_proc delta_time ltac:(lia) ltac:(lia))
    as (k & Hk & Ek).
  destruct (hundredth_in_range k Hk) as [L1 L2].
  unfold getProcCpuPercentage. rewrite Hl. cbn [fst snd].
  fold delta_proc delta_time. rewrite Ek.
  split; [exists k; auto|]. split; [exact L1 | split; [exact L2|]].
  apply lookup_insert_eq.
Qed.

Lemma getProcCpuPercentage_range_witness :
  let old := Examples.proc 7 "nginx" 100 0 0 5000000000 in
  let t := @Examples.tracker [".*"%string] {[7 := old]} None in
  let proc := Examples.proc 7 "nginx" 130 20 0 6000000000 in
  F64.leb F64.zero (fst (getProcCpuPercentage t proc)) = true /\
  F64.leb (fst (getProcCpuPercentage t proc)) (F64.of_Z 100) = true.
Proof.
  intros old t proc.
  destruct (getProcCpuPercentage_range t proc old) as (_ & L1 & L2 & _);
    [reflexivity | reflexivity | vm_compute; discriminate |].
  split; [exact L1 | exact L2].
Defined.
